(** * Gesture-driven particle tree: a shallow embedding and its properties

    The development follows the TypeScript sources of the repository:

    - the constants module ([PARTICLE_CONFIG], [ANIMATION_CONFIG],
      [FIREWORKS_CONFIG], [GESTURE_THRESHOLDS]);
    - the utilities module ([noise3D], the two shape generators,
      [calculateFingerStates], [createFireworkParticles]);
    - the hook [useGestureRecognition] (the per-frame handler [onResults],
      the start-up [initCamera]);
    - [ThreeScene.ts] (the particle loop and the snow loop of [update],
      [createFireworks], [updateFireworks], [setupParticleSystem],
      [setupSnow], the setters the callbacks use);
    - [GestureTree.tsx] (the callbacks the component passes to the hook).

    Numbers.  A JavaScript [number] is modelled by an exact number: a
    rational ([Q]) where the code only adds, multiplies, divides by constants
    and compares (classifier, dispatcher, fireworks), a real ([R]) where it
    takes square roots or sines (physics, noise).  Rounding of IEEE doubles
    and of [Float32Array] stores is not part of the model.

    Effects.  Callbacks invoked by the dispatcher are recorded in an output
    list; mutable refs and class fields are threaded explicitly; objects
    that are shared between closures live in a store and are named by
    references; [Math.random] draws come from an explicit random source;
    the tasks of the event loop (a callback, a timer firing, an animation
    frame) are the steps of a transition system; a call that throws
    returns [None]. *)

From Stdlib Require Import QArith Qabs Reals Lra Lia List Bool String.
From Stdlib Require Import Psatz.
From Stdlib Require Lqa.
From stdpp Require Import base list.
Import ListNotations.

(* ===================================================================== *)
(** * Part I.  The embedding                                              *)
(* ===================================================================== *)

(** ** The constants *)

Module GESTURE_THRESHOLDS.
Local Open Scope Q_scope.
Definition INDEX_CURLED : Q := 0.12.
Definition MIDDLE_CURLED : Q := 0.12.
Definition RING_CURLED : Q := 0.12.
Definition PINKY_CURLED : Q := 0.12.
Definition THUMB_CURLED : Q := 0.18.
Definition INDEX_EXTENDED : Q := 0.15.
Definition MIDDLE_EXTENDED : Q := 0.15.
Definition RING_EXTENDED : Q := 0.15.
Definition PINKY_EXTENDED : Q := 0.15.
End GESTURE_THRESHOLDS.

Module FIREWORKS_CONFIG.
Local Open Scope Q_scope.
Definition LIFETIME : Q := 3.0.
Definition GRAVITY : Q := 0.015.
Definition AIR_RESISTANCE : Q := 0.97.
End FIREWORKS_CONFIG.

Module PARTICLE_CONFIG.
Definition COUNT : nat := 5000.
Definition HEIGHT : R := 25%R.
Definition RADIUS : R := 10%R.
End PARTICLE_CONFIG.

Module ANIMATION_CONFIG.
Local Open Scope R_scope.
Definition GRAVITY_STRENGTH : R := 0.35.
Definition EXPLOSION_STRENGTH : R := 0.25.
Definition DAMPING : R := 0.90.
Definition BROWN_MOTION : R := 0.03.
End ANIMATION_CONFIG.

(** ** Comparisons on rational numbers, as booleans *)

Module JsNum.
Local Open Scope Q_scope.

(** [a < b] and [a > b] of the source. *)
Definition ltb (a b : Q) : bool := negb (Qle_bool b a).
Definition gtb (a b : Q) : bool := ltb b a.

(** [n / 4.0] for a count [n]. *)
Definition of_nat (n : nat) : Q := inject_Z (Z.of_nat n).
End JsNum.

(** ** The classifier: [calculateFingerStates] *)

Module Gesture.
Import GESTURE_THRESHOLDS JsNum.
Local Open Scope Q_scope.

Record Landmark := { lm_x : Q; lm_y : Q; lm_z : Q }.

Record FingerState := {
  wrist : Landmark;
  thumbTip : Landmark;
  indexTip : Landmark;
  middleTip : Landmark;
  ringTip : Landmark;
  pinkyTip : Landmark;
  palmBase : Landmark;
  fingersCurled : nat;
  fingersExtended : nat;
  isFist : bool;
  isOneFinger : bool;
  isTwoFingers : bool;
  isThreeFingers : bool
}.

(** [Math.abs(tip.y - palmBase.y)] *)
Definition ydist (tip base : Landmark) : Q := Qabs (lm_y tip - lm_y base).

(** [[a, b, c, d].filter(x => x).length] *)
Definition count_true (bs : list bool) : nat :=
  length (List.filter (fun b : bool => b) bs).

(** The argument is [None] for a [null]/[undefined] landmark array (the
    [!landmarks] test).  After the length guard every index read below is
    in range, see [calculateFingerStates_long]. *)
Definition calculateFingerStates (landmarks : option (list Landmark))
  : option FingerState :=
  match landmarks with
  | None => None
  | Some lms =>
    if (length lms <? 21)%nat then None else
    wrist ← lms !! 0%nat;
    thumbTip ← lms !! 4%nat;
    indexTip ← lms !! 8%nat;
    middleTip ← lms !! 12%nat;
    ringTip ← lms !! 16%nat;
    pinkyTip ← lms !! 20%nat;
    palmBase ← lms !! 9%nat;
    let indexCurled := ltb (ydist indexTip palmBase) INDEX_CURLED in
    let middleCurled := ltb (ydist middleTip palmBase) MIDDLE_CURLED in
    let ringCurled := ltb (ydist ringTip palmBase) RING_CURLED in
    let pinkyCurled := ltb (ydist pinkyTip palmBase) PINKY_CURLED in
    let thumbCurled := ltb (ydist thumbTip palmBase) THUMB_CURLED in
    let indexExtended := gtb (ydist indexTip palmBase) INDEX_EXTENDED in
    let middleExtended := gtb (ydist middleTip palmBase) MIDDLE_EXTENDED in
    let ringExtended := gtb (ydist ringTip palmBase) RING_EXTENDED in
    let pinkyExtended := gtb (ydist pinkyTip palmBase) PINKY_EXTENDED in
    let fingersCurled :=
      count_true [indexCurled; middleCurled; ringCurled; pinkyCurled] in
    let fingersExtended :=
      count_true [indexExtended; middleExtended; ringExtended; pinkyExtended] in
    let isFist := (3 <=? fingersCurled)%nat && thumbCurled in
    let isOneFinger :=
      indexExtended && negb middleExtended && negb ringExtended
      && negb pinkyExtended in
    let isTwoFingers :=
      indexExtended && middleExtended && negb ringExtended
      && negb pinkyExtended in
    let isThreeFingers :=
      indexExtended && middleExtended && ringExtended
      && negb pinkyExtended in
    Some {| wrist := wrist; thumbTip := thumbTip; indexTip := indexTip;
            middleTip := middleTip; ringTip := ringTip;
            pinkyTip := pinkyTip; palmBase := palmBase;
            fingersCurled := fingersCurled;
            fingersExtended := fingersExtended;
            isFist := isFist; isOneFinger := isOneFinger;
            isTwoFingers := isTwoFingers;
            isThreeFingers := isThreeFingers |}
  end.
End Gesture.

(** ** The dispatcher: the [onResults] handler of [useGestureRecognition] *)

Module Dispatcher.
Import Gesture JsNum.
Local Open Scope Q_scope.

Inductive Status := LOADING | ACTIVE | ERROR.

(** One constructor per callback of [GestureRecognitionProps]. *)
Inductive Callback :=
| onOneFingerGesture
| onTwoFingersGesture
| onThreeFingersGesture
| onFistGesture (strength x y : Q)
| onNoGesture
| onError (message : string)
| onStatusChange (status : Status).

(** The refs the handler reads and writes. *)
Record Refs := {
  isMountedRef : bool;
  wasOneFingerRef : bool;
  wasTwoFingersRef : bool;
  wasThreeFingersRef : bool
}.

(** State of the refs after [useRef(false)] x3 and the effect's
    [isMountedRef.current = true]. *)
Definition initial : Refs :=
  {| isMountedRef := true; wasOneFingerRef := false;
     wasTwoFingersRef := false; wasThreeFingersRef := false |}.

Definition set_wasOneFinger (b : bool) (r : Refs) : Refs :=
  {| isMountedRef := isMountedRef r; wasOneFingerRef := b;
     wasTwoFingersRef := wasTwoFingersRef r;
     wasThreeFingersRef := wasThreeFingersRef r |}.
Definition set_wasTwoFingers (b : bool) (r : Refs) : Refs :=
  {| isMountedRef := isMountedRef r; wasOneFingerRef := wasOneFingerRef r;
     wasTwoFingersRef := b;
     wasThreeFingersRef := wasThreeFingersRef r |}.
Definition set_wasThreeFingers (b : bool) (r : Refs) : Refs :=
  {| isMountedRef := isMountedRef r; wasOneFingerRef := wasOneFingerRef r;
     wasTwoFingersRef := wasTwoFingersRef r;
     wasThreeFingersRef := b |}.

(** A handler body: reads and writes the refs, appends the callbacks it
    invokes, in order. *)
Definition Handler (A : Type) : Type := Refs -> A * Refs * list Callback.

Definition ret {A} (a : A) : Handler A := fun r => (a, r, []).
Definition bind {A B} (m : Handler A) (k : A -> Handler B) : Handler B :=
  fun r =>
    let '(a, r1, out1) := m r in
    let '(b, r2, out2) := k a r1 in
    (b, r2, out1 ++ out2).
Definition get : Handler Refs := fun r => (r, r, []).
Definition modify (f : Refs -> Refs) : Handler unit := fun r => (tt, f r, []).
Definition call (c : Callback) : Handler unit := fun r => (tt, r, [c]).

Declare Scope handler_scope.
Delimit Scope handler_scope with handler.
Notation "'let*' x ':=' m 'in' k" := (bind m (fun x => k))
  (at level 10, x name, m at level 100, k at level 200) : handler_scope.
Notation "m ';;' k" := (bind m (fun _ => k))
  (at level 100, k at level 200, right associativity) : handler_scope.

Record Results := { multiHandLandmarks : option (list (list Landmark)) }.

Local Open Scope handler_scope.

(** Lines 86-123: the body once a [fingerState] is at hand. *)
Definition dispatch (fingerState : FingerState) : Handler unit :=
  (let* r := get in
   if isOneFinger fingerState && negb (wasOneFingerRef r) then
     modify (set_wasOneFinger true) ;; call onOneFingerGesture
   else if negb (isOneFinger fingerState) then
     modify (set_wasOneFinger false)
   else ret tt) ;;
  (let* r := get in
   if isTwoFingers fingerState && negb (wasTwoFingersRef r) then
     modify (set_wasTwoFingers true) ;; call onTwoFingersGesture
   else if negb (isTwoFingers fingerState) then
     modify (set_wasTwoFingers false)
   else ret tt) ;;
  (let* r := get in
   if isThreeFingers fingerState && negb (wasThreeFingersRef r) then
     modify (set_wasThreeFingers true) ;; call onThreeFingersGesture
   else if negb (isThreeFingers fingerState) then
     modify (set_wasThreeFingers false)
   else ret tt) ;;
  if isFist fingerState then
    let strength := of_nat (fingersCurled fingerState) / 4.0 in
    call (onFistGesture strength (lm_x (palmBase fingerState))
                        (lm_y (palmBase fingerState)))
  else if negb (isFist fingerState) && negb (isOneFinger fingerState)
          && negb (isTwoFingers fingerState)
          && negb (isThreeFingers fingerState) then
    call onNoGesture
  else ret tt.

(** Lines 77-128. *)
Definition onResults (results : Results) : Handler unit :=
  let* r := get in
  if negb (isMountedRef r) then ret tt else
  match multiHandLandmarks results with
  | Some (landmarks :: _) =>
      match calculateFingerStates (Some landmarks) with
      | None => ret tt
      | Some fingerState => dispatch fingerState
      end
  | _ => call onNoGesture
  end.

(** The classifier's report for a frame, if the handler gets one. *)
Definition classify (results : Results) : option FingerState :=
  match multiHandLandmarks results with
  | Some (landmarks :: _) => calculateFingerStates (Some landmarks)
  | _ => None
  end.

(** Frames without a hand, and frames whose first hand is too short. *)
Definition no_hand (results : Results) : Prop :=
  multiHandLandmarks results = None ∨ multiHandLandmarks results = Some [].
Definition malformed (results : Results) : Prop :=
  ∃ landmarks rest,
    multiHandLandmarks results = Some (landmarks :: rest) ∧
    (length landmarks < 21)%nat.

(** The three discrete gestures: condition, latch and callback of each. *)
Inductive Discrete := OneFinger | TwoFingers | ThreeFingers.

Definition condition (g : Discrete) (fs : FingerState) : bool :=
  match g with
  | OneFinger => isOneFinger fs
  | TwoFingers => isTwoFingers fs
  | ThreeFingers => isThreeFingers fs
  end.

Definition latch (g : Discrete) (r : Refs) : bool :=
  match g with
  | OneFinger => wasOneFingerRef r
  | TwoFingers => wasTwoFingersRef r
  | ThreeFingers => wasThreeFingersRef r
  end.

Definition is_callback (g : Discrete) (c : Callback) : bool :=
  match g, c with
  | OneFinger, onOneFingerGesture => true
  | TwoFingers, onTwoFingersGesture => true
  | ThreeFingers, onThreeFingersGesture => true
  | _, _ => false
  end.

(** How many times the one-shot callback of [g] is among [calls]. *)
Definition fired (g : Discrete) (calls : list Callback) : nat :=
  length (List.filter (is_callback g) calls).

(** The gesture condition along a stream of frames. *)
Definition signal (g : Discrete) (frames : list Results) : list bool :=
  map (fun f => match classify f with
                | Some fs => condition g fs
                | None => false
                end) frames.

(** The false-to-true transitions of a boolean signal, [prev] being the
    value before the first sample: 1 at a rising edge, 0 elsewhere. *)
Fixpoint rising_edges (prev : bool) (sig : list bool) : list nat :=
  match sig with
  | [] => []
  | c :: rest => (if c && negb prev then 1 else 0)%nat :: rising_edges c rest
  end.

(** What one frame does to the refs, and the callbacks it invokes. *)
Definition refs_after (results : Results) (r : Refs) : Refs :=
  snd (fst (onResults results r)).
Definition calls_of (results : Results) (r : Refs) : list Callback :=
  snd (onResults results r).

(** A stream of frames: the callbacks of each frame, in order of arrival. *)
Fixpoint run (frames : list Results) (r : Refs) : list (list Callback) :=
  match frames with
  | [] => []
  | f :: rest => calls_of f r :: run rest (refs_after f r)
  end.
End Dispatcher.

(** ** Fireworks: [createFireworkParticles], [ThreeScene.createFireworks]
       and [updateFireworks] *)

Module Fireworks.
Import FIREWORKS_CONFIG JsNum.
Local Open Scope Q_scope.

#[export] Instance Q_inhabited : Inhabited Q := populate 0.

(** Typed-array accesses: a read [a[i]], the updates [a[i] = v],
    [a[i] += d] and [a[i] *= k].  A write past the end is ignored, as for
    a [Float32Array]. *)
Definition rd (a : list Q) (i : nat) : Q := a !!! i.
Definition wr (a : list Q) (i : nat) (v : Q) : list Q := <[i := v]> a.
Definition add_at (a : list Q) (i : nat) (d : Q) : list Q := wr a i (rd a i + d).
Definition mul_at (a : list Q) (i : nat) (k : Q) : list Q := wr a i (rd a i * k).

(** The [layers] table of [createFireworkParticles]. *)
Record Layer := { count : nat; speed : Q; size : Q; delay : Q }.

Definition layers : list Layer :=
  [ {| count := 200; speed := 0.8; size := 0.8; delay := 0 |};
    {| count := 150; speed := 0.5; size := 0.6; delay := 0.1 |};
    {| count := 100; speed := 0.3; size := 0.4; delay := 0.2 |} ].

(** A [THREE.Points]: the geometry's attribute arrays, the material's
    opacity, and whether geometry and material were disposed. *)
Record Points := {
  position : list Q;
  color : list Q;
  size_attr : list Q;
  opacity : Q;
  geometry_disposed : bool;
  material_disposed : bool
}.

(** The object a timer callback pushes ([fireworks.push({...})]). *)
Record Firework := {
  particles : option Points;
  velocities : list Q;
  age : Q;
  lifetime : Q;
  active : bool;
  layerIndex : nat
}.

(** What the random draws of one timer callback amount to: the velocity
    component, the colour channel and the size written at each index
    (results of [Math.random], [Math.sin], [Math.cos], [Math.acos] and of
    [THREE.Color]'s [setHSL]/[lerpColors], all outside this repository). *)
Record Sample := {
  velocity_of : nat -> Q;
  color_of : nat -> Q;
  size_of : nat -> Q
}.

(** A pending [setTimeout] callback: the closure captures the layer, its
    index, the origin and the array [fireworks] local to the call of
    [createFireworkParticles] that scheduled it. *)
Record Timer := {
  t_layer : Layer;
  t_layerIndex : nat;
  t_origin : Q * Q * Q;
  t_fireworks : nat
}.

(** Burst objects and arrays of bursts are JavaScript objects: they live
    in a store and are named by their index in it.  [children] lists the
    bursts whose [Points] are in the scene graph ([scene.add] /
    [scene.remove]); [this_fireworks] is the array the field
    [ThreeScene.fireworks] currently refers to. *)
Record Scene := {
  heap : list Firework;
  arrays : list (list nat);
  this_fireworks : nat;
  children : list nat;
  timers : list Timer
}.

(** [private fireworks: any[] = []], nothing spawned, nothing scheduled. *)
Definition initial : Scene :=
  {| heap := []; arrays := [[]]; this_fireworks := 0%nat;
     children := []; timers := [] |}.

Definition array_of (s : Scene) (a : nat) : list nat :=
  default [] (arrays s !! a).

(** The live set: the contents of [this.fireworks]. *)
Definition live (s : Scene) : list nat := array_of s (this_fireworks s).

(** [createFireworkParticles]: a fresh empty array, three timers that
    capture it, and the array (still empty) as result. *)
Definition createFireworkParticles (x y z : Q) (s : Scene) : nat * Scene :=
  let fireworks := length (arrays s) in
  let scheduled :=
    imap (fun layerIndex layer =>
            {| t_layer := layer; t_layerIndex := layerIndex;
               t_origin := (x, y, z); t_fireworks := fireworks |}) layers in
  (fireworks,
   {| heap := heap s; arrays := arrays s ++ [[]];
      this_fireworks := this_fireworks s; children := children s;
      timers := timers s ++ scheduled |}).

(** [array.push(...items)] on the array referred to by [a]. *)
Definition push (a : nat) (items : list nat) (s : Scene) : Scene :=
  {| heap := heap s;
     arrays := <[a := array_of s a ++ items]> (arrays s);
     this_fireworks := this_fireworks s; children := children s;
     timers := timers s |}.

(** [ThreeScene.createFireworks]: the spread copies the elements the
    returned array has at this moment. *)
Definition createFireworks (x y z : Q) (s : Scene) : Scene :=
  let '(newFireworks, s1) := createFireworkParticles x y z s in
  push (this_fireworks s1) (array_of s1 newFireworks) s1.

(** [new Float32Array(n)] *)
Definition Float32Array (n : nat) : list Q := repeat 0 n.

(** [new THREE.Float32Array(n)].  The module [three] exports no
    [Float32Array]: [THREE.Float32Array] is [undefined] and the [new]
    expression throws a [TypeError].  [None] is the thrown exception. *)
Definition THREE_Float32Array (n : nat) : option (list Q) := None.

(** The loop of a timer callback, array by array. *)
Definition fill3 (a : list Q) (n : nat) (f : nat -> Q * Q * Q) : list Q :=
  fold_left (fun a i =>
               let '(u, v, w) := f i in
               wr (wr (wr a (i * 3) u) (i * 3 + 1) v) (i * 3 + 2) w)
            (seq 0 n) a.
Definition fill1 (a : list Q) (n : nat) (f : nat -> Q) : list Q :=
  fold_left (fun a i => wr a i (f i)) (seq 0 n) a.

(** The callback of one timer (the body of the [setTimeout]): allocate
    the arrays, fill them, build the [Points], add them to the scene, push
    the burst on the captured array.  The third allocation throws, so the
    callback is left before anything is filled, added or pushed; the
    result is [None] then. *)
Definition timer_callback (t : Timer) (smp : Sample) (s : Scene)
  : option Scene :=
  let FW_PARTICLES := count (t_layer t) in
  let '(x, y, z) := t_origin t in
  let fwPositions := Float32Array (FW_PARTICLES * 3) in
  let fwVelocities := Float32Array (FW_PARTICLES * 3) in
  match THREE_Float32Array (FW_PARTICLES * 3) with
  | None => None
  | Some fwColors =>
    let fwSizes := Float32Array FW_PARTICLES in
    let fwPositions := fill3 fwPositions FW_PARTICLES (fun _ => (x, y, z)) in
    let fwVelocities :=
      fill3 fwVelocities FW_PARTICLES
            (fun i => (velocity_of smp (i * 3), velocity_of smp (i * 3 + 1),
                       velocity_of smp (i * 3 + 2))) in
    let fwColors :=
      fill3 fwColors FW_PARTICLES
            (fun i => (color_of smp (i * 3), color_of smp (i * 3 + 1),
                       color_of smp (i * 3 + 2))) in
    let fwSizes := fill1 fwSizes FW_PARTICLES (size_of smp) in
    let fwParticles :=
      {| position := fwPositions; color := fwColors; size_attr := fwSizes;
         opacity := 1; geometry_disposed := false;
         material_disposed := false |} in
    let fw :=
      {| particles := Some fwParticles; velocities := fwVelocities;
         age := 0; lifetime := 3.0; active := true;
         layerIndex := t_layerIndex t |} in
    let ref := length (heap s) in
    Some (push (t_fireworks t) [ref]
               {| heap := heap s ++ [fw]; arrays := arrays s;
                  this_fireworks := this_fireworks s;
                  children := children s ++ [ref]; timers := timers s |})
  end.

(** The [k]-th pending timer fires: it leaves the pending timers and its
    callback runs.  An exception thrown by the callback ends the task; the
    scene is as the callback left it at the throw. *)
Definition fire_timer (k : nat) (smp : Sample) (s : Scene) : Scene :=
  match timers s !! k with
  | None => s
  | Some t =>
      let s0 :=
        {| heap := heap s; arrays := arrays s;
           this_fireworks := this_fireworks s; children := children s;
           timers := delete k (timers s) |} in
      match timer_callback t smp s0 with
      | Some s1 => s1
      | None => s0
      end
  end.

Definition set_heap (h : list Firework) (s : Scene) : Scene :=
  {| heap := h; arrays := arrays s; this_fireworks := this_fireworks s;
     children := children s; timers := timers s |}.

(** [scene.remove(fw.particles)] *)
Definition scene_remove (o : nat) (s : Scene) : Scene :=
  {| heap := heap s; arrays := arrays s; this_fireworks := this_fireworks s;
     children := List.filter (fun c => negb (c =? o)%nat) (children s);
     timers := timers s |}.

(** [geometry.dispose(); material.dispose()] *)
Definition dispose (p : Points) : Points :=
  {| position := position p; color := color p; size_attr := size_attr p;
     opacity := opacity p; geometry_disposed := true;
     material_disposed := true |}.

(** Lines 476-517 of ThreeScene.ts: one step of a live burst with
    [Points] [p], at the burst's new age.  The arrays have three entries
    per particle, so [positions.length / 3] is a whole number. *)
Definition integrate (age lifetime : Q) (p : Points) (velocities : list Q)
  : Points * list Q :=
  let positionCount := (length (position p) / 3)%nat in
  let '(positions, velocities, colors) :=
    fold_left
      (fun (acc : list Q * list Q * list Q) j =>
         let '(positions, velocities, colors) := acc in
         let j3 := (j * 3)%nat in
         let positions := add_at positions j3 (rd velocities j3) in
         let positions := add_at positions (j3 + 1) (rd velocities (j3 + 1)) in
         let positions := add_at positions (j3 + 2) (rd velocities (j3 + 2)) in
         let velocities := add_at velocities (j3 + 1) (- GRAVITY) in
         let velocities := mul_at velocities j3 AIR_RESISTANCE in
         let velocities := mul_at velocities (j3 + 1) AIR_RESISTANCE in
         let velocities := mul_at velocities (j3 + 2) AIR_RESISTANCE in
         let ageFactor := age / lifetime in
         let colors :=
           if gtb ageFactor 0.5 then
             let whiteMix := (ageFactor - 0.5) * 0.6 in
             let colors := wr colors j3 (rd colors j3 * (1 - whiteMix) + whiteMix) in
             let colors :=
               wr colors (j3 + 1) (rd colors (j3 + 1) * (1 - whiteMix) + whiteMix) in
             wr colors (j3 + 2) (rd colors (j3 + 2) * (1 - whiteMix) + whiteMix)
           else colors in
         (positions, velocities, colors))
      (seq 0 positionCount) (position p, velocities, color p) in
  let ageFactor := age / lifetime in
  let opacity :=
    if ltb ageFactor 0.7 then 1.0 else 1 - (ageFactor - 0.7) / 0.3 in
  ({| position := positions; color := colors; size_attr := size_attr p;
      opacity := opacity; geometry_disposed := geometry_disposed p;
      material_disposed := material_disposed p |},
   velocities).

(** The body of the [for] loop of [updateFireworks] for the burst [o]. *)
Definition update_firework (o : nat) (s : Scene) : Scene :=
  match heap s !! o with
  | None => s
  | Some fw =>
    if negb (active fw) then s else
    let age' := age fw + 0.016 in
    if gtb age' (lifetime fw) then
      let s1 :=
        set_heap (<[o := {| particles := dispose <$> particles fw;
                            velocities := velocities fw; age := age';
                            lifetime := lifetime fw; active := false;
                            layerIndex := layerIndex fw |}]> (heap s)) s in
      match particles fw with
      | Some _ => scene_remove o s1
      | None => s1
      end
    else
      match particles fw with
      | Some p =>
          let '(p', velocities') :=
            integrate age' (lifetime fw) p (velocities fw) in
          set_heap (<[o := {| particles := Some p';
                              velocities := velocities'; age := age';
                              lifetime := lifetime fw; active := true;
                              layerIndex := layerIndex fw |}]> (heap s)) s
      | None =>
          set_heap (<[o := {| particles := None;
                              velocities := velocities fw; age := age';
                              lifetime := lifetime fw; active := true;
                              layerIndex := layerIndex fw |}]> (heap s)) s
      end
  end.

Definition is_active (s : Scene) (o : nat) : bool :=
  match heap s !! o with
  | Some fw => active fw
  | None => false
  end.

(** [updateFireworks]: the loop, then
    [this.fireworks = this.fireworks.filter(fw => fw.active)], which
    makes a new array. *)
Definition updateFireworks (s : Scene) : Scene :=
  let s1 := fold_left (fun s o => update_firework o s) (live s) s in
  let kept := List.filter (is_active s1) (live s1) in
  {| heap := heap s1; arrays := arrays s1 ++ [kept];
     this_fireworks := length (arrays s1); children := children s1;
     timers := timers s1 |}.

(** GestureTree.tsx, [onThreeFingersGesture]: fireworks at the origin. *)
Definition onThreeFingersGesture (s : Scene) : Scene :=
  createFireworks 0 0 0 s.

(** What can happen to the scene, one event-loop task at a time: the
    three-finger callback runs, a pending timer fires, or an animation
    frame runs [update] and with it [updateFireworks].  A task runs to
    completion before the next starts; any pending timer may be the next to
    fire, which covers the order the delays impose. *)
Inductive Task :=
| ThreeFingers
| Timeout (k : nat) (smp : Sample)
| Frame.

Definition step (s : Scene) (t : Task) : Scene :=
  match t with
  | ThreeFingers => onThreeFingersGesture s
  | Timeout k smp => fire_timer k smp s
  | Frame => updateFireworks s
  end.

Definition exec (tasks : list Task) (s : Scene) : Scene :=
  fold_left step tasks s.

(** A burst's resources are held while its [Points] are in the scene
    graph and neither geometry nor material was disposed. *)
Definition resources_held (s : Scene) (o : nat) : Prop :=
  o ∈ children s ∧
  (∃ fw p, heap s !! o = Some fw ∧ particles fw = Some p ∧
           geometry_disposed p = false ∧ material_disposed p = false).

Definition resources_released (s : Scene) (o : nat) : Prop :=
  (o ∉ children s) ∧
  (∃ fw p, heap s !! o = Some fw ∧ particles fw = Some p ∧
           geometry_disposed p = true ∧ material_disposed p = true).

(** *** Vocabulary of the properties *)

(** What every reachable scene satisfies: the store holds no burst, no
    [Points] of a burst are in the scene graph, and [this.fireworks] is
    empty. *)
Record dark (s : Scene) : Prop := {
  this_allocated : (this_fireworks s < length (arrays s))%nat;
  live_empty : live s = [];
  no_bursts : heap s = [];
  no_points : children s = []
}.

(** The burst one pass of the loop body leaves in place of [fw]. *)
Definition aged (fw : Firework) : Firework :=
  if negb (active fw) then fw else
  let age' := age fw + 0.016 in
  if gtb age' (lifetime fw) then
    {| particles := dispose <$> particles fw; velocities := velocities fw;
       age := age'; lifetime := lifetime fw; active := false;
       layerIndex := layerIndex fw |}
  else
    match particles fw with
    | Some p =>
        {| particles := Some (fst (integrate age' (lifetime fw) p (velocities fw)));
           velocities := snd (integrate age' (lifetime fw) p (velocities fw));
           age := age'; lifetime := lifetime fw; active := true;
           layerIndex := layerIndex fw |}
    | None =>
        {| particles := None; velocities := velocities fw; age := age';
           lifetime := lifetime fw; active := true;
           layerIndex := layerIndex fw |}
    end.

(** The pass retires the burst: it was active and its new age exceeds its
    lifetime. *)
Definition retires (fw : Firework) : bool :=
  active fw && gtb (age fw + 0.016) (lifetime fw).

(** The [for] loop of [updateFireworks] over the bursts listed in [l]. *)
Definition loop (l : list nat) (s : Scene) : Scene :=
  fold_left (fun s o => update_firework o s) l s.

(** [n] animation frames in a row. *)
Definition frames (n : nat) (s : Scene) : Scene := Nat.iter n updateFireworks s.
End Fireworks.

(** ** ThreeScene.ts: the particle loop of [update] (lines 344-397) *)

Module Physics.
Import ANIMATION_CONFIG PARTICLE_CONFIG.
Local Open Scope R_scope.

#[export] Instance R_inhabited : Inhabited R := populate 0.

(** [Float32Array] accesses, as in [Fireworks] but on reals. *)
Definition rd (a : list R) (i : nat) : R := a !!! i.
Definition wr (a : list R) (i : nat) (v : R) : list R := <[i := v]> a.
Definition add_at (a : list R) (i : nat) (d : R) : list R := wr a i (rd a i + d).
Definition mul_at (a : list R) (i : nat) (k : R) : list R := wr a i (rd a i * k).

(** [THREE.Vector3] with [set] and [length]. *)
Record Vector3 := { v_x : R; v_y : R; v_z : R }.
Definition set (x y z : R) : Vector3 := {| v_x := x; v_y := y; v_z := z |}.
Definition length3 (v : Vector3) : R :=
  sqrt (v_x v * v_x v + v_y v * v_y v + v_z v * v_z v).

(** The fields of [ThreeScene] the loop reads and writes. *)
Record State := {
  positions : list R;
  velocities : list R;
  targetTree : list R;
  targetExploded : list R;
  isPinching : bool;
  pinchStrength : R
}.

Definition set_velocities (v : list R) (s : State) : State :=
  {| positions := positions s; velocities := v;
     targetTree := targetTree s; targetExploded := targetExploded s;
     isPinching := isPinching s; pinchStrength := pinchStrength s |}.
Definition set_positions (p : list R) (s : State) : State :=
  {| positions := p; velocities := velocities s;
     targetTree := targetTree s; targetExploded := targetExploded s;
     isPinching := isPinching s; pinchStrength := pinchStrength s |}.

(** [updatePinchState] *)
Definition updatePinchState (isPinching : bool) (strength : R) (s : State)
  : State :=
  {| positions := positions s; velocities := velocities s;
     targetTree := targetTree s; targetExploded := targetExploded s;
     isPinching := isPinching; pinchStrength := strength |}.

(** What the gesture callbacks did to the pinch state since the previous
    animation frame: nothing, or a call of [updatePinchState]. *)
Definition apply_input (input : option (bool * R)) (s : State) : State :=
  match input with
  | Some (b, strength) => updatePinchState b strength s
  | None => s
  end.

Section RandomSource.
(** [random k] is the value of the [k]-th call of [Math.random]; the
    number of calls made so far is threaded through the loop. *)
Variable random : nat -> R.

(** The body of the loop for particle [i]. *)
Definition step_particle (acc : State * nat) (i : nat) : State * nat :=
  let '(s, drawn) := acc in
  let gravityStrength := GRAVITY_STRENGTH in
  let explosionStrength := EXPLOSION_STRENGTH in
  let damping := DAMPING in
  let brownMotion := BROWN_MOTION in
  let i3 := (i * 3)%nat in
  let x := rd (positions s) i3 in
  let y := rd (positions s) (i3 + 1) in
  let z := rd (positions s) (i3 + 2) in
  let '(v, drawn) :=
    if Rlt_dec 0.01 (pinchStrength s) then
      let targetX := rd (targetTree s) i3 in
      let targetY := rd (targetTree s) (i3 + 1) in
      let targetZ := rd (targetTree s) (i3 + 2) in
      let tempVec3a := set (targetX - x) (targetY - y) (targetZ - z) in
      let dist := length3 tempVec3a in
      let v :=
        if Rlt_dec 0.01 dist then
          let force := gravityStrength * pinchStrength s in
          let normalizedForce := force / dist in
          let v := add_at (velocities s) i3 (v_x tempVec3a * normalizedForce) in
          let v := add_at v (i3 + 1) (v_y tempVec3a * normalizedForce) in
          add_at v (i3 + 2) (v_z tempVec3a * normalizedForce)
        else velocities s in
      (v, drawn)
    else
      let targetX := rd (targetExploded s) i3 in
      let targetY := rd (targetExploded s) (i3 + 1) in
      let targetZ := rd (targetExploded s) (i3 + 2) in
      let tempVec3b := set (targetX - x) (targetY - y) (targetZ - z) in
      let dist := length3 tempVec3b in
      let v :=
        if Rlt_dec 0.01 dist then
          let force := explosionStrength in
          let normalizedForce := force / dist in
          let v := add_at (velocities s) i3 (v_x tempVec3b * normalizedForce) in
          let v := add_at v (i3 + 1) (v_y tempVec3b * normalizedForce) in
          add_at v (i3 + 2) (v_z tempVec3b * normalizedForce)
        else velocities s in
      let v := add_at v i3 ((random drawn - 0.5) * brownMotion) in
      let v := add_at v (i3 + 1) ((random (drawn + 1)%nat - 0.5) * brownMotion) in
      let v := add_at v (i3 + 2) ((random (drawn + 2)%nat - 0.5) * brownMotion) in
      (v, (drawn + 3)%nat) in
  let v := mul_at v i3 damping in
  let v := mul_at v (i3 + 1) damping in
  let v := mul_at v (i3 + 2) damping in
  let p := add_at (positions s) i3 (rd v i3) in
  let p := add_at p (i3 + 1) (rd v (i3 + 1)) in
  let p := add_at p (i3 + 2) (rd v (i3 + 2)) in
  (set_positions p (set_velocities v s), drawn).

(** The loop over the first [n] particles; [update] runs it with
    [n = PARTICLE_CONFIG.COUNT]. *)
Definition update_upto (n : nat) (acc : State * nat) : State * nat :=
  fold_left step_particle (seq 0 n) acc.

Definition update (acc : State * nat) : State * nat :=
  update_upto COUNT acc.

(** [n] animation frames in a row, the pinch state left alone. *)
Fixpoint ticks (n : nat) (acc : State * nat) : State * nat :=
  match n with
  | O => acc
  | S n => update (ticks n acc)
  end.

(** Animation frames interleaved with gesture callbacks: before each
    frame the perception callback may have called [updatePinchState]. *)
Definition frames (inputs : list (option (bool * R))) (acc : State * nat)
  : State * nat :=
  fold_left (fun acc input => update (apply_input input (fst acc), snd acc))
            inputs acc.
End RandomSource.

(** Reading particle [i] out of the flat arrays. *)
Definition vec_at (a : list R) (i : nat) : Vector3 :=
  set (rd a (i * 3)) (rd a (i * 3 + 1)) (rd a (i * 3 + 2)).

Definition position_of (s : State) (i : nat) : Vector3 := vec_at (positions s) i.
Definition velocity_of (s : State) (i : nat) : Vector3 := vec_at (velocities s) i.

(** The arrays all have [3 * COUNT] elements, as [setupParticleSystem]
    allocates them. *)
Definition well_formed (n : nat) (s : State) : Prop :=
  length (positions s) = (n * 3)%nat ∧
  length (velocities s) = (n * 3)%nat ∧
  length (targetTree s) = (n * 3)%nat ∧
  length (targetExploded s) = (n * 3)%nat.

(** Vector operations used to state the properties. *)
Definition vadd (a b : Vector3) : Vector3 :=
  set (v_x a + v_x b) (v_y a + v_y b) (v_z a + v_z b).
Definition vsub (a b : Vector3) : Vector3 :=
  set (v_x a - v_x b) (v_y a - v_y b) (v_z a - v_z b).
Definition vscale (k : R) (a : Vector3) : Vector3 :=
  set (v_x a * k) (v_y a * k) (v_z a * k).
Definition vzero : Vector3 := set 0 0 0.

(** [THREE.Vector3.normalize]: [divideScalar(length() || 1)]. *)
Definition normalize (a : Vector3) : Vector3 :=
  vscale (/ (if Req_dec_T (length3 a) 0 then 1 else length3 a)) a.

(** Distance of particle [i] to its tree target, and its speed. *)
Definition dist_to_tree (s : State) (i : nat) : R :=
  length3 (vsub (vec_at (targetTree s) i) (position_of s i)).
Definition speed (s : State) (i : nat) : R := length3 (velocity_of s i).

(** *** Vocabulary of the properties *)

(** The dot product; [length3 a] is the square root of [dot a a]. *)
Definition dot (a b : Vector3) : R :=
  v_x a * v_x b + v_y a * v_y b + v_z a * v_z b.

(** [a[3i] += x; a[3i+1] += y; a[3i+2] += z], and the same with [*=]. *)
Definition add3 (a : list R) (i : nat) (d : Vector3) : list R :=
  add_at (add_at (add_at a (i * 3) (v_x d)) (i * 3 + 1) (v_y d))
         (i * 3 + 2) (v_z d).
Definition mul3 (a : list R) (i : nat) (k : R) : list R :=
  mul_at (mul_at (mul_at a (i * 3) k) (i * 3 + 1) k) (i * 3 + 2) k.

(** Target and force magnitude chosen by the pinch test. *)
Definition target_of (s : State) (i : nat) : Vector3 :=
  if Rlt_dec 0.01 (pinchStrength s)
  then vec_at (targetTree s) i else vec_at (targetExploded s) i.

Definition forceMagnitude (s : State) : R :=
  if Rlt_dec 0.01 (pinchStrength s)
  then GRAVITY_STRENGTH * pinchStrength s else EXPLOSION_STRENGTH.

Definition displacement (s : State) (i : nat) : Vector3 :=
  vsub (target_of s i) (position_of s i).

(** The velocity increment of the attraction, as the code computes it. *)
Definition attraction (s : State) (i : nat) : Vector3 :=
  let d := displacement s i in
  if Rlt_dec 0.01 (length3 d)
  then vscale (forceMagnitude s / length3 d) d else vzero.

(** The Brownian increment: none when pinching, three draws otherwise,
    starting at draw number [k]. *)
Definition brownian (random : nat -> R) (s : State) (k : nat) : Vector3 :=
  if Rlt_dec 0.01 (pinchStrength s) then vzero
  else set ((random k - 0.5) * BROWN_MOTION)
           ((random (k + 1)%nat - 0.5) * BROWN_MOTION)
           ((random (k + 2)%nat - 0.5) * BROWN_MOTION).

Definition draws_per_particle (s : State) : nat :=
  if Rlt_dec 0.01 (pinchStrength s) then 0%nat else 3%nat.

(** The velocity of particle [i] after the loop body, before which [k]
    draws were made. *)
Definition next_velocity (random : nat -> R) (s : State) (k i : nat) : Vector3 :=
  vscale DAMPING
         (vadd (vadd (velocity_of s i) (attraction s i)) (brownian random s k)).

(** The quantity that decreases while a pinched particle is far from its
    tree target: [|d - 9 v|^2 + 90 |v|^2], with [d] the displacement to
    the target and [v] the velocity. *)
Definition energy (s : State) (i : nat) : R :=
  let d := vsub (vec_at (targetTree s) i) (position_of s i) in
  let q := vsub d (vscale 9 (velocity_of s i)) in
  dot q q + 90 * dot (velocity_of s i) (velocity_of s i).

(** The displacement to the tree target is [x] times [e] and the velocity
    [w] times [e]: for a unit vector [e] and [x, w >= 0], the particle is
    [x] away from its target and moves straight towards it at speed [w]. *)
Definition heading (e : Vector3) (x w : R) (s : State) (i : nat) : Prop :=
  vsub (vec_at (targetTree s) i) (position_of s i) = vscale x e /\
  velocity_of s i = vscale w e.

(** A pinch strength the gesture callbacks may pass: at most 1. *)
Definition bounded_input (input : option (bool * R)) : Prop :=
  match input with
  | Some (_, strength) => strength <= 1
  | None => True
  end.
End Physics.

(** ** Shapes: [noise3D], the two generators, and
       [ThreeScene.setupParticleSystem] *)

Module Shapes.
Import PARTICLE_CONFIG.
Local Open Scope R_scope.

(** A computation that may call [Math.random]: it is given the random
    source (the value of each call, by rank) and the number of calls made
    so far, and returns its result with the new number of calls. *)
Definition Gen (A : Type) : Type := (nat -> R) -> nat -> A * nat.

Definition ret {A} (a : A) : Gen A := fun _ drawn => (a, drawn).
Definition bind {A B} (m : Gen A) (k : A -> Gen B) : Gen B :=
  fun random drawn =>
    let '(a, drawn1) := m random drawn in k a random drawn1.
Definition Math_random : Gen R := fun random drawn => (random drawn, S drawn).

Declare Scope gen_scope.
Delimit Scope gen_scope with gen.
Notation "'let*' x ':=' m 'in' k" := (bind m (fun x => k))
  (at level 10, x name, m at level 100, k at level 200) : gen_scope.

(** [for (let i = 0; i < n; i++) body], the loop state passed along. *)
Fixpoint for_each {S} (indices : list nat) (body : nat -> S -> Gen S) (s : S)
  : Gen S :=
  match indices with
  | [] => ret s
  | i :: rest => bind (body i s) (for_each rest body)
  end.
Definition for_upto {S} (n : nat) (body : nat -> S -> Gen S) (s : S) : Gen S :=
  for_each (seq 0 n) body s.

Definition Math_floor (x : R) : R := IZR (Zfloor x).

(** [Math.pow] at the bases the tree generator uses (non-negative). *)
Definition Math_pow (b e : R) : R :=
  if Rle_dec b 0 then 0 else Rpower b e.

Definition wr (a : list R) (i : nat) (v : R) : list R := <[i := v]> a.

(** [new Float32Array(n)] *)
Definition Float32Array (n : nat) : list R := repeat 0 n.

(** [n - Math.floor(n)], between 0 and 1.  (On doubles the difference can
    round to 1 itself; the ranges proved of the generators are closed.) *)
Definition noise3D (x y z : R) : R :=
  let n := sin (x * 12.9898 + y * 78.233 + z * 37.719) * 43758.5453 in
  n - Math_floor n.

Local Open Scope gen_scope.

Definition calculateExplodedParticlePositions (particleCount : nat)
  : Gen (list R) :=
  let positions := Float32Array (particleCount * 3) in
  let spread := 60 in
  for_upto particleCount
    (fun i positions =>
       let i3 := (i * 3)%nat in
       let noiseX := noise3D (INR i) 0 0 in
       let noiseY := noise3D 0 (INR i) 0 in
       let noiseZ := noise3D 0 0 (INR i) in
       let positions := wr positions i3 ((noiseX - 0.5) * spread) in
       let positions := wr positions (i3 + 1) ((noiseY - 0.5) * spread) in
       let positions := wr positions (i3 + 2) ((noiseZ - 0.5) * spread) in
       ret positions)
    positions.

Definition calculateTreeParticlePositions (particleCount : nat)
  : Gen (list R) :=
  let positions := Float32Array (particleCount * 3) in
  let TREE_HEIGHT := HEIGHT in
  let TREE_RADIUS := RADIUS in
  for_upto particleCount
    (fun i positions =>
       let i3 := (i * 3)%nat in
       let* randomCheck := Math_random in
       let layerPct := INR i / INR particleCount in
       if Rlt_dec (1 - layerPct * 0.7) randomCheck then
         let* rnd1 := Math_random in
         let redistributedPct := rnd1 * 0.5 in
         let actualLayerPct := redistributedPct in
         let layerIndex := Math_floor (actualLayerPct * 12) in
         let normalizedY := layerIndex / 12 in
         let linearFactor := 1 - normalizedY in
         let curvedFactor := Math_pow (1 - normalizedY) 1.3 in
         let layerRadiusMax :=
           TREE_RADIUS * (linearFactor * 0.8 + curvedFactor * 0.2) in
         let GOLDEN_ANGLE := 2.399963229728653 in
         let angle := INR i * GOLDEN_ANGLE in
         let* rnd2 := Math_random in
         let r := layerRadiusMax * sqrt rnd2 in
         let y := - TREE_HEIGHT / 2 + normalizedY * TREE_HEIGHT in
         let droop := r * 0.4 in
         let y := y - droop in
         let* rnd3 := Math_random in
         let yRandomness := (rnd3 - 0.5) * 0.6 in
         let* rnd4 := Math_random in
         let depthJitter := (rnd4 - 0.5) * (0.8 + normalizedY * 1.2) in
         let positions := wr positions i3 (cos angle * r + depthJitter * 0.3) in
         let positions := wr positions (i3 + 1) (y + yRandomness) in
         let positions :=
           wr positions (i3 + 2) (sin angle * r + depthJitter * 0.3) in
         ret positions
       else
         let layerIndex := Math_floor (layerPct * 12) in
         let normalizedY := layerIndex / 12 in
         let linearFactor := 1 - normalizedY in
         let curvedFactor := Math_pow (1 - normalizedY) 1.3 in
         let layerRadiusMax :=
           TREE_RADIUS * (linearFactor * 0.8 + curvedFactor * 0.2) in
         let minRadius := 0.2 in
         let finalRadius := Rmax minRadius layerRadiusMax in
         let GOLDEN_ANGLE := 2.399963229728653 in
         let angle := INR i * GOLDEN_ANGLE in
         let* rnd1 := Math_random in
         let r := finalRadius * sqrt rnd1 in
         let y := - TREE_HEIGHT / 2 + normalizedY * TREE_HEIGHT in
         let droop := r * 0.4 in
         let y := y - droop in
         let* rnd2 := Math_random in
         let yRandomness := (rnd2 - 0.5) * 0.6 in
         let* rnd3 := Math_random in
         let depthJitter := (rnd3 - 0.5) * (0.8 + normalizedY * 1.2) in
         let positions := wr positions i3 (cos angle * r + depthJitter * 0.3) in
         let positions := wr positions (i3 + 1) (y + yRandomness) in
         let positions :=
           wr positions (i3 + 2) (sin angle * r + depthJitter * 0.3) in
         ret positions)
    positions.

(** The first four assignments of [setupParticleSystem]; the fields
    [isPinching] and [pinchStrength] have their declared initial values. *)
Definition setupParticleSystem : Gen Physics.State :=
  let* positions := calculateExplodedParticlePositions COUNT in
  let velocities := Float32Array (COUNT * 3) in
  let* targetTree := calculateTreeParticlePositions COUNT in
  let* targetExploded := calculateExplodedParticlePositions COUNT in
  ret {| Physics.positions := positions;
         Physics.velocities := velocities;
         Physics.targetTree := targetTree;
         Physics.targetExploded := targetExploded;
         Physics.isPinching := false;
         Physics.pinchStrength := 0 |}.

(** *** Vocabulary of the properties *)

(** The three coordinates the exploded generator gives particle [i]. *)
Definition exploded_point (i : nat) : list R :=
  [(noise3D (INR i) 0 0 - 0.5) * 60;
   (noise3D 0 (INR i) 0 - 0.5) * 60;
   (noise3D 0 0 (INR i) - 0.5) * 60].

(** The body of the loop of [calculateExplodedParticlePositions]. *)
Definition exploded_body (i : nat) (positions : list R) : Gen (list R) :=
  let i3 := (i * 3)%nat in
  let noiseX := noise3D (INR i) 0 0 in
  let noiseY := noise3D 0 (INR i) 0 in
  let noiseZ := noise3D 0 0 (INR i) in
  let positions := wr positions i3 ((noiseX - 0.5) * 60) in
  let positions := wr positions (i3 + 1) ((noiseY - 0.5) * 60) in
  let positions := wr positions (i3 + 2) ((noiseZ - 0.5) * 60) in
  ret positions.
End Shapes.

(** ** Sample inputs *)

Module Samples.
Import Gesture Dispatcher.
Local Open Scope Q_scope.

Definition pt (y : Q) : Landmark := {| lm_x := 0.5; lm_y := y; lm_z := 0 |}.

(** A hand whose palm base (landmark 9) is at height 0.5 and whose five
    tips (landmarks 4, 8, 12, 16, 20) are at the given heights. *)
Definition hand (thumb index middle ring pinky : Q) : list Landmark :=
  [pt 0.9; pt 0.8; pt 0.7; pt 0.6; pt thumb;
   pt 0.6; pt 0.5; pt 0.4; pt index;
   pt 0.5; pt 0.5; pt 0.4; pt middle;
   pt 0.5; pt 0.5; pt 0.4; pt ring;
   pt 0.5; pt 0.5; pt 0.4; pt pinky].

Definition frame (landmarks : list Landmark) : Results :=
  {| multiHandLandmarks := Some [landmarks] |}.

Definition open_hand := hand 0.1 0.2 0.2 0.2 0.2.
Definition one_finger := hand 0.2 0.2 0.45 0.45 0.45.
Definition two_fingers := hand 0.2 0.2 0.2 0.45 0.45.
Definition three_fingers := hand 0.2 0.2 0.2 0.2 0.45.
Definition fist := hand 0.5 0.5 0.5 0.5 0.5.

(** Index up, the other three fingers and the thumb folded. *)
Definition pointing_fist := hand 0.5 0.2 0.5 0.5 0.5.

(** Twenty landmarks only. *)
Definition short_hand : list Landmark := take 20 open_hand.

Definition no_hands : Results := {| multiHandLandmarks := None |}.

(** A stream whose gesture condition is [F, F, T, T, T, F, T]. *)
Definition stream (held : list Landmark) : list Results :=
  [frame open_hand; frame open_hand; frame held; frame held; frame held;
   frame open_hand; frame held].

(** Draws that give every velocity component 0.1, every colour channel 0.5
    and every size 0.4. *)
Definition flat_sample : Fireworks.Sample :=
  {| Fireworks.velocity_of := fun _ => 0.1;
     Fireworks.color_of := fun _ => 0.5;
     Fireworks.size_of := fun _ => 0.4 |}.

(** A scene in which one burst of a single particle is in the live set, as
    it would be had it been pushed on [this.fireworks]. *)
Definition registered_scene : Fireworks.Scene :=
  {| Fireworks.heap :=
       [ {| Fireworks.particles :=
              Some {| Fireworks.position := [0; 0; 0];
                      Fireworks.color := [0.5; 0.5; 0.5];
                      Fireworks.size_attr := [0.4];
                      Fireworks.opacity := 1;
                      Fireworks.geometry_disposed := false;
                      Fireworks.material_disposed := false |};
            Fireworks.velocities := [0.1; 0.1; 0.1];
            Fireworks.age := 0; Fireworks.lifetime := 3.0;
            Fireworks.active := true; Fireworks.layerIndex := 0 |} ];
     Fireworks.arrays := [[0%nat]];
     Fireworks.this_fireworks := 0;
     Fireworks.children := [0%nat];
     Fireworks.timers := [] |}.
End Samples.

(* ===================================================================== *)

(** ** Sample particle systems *)

Module Swarms.
Import PARTICLE_CONFIG Physics.
Local Open Scope R_scope.

(** [n] particles that all have the vector [a]: the flat array
    [a.x, a.y, a.z, a.x, ...]. *)
Fixpoint uniform (a : Vector3) (n : nat) : list R :=
  match n with
  | O => []
  | S n => v_x a :: v_y a :: v_z a :: uniform a n
  end.

(** [COUNT] particles in the same situation, pinch strength 1. *)
Definition swarm (position velocity tree exploded : Vector3)
  : State :=
  {| positions := uniform position COUNT;
     velocities := uniform velocity COUNT;
     targetTree := uniform tree COUNT;
     targetExploded := uniform exploded COUNT;
     isPinching := true;
     pinchStrength := 1 |}.

(** Tree targets at the origin; every particle 63/760 away on the x axis,
    moving away from the target at speed 63/380. *)
Definition orbit : State :=
  swarm (set (63 / 760) 0 0) (set (63 / 380) 0 0)
        vzero (set 30 0 0).

(** Tree targets at the origin; every particle at rest 0.005 away. *)
Definition resting : State :=
  swarm (set 0.005 0 0) vzero
        vzero (set 30 0 0).

(** Tree targets at the origin; every particle at rest at its exploded
    target [(28, 21, 0)], 35 away. *)
Definition far : State :=
  swarm (set 28 21 0) vzero vzero (set 28 21 0).

(** Tree targets at the origin; every particle 0.004 away, drifting away
    from the target at speed 0.0005. *)
Definition drifting : State :=
  swarm (set 0.004 0 0) (set 0.0005 0 0) vzero (set 30 0 0).

(** A random source whose draws are all 0.5: the Brownian increments
    [(Math.random() - 0.5) * brownMotion] are then zero. *)
Definition no_jitter : nat -> R := fun _ => 0.5.

(** Every particle is on the x axis at [sigma * 63/760] from its target at
    the origin, with velocity [sigma * 63/380] along the axis. *)
Definition phase (sigma : R) (s : State) : Prop :=
  well_formed COUNT s /\ pinchStrength s = 1 /\
  targetTree s = uniform vzero COUNT /\
  forall i, (i < COUNT)%nat ->
    position_of s i = set (sigma * (63 / 760)) 0 0 /\
    velocity_of s i = set (sigma * (63 / 380)) 0 0.

(** Every particle is at rest, 0.005 from its target at the origin. *)
Definition at_rest (s : State) : Prop :=
  well_formed COUNT s /\ pinchStrength s = 1 /\
  targetTree s = uniform vzero COUNT /\
  forall i, (i < COUNT)%nat ->
    position_of s i = set 0.005 0 0 /\ velocity_of s i = vzero.
End Swarms.

(** ** Poses: what the classifier reports and what it reads *)

Module Poses.
Import GESTURE_THRESHOLDS JsNum Gesture.
Local Open Scope Q_scope.

(** The gesture descriptor without the landmarks it echoes. *)
Definition flags (fs : FingerState) : nat * nat * bool * bool * bool * bool :=
  (fingersCurled fs, fingersExtended fs, isFist fs, isOneFinger fs,
   isTwoFingers fs, isThreeFingers fs).

(** The landmarks whose height the classifier reads: the five tips and
    the palm base. *)
Definition read_indices : list nat := [4; 8; 12; 16; 20; 9]%nat.

(** Two hands with the same heights at those landmarks. *)
Definition same_heights (lms lms' : list Landmark) : Prop :=
  Forall (fun j => lm_y <$> lms' !! j = lm_y <$> lms !! j) read_indices.

(** Another hand with the same six heights: every landmark moved sideways
    and in depth, the landmarks that are not read turned upside down, and
    one more landmark at the end of the array. *)
Definition displaced (lms : list Landmark) : list Landmark :=
  imap (fun j lm =>
          {| lm_x := lm_x lm + 0.25;
             lm_y := if bool_decide (j ∈ read_indices)
                     then lm_y lm else 1 - lm_y lm;
             lm_z := lm_z lm - 0.5 |}) lms
  ++ [{| lm_x := 0; lm_y := 0; lm_z := 0 |}].
End Poses.

(** ** Streams of frames through the dispatcher *)

Module Streams.
Import Gesture Dispatcher.

(** The refs after a stream of frames. *)
Fixpoint refs_after_stream (frames : list Results) (r : Refs) : Refs :=
  match frames with
  | [] => r
  | f :: rest => refs_after_stream rest (refs_after f r)
  end.

(** How many of the three latches are set. *)
Definition latches_set (r : Refs) : nat :=
  count_true [wasOneFingerRef r; wasTwoFingersRef r; wasThreeFingersRef r].

(** The callbacks [onResults] is allowed to invoke. *)
Definition is_gesture_callback (c : Callback) : bool :=
  match c with
  | onError _ | onStatusChange _ => false
  | _ => true
  end.
End Streams.

(** ** The component: the callbacks [GestureTree] passes to the hook, and
       the [ThreeScene] methods they call *)

Module App.
Import Gesture Dispatcher.
Local Open Scope Q_scope.

(** The values of [COLOR_THEMES], by their keys. *)
Inductive ThemeName := CLASSIC | WINTER | DREAMY.

Definition THEME_NAMES : list ThemeName := [CLASSIC; WINTER; DREAMY].

Inductive Interaction := IDLE | PINCHING.

(** The fields of [ThreeScene] that the callbacks write: [colorTheme],
    [isSnowing] and [snowParticles.visible], [isPinching], [pinchStrength],
    [rotationTarget], and the fireworks state. *)
Record ThreeScene := {
  colorTheme : nat;
  isSnowing : bool;
  snowVisible : bool;
  isPinching : bool;
  pinchStrength : Q;
  rotationTarget : Q * Q;
  fireworks : Fireworks.Scene
}.

(** The field initialisers of the class, [setupSnow]'s
    [snowParticles.visible = false]. *)
Definition new_scene : ThreeScene :=
  {| colorTheme := 0; isSnowing := false; snowVisible := false;
     isPinching := false; pinchStrength := 0; rotationTarget := (0, 0);
     fireworks := Fireworks.initial |}.

(** [updateColorTheme]; the colour buffer it regenerates is not part of
    the state. *)
Definition updateColorTheme (themeIndex : nat) (t : ThreeScene) : ThreeScene :=
  {| colorTheme := themeIndex; isSnowing := isSnowing t;
     snowVisible := snowVisible t; isPinching := isPinching t;
     pinchStrength := pinchStrength t; rotationTarget := rotationTarget t;
     fireworks := fireworks t |}.

(** [toggleSnow] *)
Definition toggleSnow (visible : bool) (t : ThreeScene) : ThreeScene :=
  {| colorTheme := colorTheme t; isSnowing := visible;
     snowVisible := visible; isPinching := isPinching t;
     pinchStrength := pinchStrength t; rotationTarget := rotationTarget t;
     fireworks := fireworks t |}.

(** [updatePinchState] *)
Definition updatePinchState (pinching : bool) (strength : Q) (t : ThreeScene)
  : ThreeScene :=
  {| colorTheme := colorTheme t; isSnowing := isSnowing t;
     snowVisible := snowVisible t; isPinching := pinching;
     pinchStrength := strength; rotationTarget := rotationTarget t;
     fireworks := fireworks t |}.

(** [updateRotationTarget] *)
Definition updateRotationTarget (x y : Q) (t : ThreeScene) : ThreeScene :=
  {| colorTheme := colorTheme t; isSnowing := isSnowing t;
     snowVisible := snowVisible t; isPinching := isPinching t;
     pinchStrength := pinchStrength t; rotationTarget := (x, y);
     fireworks := fireworks t |}.

Definition on_fireworks (f : Fireworks.Scene -> Fireworks.Scene)
    (t : ThreeScene) : ThreeScene :=
  {| colorTheme := colorTheme t; isSnowing := isSnowing t;
     snowVisible := snowVisible t; isPinching := isPinching t;
     pinchStrength := pinchStrength t; rotationTarget := rotationTarget t;
     fireworks := f (fireworks t) |}.

(** [createFireworks]; the theme it passes on only enters the colours,
    which are part of the draws of a timer callback. *)
Definition createFireworks (x y z : Q) : ThreeScene -> ThreeScene :=
  on_fireworks (Fireworks.createFireworks x y z).

(** The React state and the refs of [GestureTree]; [threeSceneRef] is
    [None] while [threeSceneRef.current] is [null]; [snowTimers] counts the
    pending 10-second timers of [onTwoFingersGesture]. *)
Record Component := {
  cameraStatus : Status;
  interactionState : Interaction;
  errorMessage : option string;
  currentTheme : option ThemeName;
  isPinchingRef : bool;
  colorThemeRef : nat;
  isSnowingRef : bool;
  threeSceneRef : option ThreeScene;
  snowTimers : nat
}.

(** The initial values of the states and refs; [scene] is what
    [threeSceneRef.current] holds. *)
Definition new_component (scene : option ThreeScene) : Component :=
  {| cameraStatus := LOADING; interactionState := IDLE; errorMessage := None;
     currentTheme := Some CLASSIC; isPinchingRef := false;
     colorThemeRef := 0; isSnowingRef := false; threeSceneRef := scene;
     snowTimers := 0 |}.

(** [if (threeSceneRef.current) { ... }] *)
Definition with_scene (f : ThreeScene -> ThreeScene) (c : Component)
  : Component :=
  {| cameraStatus := cameraStatus c; interactionState := interactionState c;
     errorMessage := errorMessage c; currentTheme := currentTheme c;
     isPinchingRef := isPinchingRef c; colorThemeRef := colorThemeRef c;
     isSnowingRef := isSnowingRef c;
     threeSceneRef := f <$> threeSceneRef c; snowTimers := snowTimers c |}.

Definition onOneFingerGesture (c : Component) : Component :=
  let oldTheme := colorThemeRef c in
  let newTheme := ((oldTheme + 1) mod 3)%nat in
  with_scene (updateColorTheme newTheme)
    {| cameraStatus := cameraStatus c; interactionState := interactionState c;
       errorMessage := errorMessage c;
       currentTheme := THEME_NAMES !! newTheme;
       isPinchingRef := isPinchingRef c; colorThemeRef := newTheme;
       isSnowingRef := isSnowingRef c; threeSceneRef := threeSceneRef c;
       snowTimers := snowTimers c |}.

Definition onTwoFingersGesture (c : Component) : Component :=
  if negb (isSnowingRef c) then
    with_scene (toggleSnow true)
      {| cameraStatus := cameraStatus c;
         interactionState := interactionState c;
         errorMessage := errorMessage c; currentTheme := currentTheme c;
         isPinchingRef := isPinchingRef c; colorThemeRef := colorThemeRef c;
         isSnowingRef := true; threeSceneRef := threeSceneRef c;
         snowTimers := S (snowTimers c) |}
  else c.

(** The callback of the 10-second timer. *)
Definition snow_timeout (c : Component) : Component :=
  with_scene (toggleSnow false)
    {| cameraStatus := cameraStatus c; interactionState := interactionState c;
       errorMessage := errorMessage c; currentTheme := currentTheme c;
       isPinchingRef := isPinchingRef c; colorThemeRef := colorThemeRef c;
       isSnowingRef := false; threeSceneRef := threeSceneRef c;
       snowTimers := pred (snowTimers c) |}.

Definition onThreeFingersGesture (c : Component) : Component :=
  with_scene (createFireworks 0 0 0) c.

(** The tween [gsap.to(pinchStrengthRef, ...)] animates a ref nothing else
    reads; it is left out. *)
Definition onFistGesture (strength palmX palmY : Q) (c : Component)
  : Component :=
  let cx := palmX in
  let cy := palmY in
  with_scene (fun t => updateRotationTarget ((cx - 0.5) * 2) ((cy - 0.5) * 2)
                         (updatePinchState true strength t))
    {| cameraStatus := cameraStatus c; interactionState := PINCHING;
       errorMessage := errorMessage c; currentTheme := currentTheme c;
       isPinchingRef := true; colorThemeRef := colorThemeRef c;
       isSnowingRef := isSnowingRef c; threeSceneRef := threeSceneRef c;
       snowTimers := snowTimers c |}.

Definition onNoGesture (c : Component) : Component :=
  with_scene (updatePinchState false 0)
    {| cameraStatus := cameraStatus c; interactionState := IDLE;
       errorMessage := errorMessage c; currentTheme := currentTheme c;
       isPinchingRef := false; colorThemeRef := colorThemeRef c;
       isSnowingRef := isSnowingRef c; threeSceneRef := threeSceneRef c;
       snowTimers := snowTimers c |}.

Definition onError (message : string) (c : Component) : Component :=
  {| cameraStatus := ERROR; interactionState := interactionState c;
     errorMessage := Some message; currentTheme := currentTheme c;
     isPinchingRef := isPinchingRef c; colorThemeRef := colorThemeRef c;
     isSnowingRef := isSnowingRef c; threeSceneRef := threeSceneRef c;
     snowTimers := snowTimers c |}.

Definition onStatusChange (status : Status) (c : Component) : Component :=
  {| cameraStatus := status; interactionState := interactionState c;
     errorMessage := errorMessage c; currentTheme := currentTheme c;
     isPinchingRef := isPinchingRef c; colorThemeRef := colorThemeRef c;
     isSnowingRef := isSnowingRef c; threeSceneRef := threeSceneRef c;
     snowTimers := snowTimers c |}.

(** The component's reaction to one callback of the hook. *)
Definition handle (c : Component) (cb : Callback) : Component :=
  match cb with
  | Dispatcher.onOneFingerGesture => onOneFingerGesture c
  | Dispatcher.onTwoFingersGesture => onTwoFingersGesture c
  | Dispatcher.onThreeFingersGesture => onThreeFingersGesture c
  | Dispatcher.onFistGesture strength x y => onFistGesture strength x y c
  | Dispatcher.onNoGesture => onNoGesture c
  | Dispatcher.onError message => onError message c
  | Dispatcher.onStatusChange status => onStatusChange status c
  end.

(** The hook's refs together with the component. *)
Record System := { refs : Refs; component : Component }.

(** One task of the event loop: a landmark frame arrives, the snow timer
    fires, a firework timer fires, or an animation frame runs
    [updateFireworks]. *)
Inductive Event :=
| Landmarks (results : Results)
| SnowTimeout
| FireworkTimeout (k : nat) (smp : Fireworks.Sample)
| AnimationFrame.

Definition step (s : System) (e : Event) : System :=
  match e with
  | Landmarks results =>
      {| refs := refs_after results (refs s);
         component := fold_left handle (calls_of results (refs s))
                                (component s) |}
  | SnowTimeout =>
      {| refs := refs s;
         component := match snowTimers (component s) with
                      | O => component s
                      | S _ => snow_timeout (component s)
                      end |}
  | FireworkTimeout k smp =>
      {| refs := refs s;
         component := with_scene (on_fireworks (Fireworks.fire_timer k smp))
                                 (component s) |}
  | AnimationFrame =>
      {| refs := refs s;
         component := with_scene (on_fireworks Fireworks.updateFireworks)
                                 (component s) |}
  end.

Definition exec (events : list Event) (s : System) : System :=
  fold_left step events s.

Definition start (scene : option ThreeScene) : System :=
  {| refs := Dispatcher.initial; component := new_component scene |}.

(** *** Vocabulary of the properties *)

(** The callbacks the hook invokes along a run, in order; only landmark
    frames reach the hook. *)
Fixpoint callbacks (events : list Event) (r : Refs) : list Callback :=
  match events with
  | [] => []
  | Landmarks results :: rest =>
      calls_of results r ++ callbacks rest (refs_after results r)
  | _ :: rest => callbacks rest r
  end.

(** The pinch state is the same in the component and in the scene, and the
    strength is 0 when idle and 0.75 or 1 when pinching. *)
Definition pinch_consistent (c : Component) : Prop :=
  (interactionState c = PINCHING <-> isPinchingRef c = true) /\
  forall t, threeSceneRef c = Some t ->
    isPinching t = isPinchingRef c /\
    ((isPinching t = false /\ pinchStrength t == 0) \/
     (isPinching t = true /\
      (pinchStrength t == 0.75 \/ pinchStrength t == 1))).

(** The theme index is one of 0, 1, 2; the displayed name and the scene's
    index follow it. *)
Definition theme_consistent (c : Component) : Prop :=
  (colorThemeRef c < 3)%nat /\
  currentTheme c = THEME_NAMES !! colorThemeRef c /\
  forall t, threeSceneRef c = Some t -> colorTheme t = colorThemeRef c.

(** Snow falls exactly while one 10-second timer is pending. *)
Definition snow_consistent (c : Component) : Prop :=
  snowTimers c = (if isSnowingRef c then 1 else 0)%nat /\
  forall t, threeSceneRef c = Some t ->
    isSnowing t = isSnowingRef c /\ snowVisible t = isSnowingRef c.

(** The palm base (landmark 9) of the first hand lies in the image. *)
Definition palm_in_view (e : Event) : Prop :=
  match e with
  | Landmarks results =>
      forall lms rest b,
        multiHandLandmarks results = Some (lms :: rest) ->
        lms !! 9%nat = Some b ->
        0 <= lm_x b /\ lm_x b <= 1 /\ 0 <= lm_y b /\ lm_y b <= 1
  | _ => True
  end.

Definition rotation_in_range (c : Component) : Prop :=
  forall t, threeSceneRef c = Some t ->
    -1 <= fst (rotationTarget t) /\ fst (rotationTarget t) <= 1 /\
    -1 <= snd (rotationTarget t) /\ snd (rotationTarget t) <= 1.

(** Whether the [k]-th firework timer of the scene is pending. *)
Definition timer_pending (k : nat) (c : Component) : bool :=
  match threeSceneRef c with
  | Some t => match Fireworks.timers (fireworks t) !! k with
              | Some _ => true
              | None => false
              end
  | None => false
  end.

(** How many firework timers fire along a run. *)
Fixpoint timers_fired (events : list Event) (s : System) : nat :=
  match events with
  | [] => 0
  | e :: rest =>
      (match e with
       | FireworkTimeout k _ =>
           if timer_pending k (component s) then 1 else 0
       | _ => 0
       end + timers_fired rest (step s e))%nat
  end.

(** The scene exists and shows no firework. *)
Definition no_fireworks (c : Component) : Prop :=
  exists t, threeSceneRef c = Some t /\ Fireworks.dark (fireworks t).

(** Bursts created and timers still pending. *)
Definition bursts_and_timers (c : Component) : nat :=
  match threeSceneRef c with
  | Some t => length (Fireworks.heap (fireworks t))
              + length (Fireworks.timers (fireworks t))
  | None => 0
  end.
End App.

(** ** Sample runs of the component *)

Module Scenarios.
Import Dispatcher App Samples.

(** A session at the camera: a finger raised and lowered, a fist, two
    fingers, three fingers, with a frame, a firework timer and the snow
    timer in between. *)
Definition session : list Event :=
  (Landmarks <$> stream one_finger)
  ++ [Landmarks (frame fist); AnimationFrame; Landmarks (frame two_fingers);
      Landmarks (frame three_fingers); FireworkTimeout 0 flat_sample;
      SnowTimeout; Landmarks no_hands].

Definition fist_session : list Event :=
  [Landmarks (frame fist); AnimationFrame; Landmarks no_hands].

Definition mounted : System := start (Some new_scene).
End Scenarios.

(** ** Fireworks: the per-particle loop and the shape of the buffers *)

Module Bursts.
Import FIREWORKS_CONFIG JsNum Fireworks.
Local Open Scope Q_scope.

(** The body of the per-particle loop of [updateFireworks] (the function
    folded by [integrate]). *)
Definition particle_step (age lifetime : Q)
    (acc : list Q * list Q * list Q) (j : nat) : list Q * list Q * list Q :=
  let '(positions, velocities, colors) := acc in
  let j3 := (j * 3)%nat in
  let positions := add_at positions j3 (rd velocities j3) in
  let positions := add_at positions (j3 + 1) (rd velocities (j3 + 1)) in
  let positions := add_at positions (j3 + 2) (rd velocities (j3 + 2)) in
  let velocities := add_at velocities (j3 + 1) (- GRAVITY) in
  let velocities := mul_at velocities j3 AIR_RESISTANCE in
  let velocities := mul_at velocities (j3 + 1) AIR_RESISTANCE in
  let velocities := mul_at velocities (j3 + 2) AIR_RESISTANCE in
  let ageFactor := age / lifetime in
  let colors :=
    if gtb ageFactor 0.5 then
      let whiteMix := (ageFactor - 0.5) * 0.6 in
      let colors := wr colors j3 (rd colors j3 * (1 - whiteMix) + whiteMix) in
      let colors :=
        wr colors (j3 + 1) (rd colors (j3 + 1) * (1 - whiteMix) + whiteMix) in
      wr colors (j3 + 2) (rd colors (j3 + 2) * (1 - whiteMix) + whiteMix)
    else colors in
  (positions, velocities, colors).

(** What one frame does to the entry at index [m] of the velocity buffer:
    gravity on the [y] components (index 1 modulo 3), then drag. *)
Definition next_fw_velocity (m : nat) (v : Q) : Q :=
  if (m mod 3 =? 1)%nat then (v + - GRAVITY) * AIR_RESISTANCE
  else v * AIR_RESISTANCE.

(** ... and to a colour channel: past half of the lifetime it is mixed
    with white. *)
Definition next_color (age lifetime c : Q) : Q :=
  if gtb (age / lifetime) 0.5
  then c * (1 - (age / lifetime - 0.5) * 0.6) + (age / lifetime - 0.5) * 0.6
  else c.

(** The opacity [integrate] sets. *)
Definition next_opacity (age lifetime : Q) : Q :=
  if ltb (age / lifetime) 0.7 then 1.0
  else 1 - (age / lifetime - 0.7) / 0.3.

(** A burst whose buffers hold [n] particles: three entries per particle
    in the position, velocity and colour buffers, one in the size
    buffer. *)
Definition holds (n : nat) (fw : Firework) : Prop :=
  exists p, particles fw = Some p /\
            length (position p) = (n * 3)%nat /\
            length (velocities fw) = (n * 3)%nat /\
            length (color p) = (n * 3)%nat /\
            length (size_attr p) = n.

Definition well_shaped (s : Scene) : Prop :=
  forall o fw, heap s !! o = Some fw -> exists n, holds n fw.
End Bursts.

(** ** Sample fireworks scenes *)

Module Scenes.
Import Fireworks Samples.
Local Open Scope Q_scope.

(** Frames, a three-finger gesture and a timer, on the scene with one
    registered burst. *)
Definition mixed_tasks : list Task :=
  [Frame; ThreeFingers; Timeout 0 flat_sample; Frame].

End Scenes.

(** ** Ranges of the generated coordinates *)

Module Boxes.
Import PARTICLE_CONFIG Physics Shapes.
Local Open Scope R_scope.

(** Every entry of the array is in [[lo, hi]].  The ranges are closed: a
    value just below the upper end is stored as the upper end itself once
    rounded to single precision. *)
Definition entries_in (lo hi : R) (a : list R) : Prop :=
  Forall (fun x => lo <= x <= hi) a.

(** Particle [i] of the flat array lies in the box that bounds the tree:
    10.3 around the axis, heights from -16.8 to 12.8. *)
Definition in_tree_box (a : list R) (i : nat) : Prop :=
  -10.3 <= rd a (i * 3) <= 10.3 /\
  -16.8 <= rd a (i * 3 + 1) <= 12.8 /\
  -10.3 <= rd a (i * 3 + 2) <= 10.3.

(** Draws as [Math.random] returns them. *)
Definition unit_draws (random : nat -> R) : Prop :=
  forall j, 0 <= random j < 1.
End Boxes.

(** ** Snow: [ThreeScene.setupSnow] and the snow loop of [update] *)

Module SNOW_CONFIG.
Definition COUNT : nat := 1000.
End SNOW_CONFIG.

Module Snow.
Import Physics Shapes.
Local Open Scope R_scope.
Local Open Scope gen_scope.

(** The position buffer [setupSnow] fills. *)
Definition setupSnow : Gen (list R) :=
  let snowPositions := Float32Array (SNOW_CONFIG.COUNT * 3) in
  for_upto SNOW_CONFIG.COUNT
    (fun i snowPositions =>
       let* r1 := Math_random in
       let snowPositions := Shapes.wr snowPositions (i * 3) ((r1 - 0.5) * 60) in
       let* r2 := Math_random in
       let snowPositions :=
         Shapes.wr snowPositions (i * 3 + 1) (r2 * 40 + 10) in
       let* r3 := Math_random in
       let snowPositions :=
         Shapes.wr snowPositions (i * 3 + 2) ((r3 - 0.5) * 60) in
       ret snowPositions)
    snowPositions.

(** The body of the snow loop for flake [i] at scene time [time]. *)
Definition fall (time : R) (i : nat) (snowPos : list R) : Gen (list R) :=
  let i3 := (i * 3)%nat in
  let snowPos :=
    Shapes.wr snowPos (i3 + 1)
              (rd snowPos (i3 + 1) - (0.05 + sin (time + INR i) * 0.02)) in
  let snowPos :=
    Shapes.wr snowPos i3 (rd snowPos i3 + sin (time * 0.5 + INR i) * 0.02) in
  if Rlt_dec (rd snowPos (i3 + 1)) (-15) then
    let snowPos := Shapes.wr snowPos (i3 + 1) 40 in
    let* r1 := Math_random in
    let snowPos := Shapes.wr snowPos i3 ((r1 - 0.5) * 60) in
    let* r2 := Math_random in
    let snowPos := Shapes.wr snowPos (i3 + 2) ((r2 - 0.5) * 60) in
    ret snowPos
  else ret snowPos.

(** The snow part of [update]: nothing while the snow is hidden. *)
Definition update_snow (visible : bool) (time : R) (snowPos : list R)
  : Gen (list R) :=
  if visible then for_upto SNOW_CONFIG.COUNT (fall time) snowPos
  else ret snowPos.

(** [n] frames in a row at the times [time + 0.016], [time + 0.032], ...
    ([animate] calls [update(0.016)], which advances [this.time] first). *)
Fixpoint snowfall (visible : bool) (time : R) (n : nat) (snowPos : list R)
  : Gen (list R) :=
  match n with
  | O => ret snowPos
  | S n =>
      let* snowPos := update_snow visible (time + 0.016) snowPos in
      snowfall visible (time + 0.016) n snowPos
  end.

(** *** Vocabulary of the properties *)

(** Flake [i] is between the heights -15 and 50, and within 30 of the
    centre in depth, the ends included (a height drawn just below 50 is
    stored as 50 once rounded to single precision). *)
Definition flake_in_range (a : list R) (i : nat) : Prop :=
  -15 <= rd a (i * 3 + 1) <= 50 /\ -30 <= rd a (i * 3 + 2) <= 30.

Definition snow_in_range (a : list R) : Prop :=
  length a = (SNOW_CONFIG.COUNT * 3)%nat /\ forall i, flake_in_range a i.
End Snow.

(** ** The hook's start-up: [initCamera] *)

Module Camera.
Import Dispatcher.
Local Open Scope string_scope.

(** What the surroundings do while [initCamera] runs: whether the
    MediaPipe scripts are there ([window.Hands] and a camera class) after
    [k] waits of 50 ms; whether the component is still mounted when the
    polling ends, and when [start()] settles or the camera fails; whether
    [videoRef.current] is set; whether constructing and starting the camera
    succeeds.  The calls on the [Hands] instance are taken to succeed. *)
Record Env := {
  loaded : nat -> bool;
  mounted_after_wait : bool;
  video : bool;
  started : bool;
  mounted_after_start : bool
}.

Definition LOAD_ERROR : string :=
  "MediaPipe failed to load. Please check connection and refresh.".
Definition CAMERA_ERROR : string :=
  "Camera access denied. Please allow camera permissions.".

(** The [while] loop: [fuel] is what is left of the 100 attempts. *)
Fixpoint poll (env : Env) (fuel attempts : nat) : nat :=
  match fuel with
  | O => attempts
  | S fuel =>
      if negb (loaded env attempts) then poll env fuel (S attempts)
      else attempts
  end.

(** [initCamera]: the number of waits and the callbacks invoked. *)
Definition initCamera (env : Env) : nat * list Callback :=
  let attempts := poll env 100 0 in
  if negb (mounted_after_wait env) then (attempts, []) else
  if negb (loaded env attempts) then
    (attempts, [onError LOAD_ERROR; onStatusChange ERROR])
  else if video env then
    if started env then
      (attempts,
       if mounted_after_start env then [onStatusChange ACTIVE] else [])
    else
      (attempts,
       if mounted_after_start env
       then [onStatusChange ERROR; onError CAMERA_ERROR] else [])
  else (attempts, []).
End Camera.

(** * Part II.  Properties                                                *)
(* ===================================================================== *)

(** ** The classifier *)

Module GestureFacts.
Import GESTURE_THRESHOLDS JsNum Gesture.
Local Open Scope Q_scope.

Lemma ltb_true (a b : Q) : ltb a b = true <-> a < b.
Proof.
  unfold ltb. rewrite negb_true_iff, <- not_true_iff_false, Qle_bool_iff.
  split; [apply Qnot_le_lt | apply Qlt_not_le].
Qed.

Lemma ltb_false (a b : Q) : ltb a b = false <-> b <= a.
Proof.
  unfold ltb. rewrite negb_false_iff. apply Qle_bool_iff.
Qed.

Lemma gtb_true (a b : Q) : gtb a b = true <-> b < a.
Proof. apply ltb_true. Qed.

Lemma gtb_false (a b : Q) : gtb a b = false <-> a <= b.
Proof. apply ltb_false. Qed.

(** The classifier gives up exactly on short arrays and on [null]. *)
Lemma calculateFingerStates_short (lms : list Landmark) :
  (length lms < 21)%nat -> calculateFingerStates (Some lms) = None.
Proof.
  intros H. unfold calculateFingerStates.
  destruct (Nat.ltb_spec (length lms) 21); [reflexivity | lia].
Qed.

(** What the classifier returns on an array of at least 21 landmarks, in
    terms of the seven landmarks it reads. *)
Lemma calculateFingerStates_long (lms : list Landmark) :
  (21 <= length lms)%nat ->
  exists w t i m r p b,
    lms !! 0%nat = Some w /\ lms !! 4%nat = Some t /\ lms !! 8%nat = Some i /\
    lms !! 12%nat = Some m /\ lms !! 16%nat = Some r /\
    lms !! 20%nat = Some p /\ lms !! 9%nat = Some b /\
    calculateFingerStates (Some lms) =
    Some {| wrist := w; thumbTip := t; indexTip := i; middleTip := m;
            ringTip := r; pinkyTip := p; palmBase := b;
            fingersCurled :=
              count_true [ltb (ydist i b) INDEX_CURLED;
                          ltb (ydist m b) MIDDLE_CURLED;
                          ltb (ydist r b) RING_CURLED;
                          ltb (ydist p b) PINKY_CURLED];
            fingersExtended :=
              count_true [gtb (ydist i b) INDEX_EXTENDED;
                          gtb (ydist m b) MIDDLE_EXTENDED;
                          gtb (ydist r b) RING_EXTENDED;
                          gtb (ydist p b) PINKY_EXTENDED];
            isFist :=
              (3 <=? count_true [ltb (ydist i b) INDEX_CURLED;
                                 ltb (ydist m b) MIDDLE_CURLED;
                                 ltb (ydist r b) RING_CURLED;
                                 ltb (ydist p b) PINKY_CURLED])%nat
              && ltb (ydist t b) THUMB_CURLED;
            isOneFinger :=
              gtb (ydist i b) INDEX_EXTENDED
              && negb (gtb (ydist m b) MIDDLE_EXTENDED)
              && negb (gtb (ydist r b) RING_EXTENDED)
              && negb (gtb (ydist p b) PINKY_EXTENDED);
            isTwoFingers :=
              gtb (ydist i b) INDEX_EXTENDED
              && gtb (ydist m b) MIDDLE_EXTENDED
              && negb (gtb (ydist r b) RING_EXTENDED)
              && negb (gtb (ydist p b) PINKY_EXTENDED);
            isThreeFingers :=
              gtb (ydist i b) INDEX_EXTENDED
              && gtb (ydist m b) MIDDLE_EXTENDED
              && gtb (ydist r b) RING_EXTENDED
              && negb (gtb (ydist p b) PINKY_EXTENDED) |}.
Proof.
  intros Hlen.
  assert (Hget : forall k, (k < 21)%nat -> is_Some (lms !! k)).
  { intros k Hk. apply lookup_lt_is_Some. lia. }
  destruct (Hget 0%nat) as [w Hw]; [lia|].
  destruct (Hget 4%nat) as [t Ht]; [lia|].
  destruct (Hget 8%nat) as [i Hi]; [lia|].
  destruct (Hget 12%nat) as [m Hm]; [lia|].
  destruct (Hget 16%nat) as [r Hr]; [lia|].
  destruct (Hget 20%nat) as [p Hp]; [lia|].
  destruct (Hget 9%nat) as [b Hb]; [lia|].
  exists w, t, i, m, r, p, b. repeat (split; [assumption|]).
  unfold calculateFingerStates.
  destruct (Nat.ltb_spec (length lms) 21); [lia|].
  rewrite Hw, Ht, Hi, Hm, Hr, Hp, Hb. reflexivity.
Qed.

Lemma calculateFingerStates_None (lms : list Landmark) :
  calculateFingerStates (Some lms) = None <-> (length lms < 21)%nat.
Proof.
  split; [|apply calculateFingerStates_short].
  intros H. destruct (Nat.lt_ge_cases (length lms) 21) as [|Hge]; [assumption|].
  destruct (calculateFingerStates_long lms Hge)
    as (w & t & i & m & r & p & b & _ & _ & _ & _ & _ & _ & _ & E).
  congruence.
Qed.

(** [fingersCurled] counts four flags. *)
Lemma count_true_le (bs : list bool) : (count_true bs <= length bs)%nat.
Proof. unfold count_true. apply List.filter_length_le. Qed.

Lemma fingersCurled_le_4 (lms : list Landmark) (fs : FingerState) :
  calculateFingerStates (Some lms) = Some fs -> (fingersCurled fs <= 4)%nat.
Proof.
  intros E.
  destruct (Nat.lt_ge_cases (length lms) 21) as [Hlt|Hge].
  - rewrite (calculateFingerStates_short lms Hlt) in E. discriminate.
  - destruct (calculateFingerStates_long lms Hge)
      as (w & t & i & m & r & p & b & _ & _ & _ & _ & _ & _ & _ & E').
    rewrite E' in E. injection E as <-. cbn [fingersCurled].
    apply (count_true_le [_; _; _; _]).
Qed.

Lemma isFist_fingersCurled (lms : list Landmark) (fs : FingerState) :
  calculateFingerStates (Some lms) = Some fs ->
  isFist fs = true -> (3 <= fingersCurled fs)%nat.
Proof.
  intros E.
  destruct (Nat.lt_ge_cases (length lms) 21) as [Hlt|Hge].
  - rewrite (calculateFingerStates_short lms Hlt) in E. discriminate.
  - destruct (calculateFingerStates_long lms Hge)
      as (w & t & i & m & r & p & b & _ & _ & _ & _ & _ & _ & _ & E').
    rewrite E' in E. injection E as <-. cbn [isFist fingersCurled].
    rewrite andb_true_iff. intros [H _]. exact (proj1 (Nat.leb_le 3 _) H).
Qed.
End GestureFacts.

(** ** The dispatcher *)

Module DispatcherFacts.
Import JsNum Gesture GestureFacts Dispatcher.
Local Open Scope Q_scope.

Lemma classify_no_hand (results : Results) :
  no_hand results -> classify results = None.
Proof. unfold classify. intros [-> | ->]; reflexivity. Qed.

Lemma classify_malformed (results : Results) :
  malformed results -> classify results = None.
Proof.
  intros (lms & rest & E & Hlen). unfold classify. rewrite E.
  apply calculateFingerStates_short, Hlen.
Qed.

(** A frame is not classified exactly when it shows no hand or a short
    first hand. *)
Lemma classify_None (results : Results) :
  classify results = None <-> no_hand results \/ malformed results.
Proof.
  split.
  - unfold classify, no_hand, malformed.
    destruct (multiHandLandmarks results) as [[|lms rest]|]; auto.
    intros E. right. exists lms, rest. split; [reflexivity|].
    apply calculateFingerStates_None, E.
  - intros [H | H]; [apply classify_no_hand | apply classify_malformed]; exact H.
Qed.

(** On a classified frame, a mounted handler runs [dispatch]. *)
Lemma onResults_classified (results : Results) (r : Refs) (fs : FingerState) :
  isMountedRef r = true -> classify results = Some fs ->
  onResults results r = dispatch fs r.
Proof.
  intros Hm E. unfold onResults, bind, get. cbv beta iota zeta.
  rewrite Hm. cbv beta iota zeta delta [negb].
  unfold classify in E.
  destruct (multiHandLandmarks results) as [[|lms rest]|]; try discriminate.
  rewrite E. destruct (dispatch fs r) as [[u r'] out]. destruct u.
  rewrite app_nil_l. reflexivity.
Qed.

(** An unclassified frame leaves every ref as it was. *)
Lemma onResults_unclassified (results : Results) (r : Refs) :
  classify results = None -> refs_after results r = r.
Proof.
  intros E. unfold refs_after, onResults, bind, get. cbv beta iota zeta.
  destruct (isMountedRef r); cbv beta iota zeta delta [negb]; [|reflexivity].
  unfold classify in E.
  destruct (multiHandLandmarks results) as [[|lms rest]|]; try reflexivity.
  rewrite E. reflexivity.
Qed.

Lemma onResults_no_hand (results : Results) (r : Refs) :
  isMountedRef r = true -> no_hand results ->
  calls_of results r = [onNoGesture].
Proof.
  intros Hm H. unfold calls_of, onResults, bind, get. cbn. rewrite Hm. cbn.
  destruct H as [-> | ->]; reflexivity.
Qed.

Lemma onResults_malformed (results : Results) (r : Refs) :
  malformed results -> calls_of results r = [].
Proof.
  intros (lms & rest & E & Hlen).
  unfold calls_of, onResults, bind, get. cbv beta iota zeta.
  destruct (isMountedRef r); cbv beta iota zeta delta [negb]; [|reflexivity].
  rewrite E, (calculateFingerStates_short lms Hlen). reflexivity.
Qed.

(** One classified frame, as seen by one discrete gesture: the callback
    fires once if the condition holds and the latch was clear, not at all
    otherwise; the latch ends up equal to the condition; the other refs
    of the handler are as [dispatch] leaves them and the mount flag is
    untouched. *)
Lemma dispatch_edge (g : Discrete) (fs : FingerState) (r : Refs) :
  fired g (snd (dispatch fs r))
    = (if condition g fs && negb (latch g r) then 1 else 0)%nat /\
  latch g (snd (fst (dispatch fs r))) = condition g fs /\
  isMountedRef (snd (fst (dispatch fs r))) = isMountedRef r.
Proof.
  destruct fs as [w t i m rg p b fc fe isF is1 is2 is3].
  destruct r as [mt w1 w2 w3].
  destruct g, isF, is1, is2, is3, w1, w2, w3; repeat split; reflexivity.
Qed.

(** The callbacks [dispatch] can invoke. *)
Lemma dispatch_calls (fs : FingerState) (r : Refs) (c : Callback) :
  In c (snd (dispatch fs r)) ->
  c = onOneFingerGesture \/ c = onTwoFingersGesture \/
  c = onThreeFingersGesture \/ c = onNoGesture \/
  (isFist fs = true /\
   c = onFistGesture (of_nat (fingersCurled fs) / 4.0)
                     (lm_x (palmBase fs)) (lm_y (palmBase fs))).
Proof.
  destruct fs as [w t i m rg p b fc fe isF is1 is2 is3].
  destruct r as [mt w1 w2 w3].
  destruct isF, is1, is2, is3, w1, w2, w3; cbn;
    intuition (subst; auto).
Qed.

Lemma dispatch_fist (fs : FingerState) (r : Refs) :
  isFist fs = true ->
  In (onFistGesture (of_nat (fingersCurled fs) / 4.0)
                    (lm_x (palmBase fs)) (lm_y (palmBase fs)))
     (snd (dispatch fs r)).
Proof.
  destruct fs as [w t i m rg p b fc fe isF is1 is2 is3].
  destruct r as [mt w1 w2 w3]. cbn [isFist]. intros ->.
  destruct is1, is2, is3, w1, w2, w3; cbn; auto 6.
Qed.

Lemma refs_after_mounted (results : Results) (r : Refs) :
  isMountedRef (refs_after results r) = isMountedRef r.
Proof.
  destruct (classify results) as [fs|] eqn:E.
  - destruct (isMountedRef r) eqn:Hm.
    + unfold refs_after. rewrite (onResults_classified _ _ _ Hm E).
      rewrite (proj2 (proj2 (dispatch_edge OneFinger fs r))). exact Hm.
    + unfold refs_after, onResults, bind, get. cbn. rewrite Hm. cbn. exact Hm.
  - rewrite onResults_unclassified by exact E. reflexivity.
Qed.
End DispatcherFacts.

(** ** Claims about the classifier *)

Module ClassifierClaims.
Import GESTURE_THRESHOLDS JsNum Gesture GestureFacts Samples.
Local Open Scope Q_scope.

Lemma count_three_of_four (a b c : bool) :
  (3 <=? count_true [false; a; b; c])%nat = a && b && c.
Proof. destruct a, b, c; reflexivity. Qed.

(** Against claim C6 as stated: a hand with the index tip 0.3 above the
    palm base and middle, ring and pinky tips at palm height, whose thumb
    tip is at palm height too, is classified [isOneFinger] and [isFist]
    at once. *)
Lemma pointing_fist_is_fist :
  exists fs,
    length pointing_fist = 21%nat /\
    calculateFingerStates (Some pointing_fist) = Some fs /\
    INDEX_EXTENDED < ydist (indexTip fs) (palmBase fs) /\
    ydist (middleTip fs) (palmBase fs) < MIDDLE_EXTENDED /\
    ydist (ringTip fs) (palmBase fs) < RING_EXTENDED /\
    ydist (pinkyTip fs) (palmBase fs) < PINKY_EXTENDED /\
    isOneFinger fs = true /\ isFist fs = true.
Proof.
  eexists. split; [reflexivity|]. split; [vm_compute; reflexivity|].
  cbn [indexTip middleTip ringTip pinkyTip palmBase isOneFinger isFist].
  repeat split; reflexivity.
Qed.

(** Claim C6, amended: on at least 21 landmarks with the index tip
    farther than [INDEX_EXTENDED] from palm height and the middle, ring
    and pinky tips nearer than their [EXTENDED] thresholds, the classifier
    answers [isOneFinger = true], [isTwoFingers = false] and
    [isThreeFingers = false]; [isFist] is true exactly when middle, ring
    and pinky are nearer than their [CURLED] thresholds and the thumb tip
    nearer than [THUMB_CURLED]. *)
Theorem one_finger_classification (lms : list Landmark)
    (thumb index middle ring pinky palm : Landmark) :
  (21 <= length lms)%nat ->
  lms !! 4%nat = Some thumb -> lms !! 8%nat = Some index ->
  lms !! 12%nat = Some middle -> lms !! 16%nat = Some ring ->
  lms !! 20%nat = Some pinky -> lms !! 9%nat = Some palm ->
  INDEX_EXTENDED < ydist index palm ->
  ydist middle palm < MIDDLE_EXTENDED ->
  ydist ring palm < RING_EXTENDED ->
  ydist pinky palm < PINKY_EXTENDED ->
  exists fs,
    calculateFingerStates (Some lms) = Some fs /\
    isOneFinger fs = true /\ isTwoFingers fs = false /\
    isThreeFingers fs = false /\
    (isFist fs = true <->
     ydist middle palm < MIDDLE_CURLED /\ ydist ring palm < RING_CURLED /\
     ydist pinky palm < PINKY_CURLED /\ ydist thumb palm < THUMB_CURLED).
Proof.
  intros Hlen Ht Hi Hm Hr Hp Hb Hidx Hmid Hring Hpinky.
  destruct (calculateFingerStates_long lms Hlen)
    as (w & t' & i' & m' & r' & p' & b' & _ & Ht' & Hi' & Hm' & Hr' & Hp' & Hb' & E).
  rewrite Ht in Ht'; rewrite Hi in Hi'; rewrite Hm in Hm';
    rewrite Hr in Hr'; rewrite Hp in Hp'; rewrite Hb in Hb'.
  injection Ht' as <-; injection Hi' as <-; injection Hm' as <-;
    injection Hr' as <-; injection Hp' as <-; injection Hb' as <-.
  eexists. split; [exact E|].
  cbn [isOneFinger isTwoFingers isThreeFingers isFist].
  assert (Ei : gtb (ydist index palm) INDEX_EXTENDED = true)
    by (apply gtb_true; exact Hidx).
  assert (Em : gtb (ydist middle palm) MIDDLE_EXTENDED = false)
    by (apply gtb_false, Qlt_le_weak; exact Hmid).
  assert (Er : gtb (ydist ring palm) RING_EXTENDED = false)
    by (apply gtb_false, Qlt_le_weak; exact Hring).
  assert (Ep : gtb (ydist pinky palm) PINKY_EXTENDED = false)
    by (apply gtb_false, Qlt_le_weak; exact Hpinky).
  assert (Ec : ltb (ydist index palm) INDEX_CURLED = false).
  { apply ltb_false. apply Qlt_le_weak.
    apply Qlt_trans with INDEX_EXTENDED; [reflexivity | exact Hidx]. }
  rewrite Ei, Em, Er, Ep, Ec. repeat (split; [reflexivity|]).
  rewrite count_three_of_four, !andb_true_iff, !ltb_true. tauto.
Qed.

Lemma one_finger_classification_witness :
  exists fs,
    calculateFingerStates (Some one_finger) = Some fs /\
    isOneFinger fs = true /\ isTwoFingers fs = false /\
    isThreeFingers fs = false /\
    (isFist fs = true <->
     ydist (pt 0.45) (pt 0.5) < MIDDLE_CURLED /\
     ydist (pt 0.45) (pt 0.5) < RING_CURLED /\
     ydist (pt 0.45) (pt 0.5) < PINKY_CURLED /\
     ydist (pt 0.2) (pt 0.5) < THUMB_CURLED).
Proof.
  apply (one_finger_classification one_finger (pt 0.2) (pt 0.2) (pt 0.45) (pt 0.45)
                       (pt 0.45) (pt 0.5));
    first [reflexivity | (cbn; lia)].
Defined.
End ClassifierClaims.

(** ** Claims about the dispatcher *)

Module DispatcherClaims.
Import JsNum Gesture GestureFacts Dispatcher DispatcherFacts Samples.
Local Open Scope Q_scope.

(** Against claim C2 as stated: a frame whose only hand has 20 landmarks
    reaches a mounted handler and no callback is invoked, [onNoGesture]
    included. *)
Lemma short_frame_is_dropped :
  malformed (frame short_hand) /\ isMountedRef initial = true /\
  calls_of (frame short_hand) initial = [] /\
  ~ In onNoGesture (calls_of (frame short_hand) initial).
Proof.
  split; [|split; [reflexivity|split; [reflexivity|]]].
  - exists short_hand, []. split; [reflexivity | cbn; lia].
  - intros [].
Qed.

(** Claim C2, amended: a mounted handler answers a frame without a hand
    by invoking [onNoGesture] and nothing else; it drops a frame whose
    first hand has fewer than 21 landmarks, invoking no callback; either
    way the refs are unchanged, and no frame whatever makes the handler
    invoke [onError]. *)
Theorem absent_or_short_frame (results : Results) (r : Refs) :
  isMountedRef r = true ->
  (no_hand results ->
   calls_of results r = [onNoGesture] /\ refs_after results r = r) /\
  (malformed results ->
   calls_of results r = [] /\ refs_after results r = r) /\
  (forall message, ~ In (onError message) (calls_of results r)).
Proof.
  intros Hm. split; [|split].
  - intros H. split; [apply onResults_no_hand; assumption|].
    apply onResults_unclassified, classify_no_hand, H.
  - intros H. split; [apply onResults_malformed; assumption|].
    apply onResults_unclassified, classify_malformed, H.
  - intros message Hin.
    destruct (classify results) as [fs|] eqn:E.
    + unfold calls_of in Hin. rewrite (onResults_classified _ _ _ Hm E) in Hin.
      apply dispatch_calls in Hin.
      destruct Hin as [H|[H|[H|[H|[_ H]]]]]; discriminate H.
    + apply classify_None in E. destruct E as [E|E].
      * rewrite (onResults_no_hand _ _ Hm E) in Hin.
        destruct Hin as [H|[]]. discriminate H.
      * rewrite (onResults_malformed _ r E) in Hin. destruct Hin.
Qed.

Lemma absent_or_short_frame_witness :
  isMountedRef initial = true /\
  (no_hand no_hands ->
   calls_of no_hands initial = [onNoGesture] /\
   refs_after no_hands initial = initial) /\
  (malformed (frame short_hand) ->
   calls_of (frame short_hand) initial = [] /\
   refs_after (frame short_hand) initial = initial).
Proof.
  split; [reflexivity|]. split.
  - apply (absent_or_short_frame no_hands initial). reflexivity.
  - apply (absent_or_short_frame (frame short_hand) initial). reflexivity.
Defined.

(** Claim C8: when the classifier reports [isFist] for a frame (which
    only a mounted handler asks it), the handler invokes [onFistGesture]
    with strength [fingersCurled / 4.0] and the palm base coordinates, and
    every [onFistGesture] it invokes for that frame carries that strength,
    which lies between 0.75 and 1.0. *)
Theorem fist_strength (results : Results) (r : Refs) (fs : FingerState) :
  isMountedRef r = true -> classify results = Some fs -> isFist fs = true ->
  In (onFistGesture (of_nat (fingersCurled fs) / 4.0)
                    (lm_x (palmBase fs)) (lm_y (palmBase fs)))
     (calls_of results r) /\
  (forall strength x y,
      In (onFistGesture strength x y) (calls_of results r) ->
      strength = of_nat (fingersCurled fs) / 4.0 /\
      0.75 <= strength /\ strength <= 1.0).
Proof.
  intros Hm E Hf. unfold calls_of. rewrite (onResults_classified _ _ _ Hm E).
  split; [apply dispatch_fist, Hf|].
  intros strength x y Hin. apply dispatch_calls in Hin.
  destruct Hin as [H|[H|[H|[H|[_ H]]]]]; try discriminate H.
  injection H as -> _ _. split; [reflexivity|].
  assert (H3 : (3 <= fingersCurled fs)%nat).
  { unfold classify in E.
    destruct (multiHandLandmarks results) as [[|lms rest]|]; try discriminate.
    eapply isFist_fingersCurled; eassumption. }
  assert (H4 : (fingersCurled fs <= 4)%nat).
  { unfold classify in E.
    destruct (multiHandLandmarks results) as [[|lms rest]|]; try discriminate.
    eapply fingersCurled_le_4; eassumption. }
  assert (Hc : fingersCurled fs = 3%nat \/ fingersCurled fs = 4%nat) by lia.
  destruct Hc as [-> | ->]; split; vm_compute; discriminate.
Qed.

Lemma fist_strength_witness :
  exists fs,
    isMountedRef initial = true /\ classify (frame fist) = Some fs /\
    isFist fs = true /\ fingersCurled fs = 4%nat /\
    In (onFistGesture (of_nat (fingersCurled fs) / 4.0)
                      (lm_x (palmBase fs)) (lm_y (palmBase fs)))
       (calls_of (frame fist) initial).
Proof.
  eexists. split; [reflexivity|]. split; [vm_compute; reflexivity|].
  split; [reflexivity|]. split; [reflexivity|].
  apply (fist_strength (frame fist) initial);
    [reflexivity | vm_compute; reflexivity | reflexivity].
Defined.
End DispatcherClaims.

Module LatchClaims.
Import JsNum Gesture GestureFacts Dispatcher DispatcherFacts Samples.
Local Open Scope Q_scope.

Lemma frame_edge (g : Discrete) (results : Results) (r : Refs) (fs : FingerState) :
  isMountedRef r = true -> classify results = Some fs ->
  fired g (calls_of results r)
    = (if condition g fs && negb (latch g r) then 1 else 0)%nat /\
  latch g (refs_after results r) = condition g fs.
Proof.
  intros Hm E. unfold calls_of, refs_after.
  rewrite (onResults_classified _ _ _ Hm E).
  destruct (dispatch_edge g fs r) as (H1 & H2 & _). split; assumption.
Qed.

Lemma stream_edges (g : Discrete) (frames : list Results) :
  forall r : Refs,
    isMountedRef r = true ->
    Forall (fun f => is_Some (classify f)) frames ->
    map (fired g) (run frames r) = rising_edges (latch g r) (signal g frames).
Proof.
  induction frames as [|f rest IH]; intros r Hm Hall; [reflexivity|].
  inversion Hall as [|f' rest' [fs E] Hrest]; subst.
  destruct (frame_edge g f r fs Hm E) as [Hfire Hlatch].
  cbn [run map signal rising_edges]. rewrite E.
  rewrite Hfire. f_equal.
  rewrite IH; [|rewrite refs_after_mounted; exact Hm | exact Hrest].
  rewrite Hlatch. reflexivity.
Qed.

(** Claim C5 (a frame is classified only by a mounted handler): for each
    discrete gesture, on a classified frame the one-shot callback is
    invoked once if the condition holds and the latch was clear and not at
    all otherwise, and the latch then equals the condition (set while it
    holds, cleared by the first frame where it fails); hence along any
    stream of classified frames the callback fires exactly on the rising
    edges of the condition, and for the condition sequence
    [F,F,T,T,T,F,T] from the initial refs it fires twice, at indices 2
    and 6. *)
Theorem one_shot_on_rising_edges (g : Discrete) :
  (forall (results : Results) (r : Refs) (fs : FingerState),
      isMountedRef r = true -> classify results = Some fs ->
      fired g (calls_of results r)
        = (if condition g fs && negb (latch g r) then 1 else 0)%nat /\
      latch g (refs_after results r) = condition g fs) /\
  (forall (frames : list Results) (r : Refs),
      isMountedRef r = true ->
      Forall (fun f => is_Some (classify f)) frames ->
      map (fired g) (run frames r)
        = rising_edges (latch g r) (signal g frames)) /\
  (forall frames : list Results,
      Forall (fun f => is_Some (classify f)) frames ->
      signal g frames = [false; false; true; true; true; false; true] ->
      map (fired g) (run frames initial) = [0; 0; 1; 0; 0; 0; 1]%nat).
Proof.
  split; [|split].
  - intros results r fs. apply frame_edge.
  - intros frames r. apply stream_edges.
  - intros frames Hall Hsig.
    rewrite (stream_edges g frames initial eq_refl Hall), Hsig.
    destruct g; reflexivity.
Qed.

Lemma stream_classified (held : list Landmark) :
  (21 <= length held)%nat ->
  Forall (fun f => is_Some (classify f)) (stream held).
Proof.
  intros Hlen.
  assert (Ho : is_Some (classify (frame open_hand)))
    by (vm_compute; eexists; reflexivity).
  assert (Hh : is_Some (classify (frame held))).
  { unfold classify, frame. cbn [multiHandLandmarks].
    destruct (calculateFingerStates_long held Hlen)
      as (w & t & i & m & r & p & b & _ & _ & _ & _ & _ & _ & _ & E).
    rewrite E. eexists; reflexivity. }
  unfold stream. repeat constructor; assumption.
Qed.

Lemma one_shot_on_rising_edges_witness :
  (Forall (fun f => is_Some (classify f)) (stream one_finger) /\
   signal OneFinger (stream one_finger)
     = [false; false; true; true; true; false; true] /\
   map (fired OneFinger) (run (stream one_finger) initial)
     = [0; 0; 1; 0; 0; 0; 1]%nat) /\
  (signal TwoFingers (stream two_fingers)
     = [false; false; true; true; true; false; true] /\
   map (fired TwoFingers) (run (stream two_fingers) initial)
     = [0; 0; 1; 0; 0; 0; 1]%nat) /\
  (signal ThreeFingers (stream three_fingers)
     = [false; false; true; true; true; false; true] /\
   map (fired ThreeFingers) (run (stream three_fingers) initial)
     = [0; 0; 1; 0; 0; 0; 1]%nat).
Proof.
  split; [|split].
  - split; [apply stream_classified; cbn; lia|].
    split; [vm_compute; reflexivity|].
    apply (proj2 (proj2 (one_shot_on_rising_edges OneFinger)));
      [apply stream_classified; cbn; lia | vm_compute; reflexivity].
  - split; [vm_compute; reflexivity|].
    apply (proj2 (proj2 (one_shot_on_rising_edges TwoFingers)));
      [apply stream_classified; cbn; lia | vm_compute; reflexivity].
  - split; [vm_compute; reflexivity|].
    apply (proj2 (proj2 (one_shot_on_rising_edges ThreeFingers)));
      [apply stream_classified; cbn; lia | vm_compute; reflexivity].
Defined.

(** Claim C10: a frame without a hand or with a short landmark array
    leaves each of the three latches as it was; so when a gesture holds
    on a classified frame, an unclassified frame follows, and the gesture
    holds again on the next classified frame, its one-shot callback fires
    neither on the unclassified frame nor on the frame after it. *)
Theorem latch_survives_unclassified_frame
    (g : Discrete) (r : Refs) (held1 gap held2 : Results)
    (fs1 fs2 : FingerState) :
  isMountedRef r = true ->
  classify held1 = Some fs1 -> condition g fs1 = true ->
  no_hand gap \/ malformed gap ->
  classify held2 = Some fs2 -> condition g fs2 = true ->
  (forall (g' : Discrete) (r0 : Refs),
      latch g' (refs_after gap r0) = latch g' r0) /\
  exists c1 c2 c3,
    run [held1; gap; held2] r = [c1; c2; c3] /\
    fired g c2 = 0%nat /\ fired g c3 = 0%nat.
Proof.
  intros Hm E1 H1 Hgap E2 H2.
  assert (Egap : classify gap = None) by (apply classify_None; exact Hgap).
  split.
  { intros g' r0. rewrite (onResults_unclassified gap r0 Egap). reflexivity. }
  cbn [run]. do 3 eexists. split; [reflexivity|].
  destruct (frame_edge g held1 r fs1 Hm E1) as [_ Hl1].
  rewrite H1 in Hl1.
  assert (Hm1 : isMountedRef (refs_after held1 r) = true)
    by (rewrite refs_after_mounted; exact Hm).
  split.
  - destruct Hgap as [Hno | Hbad].
    + rewrite (onResults_no_hand _ _ Hm1 Hno). destruct g; reflexivity.
    + rewrite (onResults_malformed _ _ Hbad). reflexivity.
  - rewrite (onResults_unclassified gap _ Egap).
    destruct (frame_edge g held2 _ fs2 Hm1 E2) as [Hf _].
    rewrite Hf, H2, Hl1. reflexivity.
Qed.

Lemma latch_survives_unclassified_frame_witness :
  exists c1 c2 c3,
    run [frame three_fingers; no_hands; frame three_fingers] initial
      = [c1; c2; c3] /\
    fired ThreeFingers c2 = 0%nat /\ fired ThreeFingers c3 = 0%nat.
Proof.
  refine (proj2 (latch_survives_unclassified_frame ThreeFingers initial
                   (frame three_fingers) no_hands (frame three_fingers)
                   _ _ eq_refl _ _ (or_introl (or_introl eq_refl)) _ _)).
  - vm_compute; reflexivity.
  - reflexivity.
  - vm_compute; reflexivity.
  - reflexivity.
Defined.
End LatchClaims.

(** ** Fireworks: what every reachable scene satisfies *)

Module FireworksFacts.
Import FIREWORKS_CONFIG JsNum Fireworks.
Local Open Scope Q_scope.

Lemma dark_initial : dark initial.
Proof. split; cbn; [lia | reflexivity | reflexivity | reflexivity]. Qed.

Lemma array_of_push_eq (a : nat) (items : list nat) (s : Scene) :
  (a < length (arrays s))%nat ->
  array_of (push a items s) a = array_of s a ++ items.
Proof.
  intros H. unfold array_of at 1. unfold push. cbn [arrays].
  rewrite list_lookup_insert_eq by exact H. reflexivity.
Qed.

Lemma length_arrays_push (a : nat) (items : list nat) (s : Scene) :
  length (arrays (push a items s)) = length (arrays s).
Proof. unfold push. cbn [arrays]. apply length_insert. Qed.

(** The array [createFireworkParticles] returns is empty when it returns:
    the three pushes are still pending in timer callbacks. *)
Lemma createFireworkParticles_returns_empty (x y z : Q) (s : Scene) :
  let '(fireworks, s1) := createFireworkParticles x y z s in
  array_of s1 fireworks = [] /\ fireworks = length (arrays s) /\
  length (timers s1) = (length (timers s) + 3)%nat.
Proof.
  unfold createFireworkParticles, array_of. cbn [arrays timers].
  rewrite lookup_app_r by lia. rewrite Nat.sub_diag.
  split; [reflexivity|]. split; [reflexivity|].
  rewrite length_app. reflexivity.
Qed.

Lemma dark_createFireworks (x y z : Q) (s : Scene) :
  dark s -> dark (createFireworks x y z s).
Proof.
  intros [Hthis Hlive Hheap Hchildren].
  unfold createFireworks.
  pose proof (createFireworkParticles_returns_empty x y z s) as Hret.
  destruct (createFireworkParticles x y z s) as [fireworks s1] eqn:E.
  destruct Hret as (Hempty & Hfresh & _). rewrite Hempty.
  unfold createFireworkParticles in E. injection E as _ <-.
  cbn [this_fireworks].
  split.
  - rewrite length_arrays_push. cbn [this_fireworks arrays].
    rewrite length_app. cbn. lia.
  - unfold live. cbn [this_fireworks push].
    rewrite array_of_push_eq by (cbn [arrays]; rewrite length_app; cbn; lia).
    rewrite app_nil_r. unfold array_of. cbn [arrays].
    rewrite lookup_app_l by exact Hthis. exact Hlive.
  - exact Hheap.
  - exact Hchildren.
Qed.

(** The callback of a timer throws, whatever the timer, the draws and the
    scene. *)
Lemma timer_callback_throws (t : Timer) (smp : Sample) (s : Scene) :
  timer_callback t smp s = None.
Proof. unfold timer_callback. destruct (t_origin t) as [[x y] z]. reflexivity. Qed.

(** A firing timer is consumed and nothing else changes. *)
Lemma fire_timer_spec (k : nat) (smp : Sample) (s : Scene) :
  heap (fire_timer k smp s) = heap s /\
  arrays (fire_timer k smp s) = arrays s /\
  this_fireworks (fire_timer k smp s) = this_fireworks s /\
  children (fire_timer k smp s) = children s /\
  timers (fire_timer k smp s) = delete k (timers s).
Proof.
  unfold fire_timer. destruct (timers s !! k) as [t|] eqn:E.
  - cbv zeta. rewrite timer_callback_throws. repeat split.
  - apply lookup_ge_None in E. repeat split.
    rewrite delete_take_drop, take_ge, drop_ge by lia.
    symmetry. apply app_nil_r.
Qed.

Lemma dark_fire_timer (k : nat) (smp : Sample) (s : Scene) :
  dark s -> dark (fire_timer k smp s).
Proof.
  intros [Hthis Hlive Hheap Hchildren].
  destruct (fire_timer_spec k smp s) as (Eh & Ea & Et & Ec & _).
  split.
  - rewrite Et, Ea. exact Hthis.
  - unfold live, array_of. rewrite Et, Ea. exact Hlive.
  - rewrite Eh. exact Hheap.
  - rewrite Ec. exact Hchildren.
Qed.

Lemma dark_updateFireworks (s : Scene) :
  dark s -> dark (updateFireworks s).
Proof.
  intros [Hthis Hlive Hheap Hchildren].
  unfold updateFireworks. rewrite Hlive. cbn [fold_left]. rewrite Hlive.
  cbn [List.filter].
  split; cbn [heap arrays this_fireworks children timers].
  - rewrite length_app. cbn. lia.
  - unfold live, array_of. cbn [arrays this_fireworks].
    rewrite lookup_app_r by lia. rewrite Nat.sub_diag. reflexivity.
  - exact Hheap.
  - exact Hchildren.
Qed.

Lemma dark_step (s : Scene) (t : Task) : dark s -> dark (step s t).
Proof.
  destruct t; cbn [step].
  - apply dark_createFireworks.
  - apply dark_fire_timer.
  - apply dark_updateFireworks.
Qed.

Lemma dark_exec (tasks : list Task) :
  forall s, dark s -> dark (exec tasks s).
Proof.
  unfold exec. induction tasks as [|t rest IH]; intros s Hs; [exact Hs|].
  cbn [fold_left]. apply IH, dark_step, Hs.
Qed.
End FireworksFacts.

(** ** Fireworks: [updateFireworks] on a burst of the live set *)

Module UpdateFacts.
Import FIREWORKS_CONFIG JsNum Fireworks.
Local Open Scope Q_scope.

Lemma elem_of_scene_remove (o o' : nat) (s : Scene) :
  o' ∈ children (scene_remove o s) <-> o' ∈ children s /\ o' <> o.
Proof.
  unfold scene_remove. cbn [children].
  rewrite !list_elem_of_In, filter_In, negb_true_iff, Nat.eqb_neq. reflexivity.
Qed.

(** [update_firework] touches the burst it is given and nothing else. *)
Lemma update_firework_frame (o : nat) (s : Scene) :
  arrays (update_firework o s) = arrays s /\
  this_fireworks (update_firework o s) = this_fireworks s /\
  timers (update_firework o s) = timers s /\
  (forall o', o' <> o -> heap (update_firework o s) !! o' = heap s !! o') /\
  (forall o', o' <> o ->
              (o' ∈ children (update_firework o s) <-> o' ∈ children s)).
Proof.
  unfold update_firework.
  destruct (heap s !! o) as [fw|] eqn:E; [|tauto].
  destruct (negb (active fw)); [tauto|].
  destruct (gtb (age fw + 0.016) (lifetime fw)).
  - destruct (particles fw) as [p|].
    + split; [reflexivity|]. split; [reflexivity|]. split; [reflexivity|]. split.
      * intros o' Hne. unfold scene_remove, set_heap. cbn [heap].
        apply list_lookup_insert_ne; congruence.
      * intros o' Hne. rewrite elem_of_scene_remove.
        unfold set_heap. cbn [children]. tauto.
    + split; [reflexivity|]. split; [reflexivity|]. split; [reflexivity|]. split.
      * intros o' Hne. unfold set_heap. cbn [heap].
        apply list_lookup_insert_ne; congruence.
      * intros o' Hne. unfold set_heap. cbn [children]. tauto.
  - destruct (particles fw) as [p|].
    + destruct (integrate _ _ p _) as [p' v'].
      split; [reflexivity|]. split; [reflexivity|]. split; [reflexivity|]. split.
      * intros o' Hne. unfold set_heap. cbn [heap].
        apply list_lookup_insert_ne; congruence.
      * intros o' Hne. unfold set_heap. cbn [children]. tauto.
    + split; [reflexivity|]. split; [reflexivity|]. split; [reflexivity|]. split.
      * intros o' Hne. unfold set_heap. cbn [heap].
        apply list_lookup_insert_ne; congruence.
      * intros o' Hne. unfold set_heap. cbn [children]. tauto.
Qed.

(** At the burst itself: it is replaced by [aged], and its [Points] leave
    the scene graph exactly when the pass retires it. *)
Lemma update_firework_at (o : nat) (s : Scene) (fw : Firework) :
  heap s !! o = Some fw ->
  heap (update_firework o s) !! o = Some (aged fw) /\
  (o ∈ children (update_firework o s) <->
   o ∈ children s /\ ~ (retires fw = true /\ is_Some (particles fw))).
Proof.
  intros E. unfold update_firework, aged, retires. rewrite E.
  assert (Hlt : (o < length (heap s))%nat) by (eapply lookup_lt_Some; exact E).
  destruct (active fw); cbn [negb andb].
  - destruct (gtb (age fw + 0.016) (lifetime fw)).
    + destruct (particles fw) as [p|].
      * split.
        -- unfold scene_remove, set_heap. cbn [heap].
           apply list_lookup_insert_eq; exact Hlt.
        -- rewrite elem_of_scene_remove. unfold set_heap. cbn [children].
           split; [tauto|]. intros [_ H]. exfalso. apply H. split; [reflexivity|].
           eexists; reflexivity.
      * split.
        -- unfold set_heap. cbn [heap]. apply list_lookup_insert_eq; exact Hlt.
        -- unfold set_heap. cbn [children]. split; [|tauto].
           intros H. split; [exact H|]. intros [_ [p Hp]]. discriminate Hp.
    + destruct (particles fw) as [p|].
      * destruct (integrate _ _ p _) as [p' v']. cbn [fst snd]. split.
        -- unfold set_heap. cbn [heap]. apply list_lookup_insert_eq; exact Hlt.
        -- unfold set_heap. cbn [children]. split; [|tauto].
           intros H. split; [exact H|]. intros [H' _]. discriminate H'.
      * split.
        -- unfold set_heap. cbn [heap]. apply list_lookup_insert_eq; exact Hlt.
        -- unfold set_heap. cbn [children]. split; [|tauto].
           intros H. split; [exact H|]. intros [H' _]. discriminate H'.
  - split; [exact E|]. split; [|tauto].
    intros H. split; [exact H|]. intros [H' _]. discriminate H'.
Qed.

Lemma loop_frame (l : list nat) :
  forall s, arrays (loop l s) = arrays s /\
            this_fireworks (loop l s) = this_fireworks s /\
            timers (loop l s) = timers s.
Proof.
  unfold loop. induction l as [|x l IH]; intros s; [tauto|].
  cbn [fold_left]. destruct (IH (update_firework x s)) as (H1 & H2 & H3).
  destruct (update_firework_frame x s) as (G1 & G2 & G3 & _).
  rewrite H1, H2, H3. tauto.
Qed.

(** The loop of [updateFireworks] over an array without repetition: a
    listed burst is aged once, an unlisted one is left alone. *)
Lemma loop_spec (l : list nat) :
  NoDup l -> forall (s : Scene) (o : nat) (fw : Firework),
  heap s !! o = Some fw ->
  (o ∈ l ->
   heap (loop l s) !! o = Some (aged fw) /\
   (o ∈ children (loop l s) <->
    o ∈ children s /\ ~ (retires fw = true /\ is_Some (particles fw)))) /\
  (o ∉ l ->
   heap (loop l s) !! o = Some fw /\
   (o ∈ children (loop l s) <-> o ∈ children s)).
Proof.
  induction 1 as [|x l Hx Hnd IH]; intros s o fw E.
  - split; [intros Hin; inversion Hin|]. intros _. cbn. tauto.
  - unfold loop. cbn [fold_left]. fold (loop l (update_firework x s)).
    destruct (decide (o = x)) as [-> | Hne].
    + destruct (update_firework_at x s fw E) as [Eh Ec].
      destruct (IH (update_firework x s) x (aged fw) Eh) as [_ Hout].
      destruct (Hout Hx) as [H1 H2].
      split; [|intros Hni; exfalso; apply Hni; left].
      intros _. rewrite H1, H2. tauto.
    + destruct (update_firework_frame x s) as (_ & _ & _ & Hh & Hc).
      assert (E' : heap (update_firework x s) !! o = Some fw)
        by (rewrite (Hh o Hne); exact E).
      destruct (IH (update_firework x s) o fw E') as [Hin Hout].
      rewrite (Hc o Hne) in Hin, Hout.
      split.
      * intros H. apply elem_of_cons in H. destruct H as [H|H]; [contradiction|].
        apply Hin, H.
      * intros H. apply not_elem_of_cons in H. apply Hout, H.
Qed.

Lemma live_loop (l : list nat) (s : Scene) : live (loop l s) = live s.
Proof.
  destruct (loop_frame l s) as (Ha & Ht & _).
  unfold live, array_of. rewrite Ha, Ht. reflexivity.
Qed.

Lemma live_updateFireworks (s : Scene) :
  live (updateFireworks s)
    = List.filter (is_active (loop (live s) s)) (live s).
Proof.
  unfold updateFireworks. fold (loop (live s) s).
  unfold live at 1, array_of. cbn [arrays this_fireworks].
  rewrite lookup_app_r by lia. rewrite Nat.sub_diag. cbn.
  rewrite live_loop. reflexivity.
Qed.

(** One call of [updateFireworks], seen from a burst that is in the live
    set and active: it is aged by 0.016; if its age now exceeds its
    lifetime it is made inactive, its [Points] are disposed and removed
    from the scene graph, and it is filtered out of the live set by the same
    call; otherwise it stays active and live. *)
Lemma updateFireworks_registered (s : Scene) (o : nat) (fw : Firework) :
  NoDup (live s) -> o ∈ live s ->
  heap s !! o = Some fw -> active fw = true ->
  NoDup (live (updateFireworks s)) /\
  heap (updateFireworks s) !! o = Some (aged fw) /\
  age (aged fw) = age fw + 0.016 /\ lifetime (aged fw) = lifetime fw /\
  if gtb (age fw + 0.016) (lifetime fw)
  then active (aged fw) = false /\
       particles (aged fw) = dispose <$> particles fw /\
       (is_Some (particles fw) -> o ∉ children (updateFireworks s)) /\
       o ∉ live (updateFireworks s)
  else active (aged fw) = true /\
       (is_Some (particles fw) -> is_Some (particles (aged fw))) /\
       (o ∈ children (updateFireworks s) <-> o ∈ children s) /\
       o ∈ live (updateFireworks s).
Proof.
  intros Hnd Hin E Hact.
  destruct (loop_spec (live s) Hnd s o fw E) as [Hspec _].
  destruct (Hspec Hin) as [Eh Ec]. clear Hspec.
  rewrite live_updateFireworks.
  change (heap (updateFireworks s)) with (heap (loop (live s) s)).
  change (children (updateFireworks s)) with (children (loop (live s) s)).
  assert (Hact' : is_active (loop (live s) s) o = active (aged fw))
    by (unfold is_active; rewrite Eh; reflexivity).
  assert (Hkept : o ∈ List.filter (is_active (loop (live s) s)) (live s) <->
                  active (aged fw) = true).
  { rewrite list_elem_of_In, filter_In, Hact', <- list_elem_of_In. tauto. }
  split; [apply NoDup_ListNoDup, List.NoDup_filter, NoDup_ListNoDup, Hnd|].
  split; [exact Eh|].
  unfold retires in Ec. rewrite Hact in Ec. cbn [andb] in Ec.
  revert Hkept. unfold aged. rewrite Hact. cbn [negb].
  destruct (gtb (age fw + 0.016) (lifetime fw)) eqn:Eg.
  - cbn [age lifetime active particles]. intros Hkept.
    repeat (split; [reflexivity|]). split.
    + intros Hp Hc. apply Ec in Hc. destruct Hc as [_ Hn]. apply Hn.
      split; [reflexivity | exact Hp].
    + rewrite Hkept. discriminate.
  - destruct (particles fw) as [p|] eqn:Ep;
      cbn [age lifetime active particles]; intros Hkept.
    + repeat (split; [reflexivity|]).
      split; [intros _; eexists; reflexivity|]. split.
      * rewrite Ec. split; [tauto|]. intros H. split; [exact H|].
        intros [H' _]. discriminate H'.
      * apply Hkept. reflexivity.
    + repeat (split; [reflexivity|]).
      split; [intros [? H]; discriminate H|]. split.
      * rewrite Ec. split; [tauto|]. intros H. split; [exact H|].
        intros [H' _]. discriminate H'.
      * apply Hkept. reflexivity.
Qed.

Lemma gtb_compat (a b c : Q) : a == b -> gtb a c = gtb b c.
Proof.
  intros H. unfold gtb, ltb. f_equal.
  destruct (Qle_bool a c) eqn:E1, (Qle_bool b c) eqn:E2; try reflexivity.
  - apply Qle_bool_iff in E1. rewrite H in E1. apply Qle_bool_iff in E1. congruence.
  - apply Qle_bool_iff in E2. rewrite <- H in E2. apply Qle_bool_iff in E2. congruence.
Qed.

(** The life of a registered burst: a burst of age 0 and lifetime 3.0 that
    is in the live set stays active, live and in the scene graph for 187
    frames, its age growing by 0.016 a frame; the 188th frame, the first
    at which the age exceeds 3.0, makes it inactive, disposes and removes
    its [Points], and drops it from the live set. *)
Lemma registered_burst_lifecycle (s : Scene) (o : nat) (fw : Firework) :
  NoDup (live s) -> o ∈ live s -> heap s !! o = Some fw ->
  active fw = true -> age fw == 0 -> lifetime fw = 3.0 ->
  is_Some (particles fw) -> o ∈ children s ->
  (forall n, (n <= 187)%nat ->
     exists fw', heap (frames n s) !! o = Some fw' /\ active fw' = true /\
                 age fw' == 0.016 * of_nat n /\
                 o ∈ live (frames n s) /\ o ∈ children (frames n s)) /\
  (exists fw', heap (frames 188 s) !! o = Some fw' /\ active fw' = false /\
               age fw' == 3.008 /\
               (o ∉ live (frames 188 s)) /\
               resources_released (frames 188 s) o).
Proof.
  intros Hnd Hin E Hact Hage Hlife Hp Hc.
  assert (Hinv : forall n, (n <= 187)%nat ->
            exists fw', heap (frames n s) !! o = Some fw' /\ active fw' = true /\
                        age fw' == 0.016 * of_nat n /\ lifetime fw' = 3.0 /\
                        is_Some (particles fw') /\
                        NoDup (live (frames n s)) /\
                        o ∈ live (frames n s) /\ o ∈ children (frames n s)).
  { induction n as [|n IH]; intros Hn.
    - exists fw. cbn [frames Nat.iter]. repeat split; try assumption.
      rewrite Hage. reflexivity.
    - destruct IH as (f & Ef & Haf & Hagef & Hlf & Hpf & Hndf & Hinf & Hcf); [lia|].
      destruct (updateFireworks_registered (frames n s) o f Hndf Hinf Ef Haf)
        as (Hnd' & Eh' & Hage' & Hlife' & Hrest).
      assert (Eg : gtb (age f + 0.016) (lifetime f) = false).
      { rewrite Hlf. rewrite (gtb_compat _ (0.016 * of_nat (S n))).
        - apply GestureFacts.gtb_false. unfold of_nat.
          assert (H187 : 0.016 * inject_Z (Z.of_nat (S n)) <= 0.016 * inject_Z 187).
          { apply Qmult_le_l; [reflexivity|]. rewrite <- Zle_Qle. lia. }
          eapply Qle_trans; [exact H187|]. vm_compute. discriminate.
        - rewrite Hagef. unfold of_nat. rewrite Nat2Z.inj_succ.
          unfold Z.succ. rewrite inject_Z_plus. ring. }
      rewrite Eg in Hrest. destruct Hrest as (Ha' & Hp' & Hc' & Hl').
      exists (aged f). cbn [frames Nat.iter]. fold (frames n s).
      split; [exact Eh'|]. split; [exact Ha'|]. split.
      { rewrite Hage', Hagef. unfold of_nat. rewrite Nat2Z.inj_succ.
        unfold Z.succ. rewrite inject_Z_plus. ring. }
      split; [congruence|]. split; [apply Hp', Hpf|].
      split; [exact Hnd'|]. split; [exact Hl'|]. apply Hc', Hcf. }
  split.
  - intros n Hn. destruct (Hinv n Hn) as (f & H1 & H2 & H3 & _ & _ & _ & H4 & H5).
    exists f. tauto.
  - destruct (Hinv 187%nat) as (f & Ef & Haf & Hagef & Hlf & Hpf & Hndf & Hinf & Hcf);
      [lia|].
    destruct (updateFireworks_registered (frames 187 s) o f Hndf Hinf Ef Haf)
      as (Hnd' & Eh' & Hage' & Hlife' & Hrest).
    assert (Eg : gtb (age f + 0.016) (lifetime f) = true).
    { rewrite Hlf. rewrite (gtb_compat _ 3.008).
      - reflexivity.
      - rewrite Hagef. reflexivity. }
    rewrite Eg in Hrest. destruct Hrest as (Ha' & Hp' & Hc' & Hl').
    exists (aged f). change (frames 188 s) with (updateFireworks (frames 187 s)).
    split; [exact Eh'|]. split; [exact Ha'|]. split.
    { rewrite Hage', Hagef. reflexivity. }
    split; [exact Hl'|]. split; [apply Hc', Hpf|].
    destruct Hpf as [p Ep]. exists (aged f), (dispose p).
    split; [exact Eh'|]. rewrite Hp', Ep. repeat split.
Qed.
End UpdateFacts.

(** ** Fireworks: the life of a burst in the live set *)

Module LifeFacts.
Import FIREWORKS_CONFIG JsNum Fireworks FireworksFacts UpdateFacts.
Local Open Scope Q_scope.

Lemma of_nat_S (n : nat) : of_nat (S n) == of_nat n + 1.
Proof.
  unfold of_nat. rewrite Nat2Z.inj_succ. unfold Z.succ.
  rewrite inject_Z_plus. reflexivity.
Qed.

Lemma of_nat_le (m n : nat) : (m <= n)%nat -> of_nat m <= of_nat n.
Proof. intros H. unfold of_nat. rewrite <- Zle_Qle. lia. Qed.

(** The loop leaves a burst that is not listed as it was, in the store and
    in the scene graph. *)
Lemma loop_skips (l : list nat) (o : nat) :
  forall s, o ∉ l ->
    heap (loop l s) !! o = heap s !! o /\
    (o ∈ children (loop l s) <-> o ∈ children s).
Proof.
  unfold loop. induction l as [|x l IH]; intros s Ho; [cbn; tauto|].
  apply not_elem_of_cons in Ho. destruct Ho as [Hne Ho].
  cbn [fold_left]. destruct (IH (update_firework x s) Ho) as [H1 H2].
  destruct (update_firework_frame x s) as (_ & _ & _ & Hh & Hc).
  rewrite H1, H2, (Hh o Hne), (Hc o Hne). tauto.
Qed.

(** A retired burst, out of the live set, stays as it is. *)
Lemma retired_stays (s : Scene) (o : nat) (fw : Firework) :
  heap s !! o = Some fw -> o ∉ live s -> resources_released s o ->
  heap (updateFireworks s) !! o = Some fw /\
  (o ∉ live (updateFireworks s)) /\
  resources_released (updateFireworks s) o.
Proof.
  intros E Hl (Hc & f & p & Ef & Hp & Hg & Hm).
  destruct (loop_skips (live s) o s Hl) as [Hh Hch].
  change (heap (updateFireworks s)) with (heap (loop (live s) s)).
  split; [rewrite Hh; exact E|]. split.
  - rewrite live_updateFireworks. intros Hin.
    apply list_elem_of_In, filter_In in Hin. destruct Hin as [Hin _].
    apply Hl, list_elem_of_In, Hin.
  - split.
    + change (children (updateFireworks s)) with (children (loop (live s) s)).
      rewrite Hch. exact Hc.
    + exists f, p. change (heap (updateFireworks s)) with (heap (loop (live s) s)).
      rewrite Hh. tauto.
Qed.

Lemma frames_S (n : nat) (s : Scene) :
  frames (S n) s = updateFireworks (frames n s).
Proof. reflexivity. Qed.

Lemma frames_add (n m : nat) (s : Scene) :
  frames (n + m) s = frames m (frames n s).
Proof.
  induction m as [|m IH]; [rewrite Nat.add_0_r; reflexivity|].
  rewrite Nat.add_succ_r, !frames_S, IH. reflexivity.
Qed.

Lemma retired_forever (s : Scene) (o : nat) (fw : Firework) :
  heap s !! o = Some fw -> o ∉ live s -> resources_released s o ->
  forall m, heap (frames m s) !! o = Some fw /\
            (o ∉ live (frames m s)) /\ resources_released (frames m s) o.
Proof.
  intros E Hl Hr. induction m as [|m (IH1 & IH2 & IH3)]; [cbn; tauto|].
  rewrite frames_S. apply retired_stays; assumption.
Qed.

(** The life of a burst in the live set: [n] frames without its age
    exceeding its lifetime, then the frame at which it does. *)
Lemma burst_lifecycle (s : Scene) (o : nat) (fw : Firework) (n : nat) :
  NoDup (live s) -> o ∈ live s -> heap s !! o = Some fw ->
  active fw = true -> is_Some (particles fw) -> o ∈ children s ->
  age fw + 0.016 * of_nat n <= lifetime fw ->
  (forall k, (k <= n)%nat ->
     exists fw', heap (frames k s) !! o = Some fw' /\ active fw' = true /\
                 age fw' == age fw + 0.016 * of_nat k /\
                 lifetime fw' = lifetime fw /\ is_Some (particles fw') /\
                 NoDup (live (frames k s)) /\
                 o ∈ live (frames k s) /\ o ∈ children (frames k s)) /\
  (lifetime fw < age fw + 0.016 * of_nat (S n) ->
   forall m,
     exists fw', heap (frames (S n + m) s) !! o = Some fw' /\
                 active fw' = false /\
                 age fw' == age fw + 0.016 * of_nat (S n) /\
                 (o ∉ live (frames (S n + m) s)) /\
                 resources_released (frames (S n + m) s) o).
Proof.
  intros Hnd Hin E Hact Hp Hc Hle.
  assert (Hinv : forall k, (k <= n)%nat ->
     exists fw', heap (frames k s) !! o = Some fw' /\ active fw' = true /\
                 age fw' == age fw + 0.016 * of_nat k /\
                 lifetime fw' = lifetime fw /\ is_Some (particles fw') /\
                 NoDup (live (frames k s)) /\
                 o ∈ live (frames k s) /\ o ∈ children (frames k s)).
  { induction k as [|k IH]; intros Hk.
    - exists fw. cbn [frames Nat.iter]. repeat split; try assumption.
      unfold of_nat. cbn. ring.
    - destruct IH as (f & Ef & Haf & Hagef & Hlf & Hpf & Hndf & Hinf & Hcf); [lia|].
      destruct (updateFireworks_registered (frames k s) o f Hndf Hinf Ef Haf)
        as (Hnd' & Eh' & Hage' & Hlife' & Hrest).
      assert (Eg : gtb (age f + 0.016) (lifetime f) = false).
      { apply GestureFacts.gtb_false. rewrite Hlf, Hagef.
        pose proof (of_nat_le (S k) n Hk) as Hkn. rewrite of_nat_S in Hkn.
        Lqa.lra. }
      rewrite Eg in Hrest. destruct Hrest as (Ha' & Hp' & Hc' & Hl').
      exists (aged f). rewrite frames_S.
      split; [exact Eh'|]. split; [exact Ha'|]. split.
      { rewrite Hage', Hagef, of_nat_S. ring. }
      split; [congruence|]. split; [apply Hp', Hpf|].
      split; [exact Hnd'|]. split; [exact Hl'|]. apply Hc', Hcf. }
  split; [exact Hinv|].
  intros Hgt.
  destruct (Hinv n (Nat.le_refl n))
    as (f & Ef & Haf & Hagef & Hlf & Hpf & Hndf & Hinf & Hcf).
  destruct (updateFireworks_registered (frames n s) o f Hndf Hinf Ef Haf)
    as (Hnd' & Eh' & Hage' & Hlife' & Hrest).
  assert (Eg : gtb (age f + 0.016) (lifetime f) = true).
  { apply GestureFacts.gtb_true. rewrite Hlf, Hagef.
    rewrite of_nat_S in Hgt. Lqa.lra. }
  rewrite Eg in Hrest. destruct Hrest as (Ha' & Hp' & Hc' & Hl').
  assert (Hrel : resources_released (frames (S n) s) o).
  { rewrite frames_S. split; [apply Hc', Hpf|].
    destruct Hpf as [p Ep]. exists (aged f), (dispose p).
    split; [exact Eh'|]. rewrite Hp', Ep. repeat split. }
  intros m. exists (aged f).
  rewrite frames_add.
  destruct (retired_forever (frames (S n) s) o (aged f)) with (m := m)
    as (H1 & H2 & H3).
  - rewrite frames_S. exact Eh'.
  - rewrite frames_S. exact Hl'.
  - exact Hrel.
  - split; [exact H1|]. split; [exact Ha'|]. split.
    { rewrite Hage', Hagef, of_nat_S. ring. }
    split; [exact H2 | exact H3].
Qed.
End LifeFacts.

(** ** Claims about the fireworks *)

Module FireworksClaims.
Import FIREWORKS_CONFIG JsNum Fireworks FireworksFacts UpdateFacts LifeFacts
       Samples.
Local Open Scope Q_scope.


End FireworksClaims.

(** ** Physics: lengths of vectors *)

Module VectorFacts.
Import Physics.
Local Open Scope R_scope.

Lemma dot_self_nonneg (a : Vector3) : 0 <= dot a a.
Proof. unfold dot. nra. Qed.

Lemma length3_dot (a : Vector3) : length3 a = sqrt (dot a a).
Proof. reflexivity. Qed.

Lemma length3_nonneg (a : Vector3) : 0 <= length3 a.
Proof. apply sqrt_pos. Qed.

Lemma length3_sqr (a : Vector3) : length3 a * length3 a = dot a a.
Proof. rewrite length3_dot. apply sqrt_sqrt, dot_self_nonneg. Qed.

(** A non-negative number whose square is [dot a a] is the length. *)
Lemma length3_unique (a : Vector3) (l : R) :
  0 <= l -> l * l = dot a a -> length3 a = l.
Proof.
  intros Hl Hsq. rewrite length3_dot, <- Hsq. apply sqrt_square, Hl.
Qed.

Lemma length3_vzero : length3 vzero = 0.
Proof. apply length3_unique; [lra | unfold dot; cbn; ring]. Qed.

Lemma length3_vscale (k : R) (a : Vector3) :
  length3 (vscale k a) = Rabs k * length3 a.
Proof.
  apply length3_unique.
  - apply Rmult_le_pos; [apply Rabs_pos | apply length3_nonneg].
  - transitivity ((Rabs k * Rabs k) * (length3 a * length3 a)); [ring|].
    rewrite length3_sqr. fold (Rsqr (Rabs k)). rewrite <- Rsqr_abs.
    unfold dot, Rsqr. cbn. ring.
Qed.

Lemma length3_le (a : Vector3) (l : R) :
  0 <= l -> dot a a <= l * l -> length3 a <= l.
Proof.
  intros Hl Hsq. rewrite length3_dot, <- (sqrt_square l Hl).
  apply sqrt_le_1_alt, Hsq.
Qed.

Lemma cauchy_schwarz (a b : Vector3) : dot a b <= length3 a * length3 b.
Proof.
  assert (Ha := length3_nonneg a). assert (Hb := length3_nonneg b).
  assert (Hsq : dot a b * dot a b
                <= (length3 a * length3 b) * (length3 a * length3 b)).
  { transitivity (dot a a * dot b b).
    - unfold dot.
      destruct a as [a1 a2 a3], b as [b1 b2 b3]. cbn.
      pose proof (Rle_0_sqr (a1 * b2 - a2 * b1)) as H12.
      pose proof (Rle_0_sqr (a1 * b3 - a3 * b1)) as H13.
      pose proof (Rle_0_sqr (a2 * b3 - a3 * b2)) as H23.
      unfold Rsqr in H12, H13, H23. lra.
    - rewrite <- (length3_sqr a), <- (length3_sqr b). apply Req_le. ring. }
  destruct (Rle_lt_dec (dot a b) (length3 a * length3 b)) as [H|H]; [exact H|].
  exfalso. assert (0 <= length3 a * length3 b) by (apply Rmult_le_pos; assumption).
  nra.
Qed.

Lemma length3_triangle (a b : Vector3) :
  length3 (vadd a b) <= length3 a + length3 b.
Proof.
  assert (Ha := length3_nonneg a). assert (Hb := length3_nonneg b).
  apply length3_le; [lra|].
  assert (Hcs := cauchy_schwarz a b).
  assert (E : dot (vadd a b) (vadd a b) = dot a a + 2 * dot a b + dot b b)
    by (unfold dot; cbn; ring).
  rewrite E, <- (length3_sqr a), <- (length3_sqr b). nra.
Qed.

Lemma length3_x_axis (x : R) : length3 (set x 0 0) = Rabs x.
Proof.
  apply length3_unique; [apply Rabs_pos|].
  fold (Rsqr (Rabs x)). rewrite <- Rsqr_abs. unfold dot, Rsqr. cbn. ring.
Qed.

Lemma vscale_vscale (k l : R) (a : Vector3) :
  vscale k (vscale l a) = vscale (k * l) a.
Proof. unfold vscale, set. cbn. f_equal; ring. Qed.

(** [d * (f / |d|)] is [normalize(d) * f] and has length [f]. *)
Lemma constant_magnitude (f : R) (d : Vector3) :
  0 < length3 d -> 0 <= f ->
  vscale (f / length3 d) d = vscale f (normalize d) /\
  length3 (vscale (f / length3 d) d) = f.
Proof.
  intros Hd Hf. split.
  - unfold normalize. destruct (Req_dec_T (length3 d) 0) as [E|_]; [lra|].
    rewrite vscale_vscale. reflexivity.
  - rewrite length3_vscale. rewrite Rabs_right.
    + field. lra.
    + apply Rle_ge. apply Rmult_le_pos; [exact Hf|].
      left. apply Rinv_0_lt_compat, Hd.
Qed.
End VectorFacts.

(** ** Physics: the particle loop *)

Module PhysicsFacts.
Import ANIMATION_CONFIG PARTICLE_CONFIG Physics VectorFacts.
Local Open Scope R_scope.

(** *** Array accesses *)

Lemma length_wr (a : list R) (i : nat) (v : R) : length (wr a i v) = length a.
Proof. apply length_insert. Qed.

Lemma rd_wr_eq (a : list R) (i : nat) (v : R) :
  (i < length a)%nat -> rd (wr a i v) i = v.
Proof. intros H. unfold rd, wr. apply list_lookup_total_insert_eq, H. Qed.

Lemma rd_wr_ne (a : list R) (i j : nat) (v : R) :
  i <> j -> rd (wr a i v) j = rd a j.
Proof. intros H. unfold rd, wr. apply list_lookup_total_insert_ne, H. Qed.

Ltac rdwr :=
  repeat first
    [ rewrite rd_wr_eq by (rewrite ?length_wr; lia)
    | rewrite rd_wr_ne by lia ].

Lemma length_add3 (a : list R) (i : nat) (d : Vector3) :
  length (add3 a i d) = length a.
Proof. unfold add3, add_at. rewrite !length_wr. reflexivity. Qed.

Lemma length_mul3 (a : list R) (i : nat) (k : R) :
  length (mul3 a i k) = length a.
Proof. unfold mul3, mul_at. rewrite !length_wr. reflexivity. Qed.

Lemma vec_at_add3 (a : list R) (i : nat) (d : Vector3) :
  (i * 3 + 2 < length a)%nat -> vec_at (add3 a i d) i = vadd (vec_at a i) d.
Proof.
  intros H. unfold vec_at, add3, add_at, vadd, set. cbn [v_x v_y v_z].
  rdwr. reflexivity.
Qed.

Lemma vec_at_add3_ne (a : list R) (i j : nat) (d : Vector3) :
  i <> j -> vec_at (add3 a i d) j = vec_at a j.
Proof.
  intros H. unfold vec_at, add3, add_at. rdwr. reflexivity.
Qed.

Lemma vec_at_mul3 (a : list R) (i : nat) (k : R) :
  (i * 3 + 2 < length a)%nat -> vec_at (mul3 a i k) i = vscale k (vec_at a i).
Proof.
  intros H. unfold vec_at, mul3, mul_at, vscale, set. cbn [v_x v_y v_z].
  rdwr. f_equal; ring.
Qed.

Lemma vec_at_mul3_ne (a : list R) (i j : nat) (k : R) :
  i <> j -> vec_at (mul3 a i k) j = vec_at a j.
Proof.
  intros H. unfold vec_at, mul3, mul_at. rdwr. reflexivity.
Qed.

(** *** One particle, one frame *)

Lemma wr_same (a : list R) (i : nat) : wr a i (rd a i) = a.
Proof.
  unfold wr, rd. destruct (a !! i) as [x|] eqn:E.
  - apply list_insert_id. rewrite (list_lookup_total_correct _ _ _ E). exact E.
  - apply list_insert_ge. apply lookup_ge_None, E.
Qed.

Lemma add3_vzero (a : list R) (i : nat) : add3 a i vzero = a.
Proof.
  unfold add3, add_at, vzero, set. cbn [v_x v_y v_z].
  rewrite !Rplus_0_r, !wr_same. reflexivity.
Qed.

(** The body of the loop, array by array. *)
Lemma step_particle_arrays (random : nat -> R) (s : State) (k i : nat) :
  step_particle random (s, k) i =
  (let v := mul3 (add3 (add3 (velocities s) i (attraction s i)) i
                       (brownian random s k)) i DAMPING in
   set_positions (add3 (positions s) i (vec_at v i)) (set_velocities v s),
   (k + draws_per_particle s)%nat).
Proof.
  unfold step_particle, attraction, brownian, draws_per_particle, displacement,
    target_of, forceMagnitude, position_of.
  cbv zeta.
  destruct (Rlt_dec 0.01 (pinchStrength s)) as [Hp|Hp];
    unfold vsub, vec_at, set; cbn [v_x v_y v_z].
  - rewrite add3_vzero, Nat.add_0_r.
    match goal with
    | |- context [Rlt_dec 0.01 (length3 ?d)] =>
        destruct (Rlt_dec 0.01 (length3 d)) as [Hd|Hd]
    end.
    + reflexivity.
    + rewrite add3_vzero. reflexivity.
  - match goal with
    | |- context [Rlt_dec 0.01 (length3 ?d)] =>
        destruct (Rlt_dec 0.01 (length3 d)) as [Hd|Hd]
    end.
    + reflexivity.
    + rewrite add3_vzero. reflexivity.
Qed.

(** Particle [i] after the body; the other particles are left alone. *)
Lemma step_particle_spec (random : nat -> R) (n : nat) (s : State) (k i : nat) :
  well_formed n s -> (i < n)%nat ->
  let s' := fst (step_particle random (s, k) i) in
  well_formed n s' /\
  snd (step_particle random (s, k) i) = (k + draws_per_particle s)%nat /\
  targetTree s' = targetTree s /\ targetExploded s' = targetExploded s /\
  pinchStrength s' = pinchStrength s /\ isPinching s' = isPinching s /\
  velocity_of s' i = next_velocity random s k i /\
  position_of s' i = vadd (position_of s i) (next_velocity random s k i) /\
  (forall j, j <> i ->
             velocity_of s' j = velocity_of s j /\
             position_of s' j = position_of s j).
Proof.
  intros (Hp & Hv & Ht & He) Hi. rewrite step_particle_arrays. cbv zeta.
  cbn [fst snd]. unfold well_formed, velocity_of, position_of, next_velocity.
  cbn [positions velocities targetTree targetExploded pinchStrength isPinching
       set_positions set_velocities].
  assert (Ev : vec_at (mul3 (add3 (add3 (velocities s) i (attraction s i)) i
                                  (brownian random s k)) i DAMPING) i
               = vscale DAMPING
                   (vadd (vadd (vec_at (velocities s) i) (attraction s i))
                         (brownian random s k))).
  { rewrite vec_at_mul3 by (rewrite !length_add3; lia).
    rewrite vec_at_add3 by (rewrite !length_add3; lia).
    rewrite vec_at_add3 by lia. reflexivity. }
  rewrite length_add3, length_mul3, !length_add3.
  split; [repeat split; assumption|].
  repeat (split; [reflexivity|]).
  split; [exact Ev|]. split.
  - rewrite vec_at_add3 by lia. rewrite Ev. reflexivity.
  - intros j Hj. split.
    + rewrite vec_at_mul3_ne, !vec_at_add3_ne by congruence. reflexivity.
    + rewrite vec_at_add3_ne by congruence. reflexivity.
Qed.

(** [next_velocity] of particle [i] looks at that particle only. *)
Lemma next_velocity_ext (random : nat -> R) (s1 s2 : State) (k i : nat) :
  velocity_of s1 i = velocity_of s2 i -> position_of s1 i = position_of s2 i ->
  targetTree s1 = targetTree s2 -> targetExploded s1 = targetExploded s2 ->
  pinchStrength s1 = pinchStrength s2 ->
  next_velocity random s1 k i = next_velocity random s2 k i.
Proof.
  intros Hv Hp Ht He Hs.
  unfold next_velocity, attraction, brownian, displacement, target_of,
    forceMagnitude.
  rewrite Hv, Hp, Ht, He, Hs. reflexivity.
Qed.

Lemma update_upto_S (random : nat -> R) (n : nat) (acc : State * nat) :
  update_upto random (S n) acc
    = step_particle random (update_upto random n acc) n.
Proof.
  unfold update_upto. rewrite seq_S, fold_left_app. reflexivity.
Qed.

(** The loop over the first [n] particles: each of them has moved by the
    rule of [next_velocity], computed on the state the loop started in;
    the others have not moved yet. *)
Lemma update_upto_spec (random : nat -> R) (N : nat) (s : State) (k : nat) :
  well_formed N s ->
  forall n, (n <= N)%nat ->
  let s' := fst (update_upto random n (s, k)) in
  well_formed N s' /\
  snd (update_upto random n (s, k)) = (k + n * draws_per_particle s)%nat /\
  targetTree s' = targetTree s /\ targetExploded s' = targetExploded s /\
  pinchStrength s' = pinchStrength s /\ isPinching s' = isPinching s /\
  (forall i, (i < n)%nat ->
     velocity_of s' i
       = next_velocity random s (k + i * draws_per_particle s) i /\
     position_of s' i
       = vadd (position_of s i)
              (next_velocity random s (k + i * draws_per_particle s) i)) /\
  (forall i, (n <= i)%nat ->
     velocity_of s' i = velocity_of s i /\ position_of s' i = position_of s i).
Proof.
  intros Hwf. induction n as [|n IH]; intros Hn; cbv zeta.
  - unfold update_upto. cbn [seq fold_left fst snd].
    split; [exact Hwf|]. split; [lia|].
    do 4 (split; [reflexivity|]).
    split; [intros i Hi; lia | intros i _; split; reflexivity].
  - destruct IH as (Hwf' & Hk & Ht & He & Hs & Hb & Hdone & Htodo); [lia|].
    rewrite update_upto_S.
    destruct (update_upto random n (s, k)) as [s1 k1] eqn:E1.
    cbn [fst snd] in *.
    destruct (step_particle_spec random N s1 k1 n Hwf' ltac:(lia))
      as (Hwf2 & Hk2 & Ht2 & He2 & Hs2 & Hb2 & Hv2 & Hp2 & Hothers).
    cbv zeta in *.
    assert (Hd : draws_per_particle s1 = draws_per_particle s)
      by (unfold draws_per_particle; rewrite Hs; reflexivity).
    destruct (Htodo n (Nat.le_refl n)) as [Hvn Hpn].
    assert (Enext : next_velocity random s1 k1 n
                    = next_velocity random s (k + n * draws_per_particle s) n).
    { rewrite Hk. apply next_velocity_ext; assumption. }
    split; [exact Hwf2|]. split; [rewrite Hk2, Hk, Hd; lia|].
    split; [congruence|]. split; [congruence|]. split; [congruence|].
    split; [congruence|]. split.
    + intros i Hi. destruct (decide (i = n)) as [-> | Hne].
      * rewrite Hv2, Hp2, Enext, Hpn. split; reflexivity.
      * destruct (Hothers i Hne) as [H1 H2]. rewrite H1, H2.
        apply Hdone. lia.
    + intros i Hi. destruct (Hothers i ltac:(lia)) as [H1 H2].
      rewrite H1, H2. apply Htodo. lia.
Qed.

(** One animation frame, particle by particle. *)
Lemma update_spec (random : nat -> R) (s : State) (k : nat) :
  well_formed COUNT s ->
  let s' := fst (update random (s, k)) in
  well_formed COUNT s' /\
  snd (update random (s, k)) = (k + COUNT * draws_per_particle s)%nat /\
  targetTree s' = targetTree s /\ targetExploded s' = targetExploded s /\
  pinchStrength s' = pinchStrength s /\ isPinching s' = isPinching s /\
  (forall i, (i < COUNT)%nat ->
     velocity_of s' i
       = next_velocity random s (k + i * draws_per_particle s) i /\
     position_of s' i
       = vadd (position_of s i)
              (next_velocity random s (k + i * draws_per_particle s) i)).
Proof.
  intros Hwf.
  destruct (update_upto_spec random COUNT s k Hwf COUNT (Nat.le_refl _))
    as (H1 & H2 & H3 & H4 & H5 & H6 & H7 & _).
  unfold update. cbv zeta in *. tauto.
Qed.
End PhysicsFacts.

(** ** Physics: one frame *)

Module TickFacts.
Import ANIMATION_CONFIG PARTICLE_CONFIG Physics VectorFacts PhysicsFacts.
Local Open Scope R_scope.

Lemma vadd_vzero_r (a : Vector3) : vadd a vzero = a.
Proof.
  destruct a as [x y z]. unfold vadd, vzero, set. cbn. f_equal; ring.
Qed.

Lemma length3_vsub_le (a b : Vector3) :
  length3 (vsub a b) <= length3 a + length3 b.
Proof.
  assert (E : vsub a b = vadd a (vscale (-1) b)).
  { unfold vsub, vadd, vscale, set. cbn. f_equal; ring. }
  rewrite E. eapply Rle_trans; [apply length3_triangle|].
  rewrite length3_vscale. unfold Rabs. destruct (Rcase_abs (-1)); lra.
Qed.

Lemma forceMagnitude_nonneg (s : State) : 0 <= forceMagnitude s.
Proof.
  unfold forceMagnitude, GRAVITY_STRENGTH, EXPLOSION_STRENGTH.
  destruct (Rlt_dec 0.01 (pinchStrength s)); nra.
Qed.

Lemma forceMagnitude_le (s : State) :
  pinchStrength s <= 1 -> forceMagnitude s <= 0.35.
Proof.
  unfold forceMagnitude, GRAVITY_STRENGTH, EXPLOSION_STRENGTH.
  destruct (Rlt_dec 0.01 (pinchStrength s)); nra.
Qed.

(** The attraction has the length [forceMagnitude] outside the dead zone
    and is zero inside. *)
Lemma length3_attraction (s : State) (i : nat) :
  length3 (attraction s i)
    = if Rlt_dec 0.01 (length3 (displacement s i)) then forceMagnitude s else 0.
Proof.
  unfold attraction. cbv zeta.
  destruct (Rlt_dec 0.01 (length3 (displacement s i))) as [Hd|Hd].
  - apply constant_magnitude; [lra | apply forceMagnitude_nonneg].
  - apply length3_vzero.
Qed.

(** Each Brownian component is at most [BROWN_MOTION / 2] in size. *)
Lemma length3_brownian (random : nat -> R) (s : State) (k : nat) :
  (forall j, 0 <= random j < 1) -> length3 (brownian random s k) <= 0.03.
Proof.
  intros Hr. unfold brownian.
  destruct (Rlt_dec 0.01 (pinchStrength s)).
  - rewrite length3_vzero. lra.
  - apply length3_le; [lra|]. unfold dot, set, BROWN_MOTION. cbn [v_x v_y v_z].
    pose proof (Hr k) as H0. pose proof (Hr (k + 1)%nat) as H1.
    pose proof (Hr (k + 2)%nat) as H2.
    assert (forall r, 0 <= r < 1 ->
                      (r - 0.5) * 0.03 * ((r - 0.5) * 0.03) <= 0.000225)
      as Hsq by (intros r Hrr; nra).
    pose proof (Hsq _ H0). pose proof (Hsq _ H1). pose proof (Hsq _ H2). lra.
Qed.

(** Speed after the body of the loop, whatever the branch taken. *)
Lemma next_velocity_bound (random : nat -> R) (s : State) (k i : nat) :
  (forall j, 0 <= random j < 1) -> pinchStrength s <= 1 ->
  length3 (next_velocity random s k i) <= 0.9 * (speed s i + 0.38).
Proof.
  intros Hr Hs. unfold next_velocity.
  rewrite length3_vscale, Rabs_right by (unfold DAMPING; lra).
  pose proof (length3_brownian random s k Hr) as Hb.
  pose proof (length3_triangle (vadd (velocity_of s i) (attraction s i))
                               (brownian random s k)) as H1.
  pose proof (length3_triangle (velocity_of s i) (attraction s i)) as H2.
  rewrite length3_attraction in H2.
  pose proof (forceMagnitude_le s Hs). pose proof (forceMagnitude_nonneg s).
  unfold speed, DAMPING.
  destruct (Rlt_dec 0.01 (length3 (displacement s i))); lra.
Qed.

(** While pinching no draw is made and no jitter added. *)
Lemma next_velocity_pinching (random : nat -> R) (s : State) (k i : nat) :
  0.01 < pinchStrength s ->
  draws_per_particle s = 0%nat /\
  displacement s i = vsub (vec_at (targetTree s) i) (position_of s i) /\
  next_velocity random s k i
    = vscale DAMPING (vadd (velocity_of s i) (attraction s i)).
Proof.
  intros Hp. unfold draws_per_particle, displacement, target_of, next_velocity,
    brownian.
  destruct (Rlt_dec 0.01 (pinchStrength s)) as [_|H]; [|contradiction].
  rewrite vadd_vzero_r. repeat split.
Qed.
End TickFacts.

(** ** Physics: the sample swarms *)

Module SwarmFacts.
Import ANIMATION_CONFIG PARTICLE_CONFIG Physics VectorFacts PhysicsFacts
       TickFacts Swarms.
Local Open Scope R_scope.

Lemma length_uniform (a : Vector3) (n : nat) :
  length (uniform a n) = (n * 3)%nat.
Proof. induction n as [|n IH]; [reflexivity|]. cbn [uniform length]. lia. Qed.

Lemma vec_at_uniform (a : Vector3) (n : nat) :
  forall i, (i < n)%nat -> vec_at (uniform a n) i = a.
Proof.
  induction n as [|n IH]; intros i Hi; [lia|].
  destruct i as [|i].
  - destruct a; reflexivity.
  - transitivity (vec_at (uniform a n) i); [|apply IH; lia].
    unfold vec_at, rd.
    replace (S i * 3)%nat with (S (S (S (i * 3)))) by lia.
    replace (S (S (S (i * 3))) + 1)%nat with (S (S (S (i * 3 + 1)))) by lia.
    replace (S (S (S (i * 3))) + 2)%nat with (S (S (S (i * 3 + 2)))) by lia.
    reflexivity.
Qed.

Lemma swarm_well_formed (p v t e : Vector3) : well_formed COUNT (swarm p v t e).
Proof.
  unfold well_formed, swarm.
  cbn [positions velocities targetTree targetExploded].
  rewrite !length_uniform. tauto.
Qed.
End SwarmFacts.

(** ** Physics: frames at pinch strength 1 *)

Module ConvergenceFacts.
Import ANIMATION_CONFIG PARTICLE_CONFIG Physics VectorFacts PhysicsFacts
       TickFacts Swarms SwarmFacts.
Local Open Scope R_scope.

(** One frame at pinch strength 1, for one particle. *)
Lemma update_pinched (random : nat -> R) (s : State) (k : nat) :
  well_formed COUNT s -> pinchStrength s = 1 ->
  let s' := fst (update random (s, k)) in
  well_formed COUNT s' /\ snd (update random (s, k)) = k /\
  targetTree s' = targetTree s /\ pinchStrength s' = 1 /\
  forall i, (i < COUNT)%nat ->
    velocity_of s' i = vscale DAMPING (vadd (velocity_of s i) (attraction s i)) /\
    position_of s' i = vadd (position_of s i) (velocity_of s' i) /\
    dist_to_tree s i = length3 (displacement s i).
Proof.
  intros Hwf Hp. cbv zeta.
  destruct (update_spec random s k Hwf) as (H1 & H2 & H3 & _ & H5 & _ & Hmove).
  cbv zeta in *.
  assert (Hpin : 0.01 < pinchStrength s) by lra.
  split; [exact H1|]. split.
  { rewrite H2. destruct (next_velocity_pinching random s k 0 Hpin) as (-> & _).
    lia. }
  split; [exact H3|]. split; [congruence|].
  intros i Hi. destruct (Hmove i Hi) as [Hv Hpos].
  destruct (next_velocity_pinching random s (k + i * draws_per_particle s) i Hpin)
    as (_ & Hd & Hn).
  rewrite Hpos, Hv, Hn. repeat split.
  unfold dist_to_tree. rewrite Hd. reflexivity.
Qed.

(** *** The dead zone traps slow particles *)

Lemma vsub_vadd (t p v : Vector3) : vsub t (vadd p v) = vsub (vsub t p) v.
Proof. unfold vsub, vadd, set. cbn [v_x v_y v_z]. f_equal; ring. Qed.

Lemma settle_step (random : nat -> R) (s : State) (k i : nat) :
  well_formed COUNT s -> pinchStrength s = 1 -> (i < COUNT)%nat ->
  dist_to_tree s i + 9 * speed s i <= 0.01 ->
  let s' := fst (update random (s, k)) in
  speed s' i = DAMPING * speed s i /\
  dist_to_tree s' i + 9 * speed s' i <= 0.01.
Proof.
  intros Hwf Hp Hi Hslow. cbv zeta.
  destruct (update_pinched random s k Hwf Hp) as (Hwf' & _ & Ht & Hp' & Hmove).
  cbv zeta in *. destruct (Hmove i Hi) as (Hv & Hpos & Hd).
  pose proof (length3_nonneg (velocity_of s i)) as Hsp. fold (speed s i) in Hsp.
  assert (Hnear : ~ 0.01 < length3 (displacement s i)) by (rewrite <- Hd; lra).
  assert (Ev : velocity_of (fst (update random (s, k))) i
               = vscale DAMPING (velocity_of s i)).
  { rewrite Hv. unfold attraction. cbv zeta.
    destruct (Rlt_dec 0.01 (length3 (displacement s i))); [contradiction|].
    rewrite vadd_vzero_r. reflexivity. }
  assert (Es : speed (fst (update random (s, k))) i = DAMPING * speed s i).
  { unfold speed. rewrite Ev, length3_vscale, Rabs_right by (unfold DAMPING; lra).
    reflexivity. }
  split; [exact Es|].
  assert (Hdist : dist_to_tree (fst (update random (s, k))) i
                  <= dist_to_tree s i + speed (fst (update random (s, k))) i).
  { unfold dist_to_tree, speed. rewrite Ht, Hpos.
    rewrite vsub_vadd. apply length3_vsub_le. }
  rewrite Es in Hdist |- *. unfold DAMPING in *. lra.
Qed.

Lemma ticks_pinched (random : nat -> R) (s : State) (k : nat) :
  well_formed COUNT s -> pinchStrength s = 1 ->
  forall n, well_formed COUNT (fst (ticks random n (s, k))) /\
            pinchStrength (fst (ticks random n (s, k))) = 1 /\
            targetTree (fst (ticks random n (s, k))) = targetTree s /\
            snd (ticks random n (s, k)) = k.
Proof.
  intros Hwf Hp. induction n as [|n (IH1 & IH2 & IH3 & IH4)]; [cbn [ticks fst snd]; tauto|].
  cbn [ticks]. destruct (ticks random n (s, k)) as [sn kn]. cbn [fst snd] in *.
  destruct (update_pinched random sn kn IH1 IH2) as (H1 & H2 & H3 & H4 & _).
  cbv zeta in *. split; [exact H1|]. split; [exact H4|].
  split; congruence.
Qed.

Lemma settle (random : nat -> R) (s : State) (k i : nat) :
  well_formed COUNT s -> pinchStrength s = 1 -> (i < COUNT)%nat ->
  dist_to_tree s i + 9 * speed s i <= 0.01 ->
  forall n,
    speed (fst (ticks random n (s, k))) i = DAMPING ^ n * speed s i /\
    dist_to_tree (fst (ticks random n (s, k))) i
      + 9 * speed (fst (ticks random n (s, k))) i <= 0.01.
Proof.
  intros Hwf Hp Hi Hslow. induction n as [|n [IHs IHd]].
  - cbn [ticks fst pow]. split; [ring | exact Hslow].
  - destruct (ticks_pinched random s k Hwf Hp n) as (Hwfn & Hpn & _ & _).
    cbn [ticks]. destruct (ticks random n (s, k)) as [sn kn]. cbn [fst snd] in *.
    destruct (settle_step random sn kn i Hwfn Hpn Hi IHd) as [Hs Hd].
    cbv zeta in *. split; [|exact Hd].
    rewrite Hs, IHs. cbn [pow]. ring.
Qed.
End ConvergenceFacts.

(** ** Approach of the tree target *)

Module ApproachFacts.
Import ANIMATION_CONFIG PARTICLE_CONFIG Physics VectorFacts PhysicsFacts
       TickFacts Swarms SwarmFacts ConvergenceFacts.
Local Open Scope R_scope.

(** The first index at which a sequence is at most [eps]. *)
Lemma first_below (f : nat -> R) (eps : R) (N : nat) :
  (forall m, (m < N)%nat -> eps < f m) \/
  (exists n, (n < N)%nat /\ f n <= eps /\ forall m, (m < n)%nat -> eps < f m).
Proof.
  induction N as [|N [IH|IH]].
  - left. intros m Hm. lia.
  - destruct (Rle_lt_dec (f N) eps) as [Hle|Hlt].
    + right. exists N. split; [lia|]. split; [exact Hle|]. exact IH.
    + left. intros m Hm. destruct (decide (m = N)) as [->|Hne]; [exact Hlt|].
      apply IH. lia.
  - right. destruct IH as (n & Hn & Hle & Hfar). exists n.
    split; [lia|]. split; assumption.
Qed.

Lemma energy_nonneg (s : State) (i : nat) : 0 <= energy s i.
Proof.
  unfold energy. cbv zeta.
  pose proof (dot_self_nonneg
    (vsub (vsub (vec_at (targetTree s) i) (position_of s i))
          (vscale 9 (velocity_of s i)))).
  pose proof (dot_self_nonneg (velocity_of s i)). lra.
Qed.

(** The step of a particle farther than 0.01 from its target, on
    vectors. *)
Lemma pull_energy (t p v : Vector3) :
  let d := vsub t p in
  0.01 < length3 d ->
  let v' := vscale DAMPING (vadd v (vscale (GRAVITY_STRENGTH * 1 / length3 d) d)) in
  let q := vsub d (vscale 9 v) in
  let q' := vsub (vsub t (vadd p v')) (vscale 9 v') in
  dot q' q' + 90 * dot v' v'
    <= dot q q + 90 * dot v v - 6.3 * length3 d + 188.5275.
Proof.
  cbv zeta. intros Hfar.
  pose proof (length3_sqr (vsub t p)) as Hsq.
  set (r := length3 (vsub t p)) in *.
  destruct t as [tx ty tz], p as [px py pz], v as [vx vy vz].
  unfold dot, vsub, vadd, vscale, set, DAMPING, GRAVITY_STRENGTH in *.
  cbn [v_x v_y v_z] in *.
  set (dx := tx - px) in *. set (dy := ty - py) in *. set (dz := tz - pz) in *.
  assert (Hr : r <> 0) by lra.
  set (ux := dx / r). set (uy := dy / r). set (uz := dz / r).
  assert (Ex : dx = r * ux) by (unfold ux; field; exact Hr).
  assert (Ey : dy = r * uy) by (unfold uy; field; exact Hr).
  assert (Ez : dz = r * uz) by (unfold uz; field; exact Hr).
  assert (Huu : ux * ux + uy * uy + uz * uz = 1).
  { unfold ux, uy, uz.
    replace (dx / r * (dx / r) + dy / r * (dy / r) + dz / r * (dz / r))
      with ((dx * dx + dy * dy + dz * dz) / (r * r)) by (field; exact Hr).
    rewrite <- Hsq. field. exact Hr. }
  assert (Fx : dx * (0.35 * 1 / r) = 0.35 * ux) by (unfold ux, Rdiv; lra).
  assert (Fy : dy * (0.35 * 1 / r) = 0.35 * uy) by (unfold uy, Rdiv; lra).
  assert (Fz : dz * (0.35 * 1 / r) = 0.35 * uz) by (unfold uz, Rdiv; lra).
  rewrite Fx, Fy, Fz.
  assert (Tx : tx = px + r * ux) by (unfold dx in Ex; lra).
  assert (Ty : ty = py + r * uy) by (unfold dy in Ey; lra).
  assert (Tz : tz = pz + r * uz) by (unfold dz in Ez; lra).
  rewrite Ex, Ey, Ez.
  clear Fx Fy Fz Ex Ey Ez Hsq. clearbody ux uy uz r. clear dx dy dz.
  subst tx ty tz.
  pose proof (Rle_0_sqr (vx - 3.15 * ux)) as H1.
  pose proof (Rle_0_sqr (vy - 3.15 * uy)) as H2.
  pose proof (Rle_0_sqr (vz - 3.15 * uz)) as H3.
  unfold Rsqr in *.
  assert (Hru : r * (ux * ux + uy * uy + uz * uz) = r) by (rewrite Huu; lra).
  lra.
Qed.

Lemma attraction_pinched (s : State) (i : nat) :
  pinchStrength s = 1 -> 0.01 < dist_to_tree s i ->
  attraction s i
    = vscale (GRAVITY_STRENGTH * 1 / dist_to_tree s i)
             (vsub (vec_at (targetTree s) i) (position_of s i)).
Proof.
  intros Hp Hfar. unfold attraction, displacement, target_of, forceMagnitude.
  cbv zeta. rewrite Hp.
  destruct (Rlt_dec 0.01 1) as [_|H]; [|lra].
  fold (dist_to_tree s i).
  destruct (Rlt_dec 0.01 (dist_to_tree s i)) as [_|H]; [|contradiction].
  reflexivity.
Qed.

(** While a particle is farther than 0.01 from its target, a frame takes
    [6.3 * dist - 188.5275] off its energy. *)
Lemma energy_step (random : nat -> R) (s : State) (k i : nat) :
  well_formed COUNT s -> pinchStrength s = 1 -> (i < COUNT)%nat ->
  0.01 < dist_to_tree s i ->
  energy (fst (update random (s, k))) i
    <= energy s i - 6.3 * dist_to_tree s i + 188.5275.
Proof.
  intros Hwf Hp Hi Hfar.
  destruct (update_pinched random s k Hwf Hp) as (_ & _ & Ht & _ & Hmove).
  cbv zeta in *. destruct (Hmove i Hi) as (Hv & Hpos & _).
  unfold energy. cbv zeta. rewrite Ht, Hpos, Hv.
  rewrite (attraction_pinched s i Hp Hfar).
  exact (pull_energy (vec_at (targetTree s) i) (position_of s i)
                     (velocity_of s i) Hfar).
Qed.

Lemma energy_ticks (random : nat -> R) (s : State) (k i : nat) (eps : R) :
  well_formed COUNT s -> pinchStrength s = 1 -> (i < COUNT)%nat ->
  30 <= eps ->
  forall n,
    (forall m, (m < n)%nat ->
       eps < dist_to_tree (fst (ticks random m (s, k))) i) ->
    energy (fst (ticks random n (s, k))) i + INR n * (6.3 * eps - 188.5275)
      <= energy s i.
Proof.
  intros Hwf Hp Hi Heps. induction n as [|n IH]; intros Hfar.
  - cbn [ticks fst INR]. lra.
  - specialize (IH (fun m Hm => Hfar m ltac:(lia))).
    pose proof (Hfar n ltac:(lia)) as Hn.
    destruct (ticks_pinched random s k Hwf Hp n) as (Hwfn & Hpn & _ & _).
    rewrite S_INR. cbn [ticks].
    destruct (ticks random n (s, k)) as [sn kn]. cbn [fst snd] in *.
    pose proof (energy_step random sn kn i Hwfn Hpn Hi ltac:(lra)) as Hstep.
    nra.
Qed.

(** A natural number above a non-negative real. *)
Lemma nat_above (x : R) : 0 <= x -> exists N : nat, x < INR N.
Proof.
  intros Hx. destruct (archimed x) as [Hup _].
  assert (Hpos : (0 < up x)%Z) by (apply lt_IZR; lra).
  exists (Z.to_nat (up x)). rewrite INR_IZR_INZ, Z2Nat.id by lia. lra.
Qed.

(** Every particle gets within [eps >= 30] of its target. *)
Lemma reach (random : nat -> R) (s : State) (k i : nat) (eps : R) :
  well_formed COUNT s -> pinchStrength s = 1 -> (i < COUNT)%nat ->
  30 <= eps ->
  exists n,
    INR n * (6.3 * eps - 188.5275) <= energy s i /\
    dist_to_tree (fst (ticks random n (s, k))) i <= eps /\
    forall m, (m < n)%nat -> eps < dist_to_tree (fst (ticks random m (s, k))) i.
Proof.
  intros Hwf Hp Hi Heps.
  pose proof (energy_nonneg s i) as He.
  set (c := 6.3 * eps - 188.5275).
  assert (Hc : 0 < c) by (unfold c; lra).
  destruct (nat_above (energy s i / c)) as [N HN].
  { apply Rmult_le_pos; [exact He | left; apply Rinv_0_lt_compat, Hc]. }
  assert (HN' : energy s i < INR N * c).
  { apply (Rmult_lt_compat_r c) in HN; [|exact Hc].
    unfold Rdiv in HN. rewrite Rmult_assoc, Rinv_l, Rmult_1_r in HN by lra.
    exact HN. }
  destruct (first_below (fun m => dist_to_tree (fst (ticks random m (s, k))) i)
                        eps N) as [Hall | (n & Hn & Hle & Hfar)].
  - pose proof (energy_ticks random s k i eps Hwf Hp Hi Heps N Hall) as H.
    pose proof (energy_nonneg (fst (ticks random N (s, k))) i). fold c in H. lra.
  - exists n. split; [|split; assumption].
    pose proof (energy_ticks random s k i eps Hwf Hp Hi Heps n Hfar) as H.
    pose proof (energy_nonneg (fst (ticks random n (s, k))) i). fold c in H. lra.
Qed.

(** *** Straight towards the target *)

Lemma unit_direction (d : Vector3) :
  0 < length3 d ->
  length3 (normalize d) = 1 /\ d = vscale (length3 d) (normalize d).
Proof.
  intros Hd. unfold normalize.
  destruct (Req_dec_T (length3 d) 0) as [H|_]; [lra|].
  split.
  - rewrite length3_vscale, Rabs_right
      by (left; apply Rinv_0_lt_compat, Hd).
    apply Rinv_l. lra.
  - rewrite vscale_vscale, Rinv_r by lra.
    destruct d as [x y z]. unfold vscale, set. cbn [v_x v_y v_z]. f_equal; ring.
Qed.

Lemma heading_dist (e : Vector3) (x w : R) (s : State) (i : nat) :
  length3 e = 1 -> 0 <= x -> heading e x w s i -> dist_to_tree s i = x.
Proof.
  intros He Hx [Hd _]. unfold dist_to_tree.
  rewrite Hd, length3_vscale, He, Rabs_right by lra. ring.
Qed.

Lemma inbound_step (random : nat -> R) (s : State) (k i : nat)
    (e : Vector3) (x w : R) :
  well_formed COUNT s -> pinchStrength s = 1 -> (i < COUNT)%nat ->
  length3 e = 1 -> heading e x w s i -> 3.15 < x -> 0 <= w <= 3.15 ->
  heading e (x - 0.9 * (w + 0.35)) (0.9 * (w + 0.35))
          (fst (update random (s, k))) i.
Proof.
  intros Hwf Hp Hi He Hh Hx Hw.
  pose proof (heading_dist e x w s i He ltac:(lra) Hh) as Hdist.
  destruct Hh as [Hd Hv0].
  destruct (update_pinched random s k Hwf Hp) as (_ & _ & Ht & _ & Hmove).
  cbv zeta in *. destruct (Hmove i Hi) as (Hv & Hpos & _).
  rewrite (attraction_pinched s i Hp ltac:(lra)), Hdist, Hd, Hv0 in Hv.
  assert (Ev : velocity_of (fst (update random (s, k))) i
               = vscale (0.9 * (w + 0.35)) e).
  { rewrite Hv. destruct e as [ex ey ez].
    unfold vscale, vadd, set, DAMPING, GRAVITY_STRENGTH. cbn [v_x v_y v_z].
    assert (Hinv : x * / x = 1) by (apply Rinv_r; lra).
    assert (Ex : ex * x * / x = ex) by (rewrite Rmult_assoc, Hinv; ring).
    assert (Ey : ey * x * / x = ey) by (rewrite Rmult_assoc, Hinv; ring).
    assert (Ez : ez * x * / x = ez) by (rewrite Rmult_assoc, Hinv; ring).
    unfold Rdiv. f_equal; lra. }
  split; [|exact Ev].
  rewrite Ht, Hpos, vsub_vadd, Hd, Ev.
  destruct e as [ex ey ez]. unfold vscale, vsub, set. cbn [v_x v_y v_z].
  f_equal; lra.
Qed.

Lemma inbound_ticks (random : nat -> R) (s : State) (k i : nat)
    (e : Vector3) (x0 w0 : R) :
  well_formed COUNT s -> pinchStrength s = 1 -> (i < COUNT)%nat ->
  length3 e = 1 -> heading e x0 w0 s i -> 0 <= x0 -> 0 <= w0 <= 3.15 ->
  forall n,
    (forall m, (m < n)%nat ->
       3.15 < dist_to_tree (fst (ticks random m (s, k))) i) ->
    exists x w,
      heading e x w (fst (ticks random n (s, k))) i /\
      0 <= x /\ 0 <= w <= 3.15 /\
      x - 9 * w = x0 - 9 * w0 - 3.15 * INR n.
Proof.
  intros Hwf Hp Hi He Hh Hx0 Hw0. induction n as [|n IH]; intros Hfar.
  - exists x0, w0. cbn [ticks fst INR].
    split; [exact Hh|]. split; [exact Hx0|]. split; [exact Hw0|]. lra.
  - destruct (IH (fun m Hm => Hfar m ltac:(lia))) as (x & w & Hxw & Hx & Hw & E).
    pose proof (Hfar n ltac:(lia)) as Hn.
    destruct (ticks_pinched random s k Hwf Hp n) as (Hwfn & Hpn & _ & _).
    rewrite S_INR. cbn [ticks].
    destruct (ticks random n (s, k)) as [sn kn]. cbn [fst snd] in *.
    rewrite (heading_dist e x w sn i He Hx Hxw) in Hn.
    exists (x - 0.9 * (w + 0.35)), (0.9 * (w + 0.35)).
    split; [apply inbound_step; assumption|].
    split; [lra|]. split; [lra|]. lra.
Qed.

(** A particle at rest, or moving straight towards its target at speed at
    most 3.15, gets at least 0.315 closer at every frame until it is within
    3.15 of the target. *)
Lemma inbound_reach (random : nat -> R) (s : State) (k i : nat) (w0 : R) :
  well_formed COUNT s -> pinchStrength s = 1 -> (i < COUNT)%nat ->
  0 <= w0 <= 3.15 ->
  velocity_of s i
    = vscale w0 (normalize (vsub (vec_at (targetTree s) i) (position_of s i))) ->
  exists n,
    INR n <= dist_to_tree s i / 3.15 + 9 /\
    dist_to_tree (fst (ticks random n (s, k))) i <= 3.15 /\
    forall m, (m < n)%nat ->
      3.15 < dist_to_tree (fst (ticks random m (s, k))) i /\
      dist_to_tree (fst (ticks random (S m) (s, k))) i + 0.315
        <= dist_to_tree (fst (ticks random m (s, k))) i.
Proof.
  intros Hwf Hp Hi Hw0 Hv0.
  pose proof (length3_nonneg
                (vsub (vec_at (targetTree s) i) (position_of s i))) as Hr0.
  fold (dist_to_tree s i) in Hr0.
  destruct (Rle_lt_dec (dist_to_tree s i) 3.15) as [Hnear|Hfar0].
  { exists 0%nat. cbn [ticks fst INR]. split; [lra|]. split; [exact Hnear|].
    intros m Hm. lia. }
  set (e := normalize (vsub (vec_at (targetTree s) i) (position_of s i))) in *.
  destruct (unit_direction (vsub (vec_at (targetTree s) i) (position_of s i)))
    as [He Hd0]; [fold (dist_to_tree s i); lra|].
  fold e in He, Hd0. fold (dist_to_tree s i) in Hd0.
  set (r0 := dist_to_tree s i) in *.
  assert (Hh : heading e r0 w0 s i) by (split; assumption).
  pose proof (inbound_ticks random s k i e r0 w0 Hwf Hp Hi He Hh Hr0 Hw0) as Hinv.
  assert (Hbound : forall n,
            (forall m, (m < S n)%nat ->
               3.15 < dist_to_tree (fst (ticks random m (s, k))) i) ->
            INR n < r0 / 3.15 + 8).
  { intros n Hfar.
    destruct (Hinv n (fun m Hm => Hfar m ltac:(lia))) as (x & w & Hxw & Hx & Hw & E).
    pose proof (Hfar n ltac:(lia)) as Hn.
    rewrite (heading_dist e x w _ i He Hx Hxw) in Hn. lra. }
  destruct (nat_above (r0 / 3.15 + 8)) as [M HM]; [lra|].
  destruct (first_below (fun m => dist_to_tree (fst (ticks random m (s, k))) i)
                        3.15 (S M)) as [Hall | (n & Hn & Hle & Hfar)].
  { pose proof (Hbound M Hall). lra. }
  exists n. split; [|split; [exact Hle|]].
  - destruct n as [|n]; [cbn [INR]; lra|].
    rewrite S_INR. pose proof (Hbound n Hfar). lra.
  - intros m Hm. split; [apply Hfar, Hm|].
    destruct (Hinv m (fun j Hj => Hfar j ltac:(lia))) as (x & w & Hxw & Hx & Hw & E).
    pose proof (Hfar m Hm) as Hfm.
    destruct (ticks_pinched random s k Hwf Hp m) as (Hwfm & Hpm & _ & _).
    cbn [ticks].
    destruct (ticks random m (s, k)) as [sm km]. cbn [fst snd] in *.
    rewrite (heading_dist e x w sm i He Hx Hxw) in Hfm |- *.
    pose proof (inbound_step random sm km i e x w Hwfm Hpm Hi He Hxw Hfm Hw) as Hs.
    assert (Hx' : 0 <= x - 0.9 * (w + 0.35)) by lra.
    rewrite (heading_dist e _ _ _ i He Hx' Hs). lra.
Qed.

(** *** The sample swarms *)

Lemma far_particle (i : nat) :
  (i < COUNT)%nat ->
  velocity_of far i
    = vscale 0 (normalize (vsub (vec_at (targetTree far) i) (position_of far i))) /\
  dist_to_tree far i = 35 /\ energy far i = 1225.
Proof.
  intros Hi.
  assert (Et : vec_at (targetTree far) i = vzero)
    by (unfold far, swarm; cbn [targetTree]; apply vec_at_uniform, Hi).
  assert (Epos : position_of far i = set 28 21 0)
    by (unfold position_of, far, swarm; cbn [positions];
        apply vec_at_uniform, Hi).
  assert (Ev : velocity_of far i = vzero)
    by (unfold velocity_of, far, swarm; cbn [velocities];
        apply vec_at_uniform, Hi).
  split; [|split].
  - rewrite Ev. unfold vscale, vzero, set. f_equal; ring.
  - unfold dist_to_tree. rewrite Et, Epos.
    apply length3_unique; [lra|].
    unfold dot, vsub, vzero, set. cbn [v_x v_y v_z]. lra.
  - unfold energy. cbv zeta. rewrite Et, Epos, Ev.
    unfold dot, vsub, vscale, vzero, set. cbn [v_x v_y v_z]. lra.
Qed.

Lemma drifting_particle (i : nat) :
  (i < COUNT)%nat ->
  dist_to_tree drifting i = 0.004 /\ speed drifting i = 0.0005.
Proof.
  intros Hi.
  assert (Et : vec_at (targetTree drifting) i = vzero)
    by (unfold drifting, swarm; cbn [targetTree]; apply vec_at_uniform, Hi).
  assert (Epos : position_of drifting i = set 0.004 0 0)
    by (unfold position_of, drifting, swarm; cbn [positions];
        apply vec_at_uniform, Hi).
  assert (Ev : velocity_of drifting i = set 0.0005 0 0)
    by (unfold velocity_of, drifting, swarm; cbn [velocities];
        apply vec_at_uniform, Hi).
  split.
  - unfold dist_to_tree. rewrite Et, Epos.
    apply length3_unique; [lra|].
    unfold dot, vsub, vzero, set. cbn [v_x v_y v_z]. lra.
  - unfold speed. rewrite Ev.
    apply length3_unique; [lra|].
    unfold dot, set. cbn [v_x v_y v_z]. lra.
Qed.
End ApproachFacts.

(** ** Physics: a swarm that never comes closer *)

Module OrbitFacts.
Import ANIMATION_CONFIG PARTICLE_CONFIG Physics VectorFacts PhysicsFacts
       TickFacts Swarms SwarmFacts ConvergenceFacts.
Local Open Scope R_scope.

Lemma phase_orbit : phase 1 orbit.
Proof.
  split; [apply swarm_well_formed|]. split; [reflexivity|].
  split; [reflexivity|]. intros i Hi.
  unfold position_of, velocity_of, orbit, swarm. cbn [positions velocities].
  rewrite !vec_at_uniform by exact Hi. split; unfold set; f_equal; lra.
Qed.

Lemma phase_dist (sigma : R) (s : State) (i : nat) :
  sigma = 1 \/ sigma = -1 -> phase sigma s -> (i < COUNT)%nat ->
  dist_to_tree s i = 63 / 760.
Proof.
  intros Hsig (_ & _ & Ht & Hall) Hi. destruct (Hall i Hi) as [Hp _].
  unfold dist_to_tree. rewrite Ht, Hp, vec_at_uniform by exact Hi.
  apply length3_unique; [lra|]. unfold dot, vsub, vzero, set. cbn [v_x v_y v_z].
  destruct Hsig as [-> | ->]; field.
Qed.

(** A frame turns each phase into the opposite one. *)
Lemma phase_flips (random : nat -> R) (sigma : R) (s : State) (k : nat) :
  sigma = 1 \/ sigma = -1 -> phase sigma s ->
  phase (- sigma) (fst (update random (s, k))).
Proof.
  intros Hsig Hph. pose proof Hph as (Hwf & Hp & Ht & Hall).
  destruct (update_pinched random s k Hwf Hp) as (Hwf' & _ & Ht' & Hp' & Hmove).
  cbv zeta in *.
  split; [exact Hwf'|]. split; [exact Hp'|]. split; [congruence|].
  intros i Hi. destruct (Hmove i Hi) as (Hv & Hpos & Hd).
  destruct (Hall i Hi) as [Epos Evel].
  assert (Edist : length3 (displacement s i) = 63 / 760)
    by (rewrite <- Hd; eapply phase_dist; eassumption).
  assert (Edisp : displacement s i = set (- sigma * (63 / 760)) 0 0).
  { unfold displacement, target_of.
    destruct (Rlt_dec 0.01 (pinchStrength s)) as [_|H]; [|lra].
    rewrite Ht, Epos, vec_at_uniform by exact Hi.
    unfold vsub, vzero, set. cbn [v_x v_y v_z]. f_equal; ring. }
  assert (Eatt : attraction s i = set (- sigma * 0.35) 0 0).
  { unfold attraction. cbv zeta. rewrite Edist.
    destruct (Rlt_dec 0.01 (63 / 760)) as [_|H]; [|lra].
    unfold forceMagnitude.
    destruct (Rlt_dec 0.01 (pinchStrength s)) as [_|H]; [|lra].
    rewrite Edisp, Hp. unfold vscale, set, GRAVITY_STRENGTH. cbn [v_x v_y v_z].
    f_equal; field. }
  assert (Ev' : velocity_of (fst (update random (s, k))) i
                = set (- sigma * (63 / 380)) 0 0).
  { rewrite Hv, Evel, Eatt. unfold vscale, vadd, set, DAMPING.
    cbn [v_x v_y v_z]. f_equal; lra. }
  split; [|exact Ev'].
  rewrite Hpos, Ev', Epos. unfold vadd, set. cbn [v_x v_y v_z]. f_equal; lra.
Qed.

Lemma phase_forever (random : nat -> R) (k : nat) :
  forall n, exists sigma,
    (sigma = 1 \/ sigma = -1) /\ phase sigma (fst (ticks random n (orbit, k))).
Proof.
  induction n as [|n (sigma & Hsig & Hph)].
  - exists 1. split; [left; reflexivity | apply phase_orbit].
  - exists (- sigma). split; [destruct Hsig as [-> | ->]; [right | left]; lra|].
    cbn [ticks]. destruct (ticks random n (orbit, k)) as [sn kn].
    apply phase_flips; assumption.
Qed.
End OrbitFacts.

(** ** Physics: a swarm at rest inside the dead zone *)

Module RestFacts.
Import ANIMATION_CONFIG PARTICLE_CONFIG Physics VectorFacts PhysicsFacts
       TickFacts Swarms SwarmFacts ConvergenceFacts.
Local Open Scope R_scope.

Lemma at_rest_resting : at_rest resting.
Proof.
  split; [apply swarm_well_formed|]. split; [reflexivity|].
  split; [reflexivity|]. intros i Hi.
  unfold position_of, velocity_of, resting, swarm. cbn [positions velocities].
  rewrite !vec_at_uniform by exact Hi. split; reflexivity.
Qed.

Lemma at_rest_dist (s : State) (i : nat) :
  at_rest s -> (i < COUNT)%nat -> dist_to_tree s i = 0.005.
Proof.
  intros (_ & _ & Ht & Hall) Hi. destruct (Hall i Hi) as [Hp _].
  unfold dist_to_tree. rewrite Ht, Hp, vec_at_uniform by exact Hi.
  apply length3_unique; [lra|]. unfold dot, vsub, vzero, set. cbn [v_x v_y v_z].
  lra.
Qed.

Lemma at_rest_stays (random : nat -> R) (s : State) (k : nat) :
  at_rest s -> at_rest (fst (update random (s, k))).
Proof.
  intros Hr. pose proof Hr as (Hwf & Hp & Ht & Hall).
  destruct (update_pinched random s k Hwf Hp) as (Hwf' & _ & Ht' & Hp' & Hmove).
  cbv zeta in *.
  split; [exact Hwf'|]. split; [exact Hp'|]. split; [congruence|].
  intros i Hi. destruct (Hmove i Hi) as (Hv & Hpos & Hd).
  destruct (Hall i Hi) as [Epos Evel].
  assert (Edist : length3 (displacement s i) = 0.005)
    by (rewrite <- Hd; apply at_rest_dist; assumption).
  assert (Ev' : velocity_of (fst (update random (s, k))) i = vzero).
  { rewrite Hv, Evel. unfold attraction. cbv zeta. rewrite Edist.
    destruct (Rlt_dec 0.01 0.005) as [H|_]; [lra|].
    unfold vscale, vadd, vzero, set, DAMPING. cbn [v_x v_y v_z]. f_equal; lra. }
  split; [|exact Ev'].
  rewrite Hpos, Ev', Epos. unfold vadd, vzero, set. cbn [v_x v_y v_z].
  f_equal; lra.
Qed.

Lemma at_rest_forever (random : nat -> R) (k : nat) :
  forall n, at_rest (fst (ticks random n (resting, k))).
Proof.
  induction n as [|n IH]; [apply at_rest_resting|].
  cbn [ticks]. destruct (ticks random n (resting, k)) as [sn kn].
  apply at_rest_stays, IH.
Qed.
End RestFacts.

(** ** Physics: speed stays bounded *)

Module BoundFacts.
Import ANIMATION_CONFIG PARTICLE_CONFIG Physics VectorFacts PhysicsFacts
       TickFacts.
Local Open Scope R_scope.

Lemma fold_left_cons {A B : Type} (f : A -> B -> A) (x : B) (l : list B) (a : A) :
  fold_left f (x :: l) a = fold_left f l (f a x).
Proof. reflexivity. Qed.

Lemma frames_cons (random : nat -> R) (input : option (bool * R))
    (rest : list (option (bool * R))) (acc : State * nat) :
  frames random (input :: rest) acc
    = frames random rest (update random (apply_input input (fst acc), snd acc)).
Proof.
  exact (fold_left_cons
           (fun acc input => update random (apply_input input (fst acc), snd acc))
           input rest acc).
Qed.

Lemma apply_input_spec (input : option (bool * R)) (s : State) (i : nat) :
  bounded_input input -> well_formed COUNT s -> pinchStrength s <= 1 ->
  well_formed COUNT (apply_input input s) /\
  pinchStrength (apply_input input s) <= 1 /\
  speed (apply_input input s) i = speed s i.
Proof.
  intros Hin Hwf Hp. destruct input as [[b strength]|]; cbn [apply_input].
  - split; [exact Hwf|]. split; [exact Hin | reflexivity].
  - split; [exact Hwf|]. split; [exact Hp | reflexivity].
Qed.

(** Frames with gesture callbacks in between: the speed of a particle never
    exceeds the larger of its initial speed and 3.42. *)
Lemma frames_speed_bound (random : nat -> R) (i : nat) (M : R) :
  (forall j, 0 <= random j < 1) -> (i < COUNT)%nat -> 3.42 <= M ->
  forall (inputs : list (option (bool * R))) (acc : State * nat),
    well_formed COUNT (fst acc) -> pinchStrength (fst acc) <= 1 ->
    speed (fst acc) i <= M ->
    Forall bounded_input inputs ->
    speed (fst (frames random inputs acc)) i <= M.
Proof.
  intros Hr Hi HM. induction inputs as [|input rest IH];
    intros acc Hwf Hp Hs Hall; [exact Hs|].
  inversion Hall as [|? ? Hin Hrest]; subst.
  rewrite frames_cons.
  destruct (apply_input_spec input (fst acc) i Hin Hwf Hp) as (Hwf1 & Hp1 & Hs1).
  destruct (update_spec random (apply_input input (fst acc)) (snd acc) Hwf1)
    as (Hwf' & _ & _ & _ & Hp' & _ & Hmove).
  destruct (Hmove i Hi) as [Hv _].
  apply IH; [exact Hwf' | rewrite Hp'; exact Hp1 | | exact Hrest].
  unfold speed at 1. rewrite Hv.
  pose proof (next_velocity_bound random (apply_input input (fst acc))
                (snd acc + i * draws_per_particle (apply_input input (fst acc)))
                i Hr Hp1) as Hb.
  rewrite Hs1 in Hb. lra.
Qed.
End BoundFacts.

(** ** Claims about the physics *)

Module PhysicsClaims.
Import ANIMATION_CONFIG PARTICLE_CONFIG Physics VectorFacts PhysicsFacts
       TickFacts Swarms SwarmFacts ConvergenceFacts ApproachFacts OrbitFacts
       RestFacts BoundFacts.
Local Open Scope R_scope.

(** Claim C4: in an animation frame, for every particle [i], the target is
    [Tree[i]] if [pinchStrength > 0.01] and [Exploded[i]] otherwise; with
    [d] the displacement to it and [force] equal to
    [gravityStrength * pinchStrength] in the first case and to
    [explosionStrength] in the second, the velocity is incremented by
    [d * (force / |d|)] when [|d| > 0.01] (and not at all otherwise), then
    by the Brownian increment, then damped, and the position moves by the
    result; and the attraction increment equals [normalize(d) * force] and
    has length [force]. *)
Theorem constant_magnitude_attraction
    (random : nat -> R) (s : State) (k i : nat) :
  well_formed COUNT s -> (i < COUNT)%nat ->
  let s' := fst (update random (s, k)) in
  let target :=
    if Rlt_dec 0.01 (pinchStrength s)
    then vec_at (targetTree s) i else vec_at (targetExploded s) i in
  let force :=
    if Rlt_dec 0.01 (pinchStrength s)
    then GRAVITY_STRENGTH * pinchStrength s else EXPLOSION_STRENGTH in
  let d := vsub target (position_of s i) in
  let increment :=
    if Rlt_dec 0.01 (length3 d) then vscale (force / length3 d) d else vzero in
  velocity_of s' i
    = vscale DAMPING
        (vadd (vadd (velocity_of s i) increment)
              (brownian random s (k + i * draws_per_particle s))) /\
  position_of s' i = vadd (position_of s i) (velocity_of s' i) /\
  (0.01 < length3 d ->
   increment = vscale force (normalize d) /\ length3 increment = force).
Proof.
  intros Hwf Hi. cbv zeta.
  destruct (update_spec random s k Hwf) as (_ & _ & _ & _ & _ & _ & Hmove).
  destruct (Hmove i Hi) as [Hv Hp]. rewrite Hp, Hv.
  split; [reflexivity|]. split; [reflexivity|].
  intros Hd. fold (target_of s i). fold (forceMagnitude s).
  fold (target_of s i) in Hd.
  destruct (Rlt_dec 0.01 (length3 (vsub (target_of s i) (position_of s i))))
    as [_|H]; [|contradiction].
  apply constant_magnitude; [lra | apply forceMagnitude_nonneg].
Qed.

Lemma constant_magnitude_attraction_witness :
  well_formed COUNT orbit /\ (7 < COUNT)%nat /\
  let s' := fst (update no_jitter (orbit, 0%nat)) in
  let target :=
    if Rlt_dec 0.01 (pinchStrength orbit)
    then vec_at (targetTree orbit) 7 else vec_at (targetExploded orbit) 7 in
  let force :=
    if Rlt_dec 0.01 (pinchStrength orbit)
    then GRAVITY_STRENGTH * pinchStrength orbit else EXPLOSION_STRENGTH in
  let d := vsub target (position_of orbit 7) in
  let increment :=
    if Rlt_dec 0.01 (length3 d) then vscale (force / length3 d) d else vzero in
  velocity_of s' 7
    = vscale DAMPING
        (vadd (vadd (velocity_of orbit 7) increment)
              (brownian no_jitter orbit (0 + 7 * draws_per_particle orbit))).
Proof.
  assert (Hwf : well_formed COUNT orbit) by apply swarm_well_formed.
  assert (Hi : (7 < COUNT)%nat) by (unfold COUNT; lia).
  split; [exact Hwf|]. split; [exact Hi|].
  exact (proj1 (constant_magnitude_attraction no_jitter orbit 0 7 Hwf Hi)).
Defined.




(** Claim C7: in every frame and for every particle, the new velocity is
    [damping] (0.90) times the velocity after the attraction and Brownian
    increments, in every branch; damping never lengthens a vector, and when
    no force acts (pinching, within 0.01 of the target) the speed after the
    frame is [damping] times the speed before, hence not larger; and when
    pinch strengths stay at most 1 and draws in [0, 1), so that the
    increments per frame are bounded, the speed stays below the larger of
    the initial speed and 3.42 over any sequence of frames and gesture
    callbacks. *)
Theorem velocity_damped_and_bounded
    (random : nat -> R) (s : State) (k i : nat) :
  well_formed COUNT s -> (i < COUNT)%nat ->
  (DAMPING = 0.9 /\
   velocity_of (fst (update random (s, k))) i
     = vscale DAMPING
         (vadd (vadd (velocity_of s i) (attraction s i))
               (brownian random s (k + i * draws_per_particle s)))) /\
  (forall v : Vector3,
      length3 (vscale DAMPING v) = DAMPING * length3 v /\
      length3 (vscale DAMPING v) <= length3 v) /\
  (0.01 < pinchStrength s -> length3 (displacement s i) <= 0.01 ->
   speed (fst (update random (s, k))) i = DAMPING * speed s i /\
   speed (fst (update random (s, k))) i <= speed s i) /\
  ((forall j, 0 <= random j < 1) -> pinchStrength s <= 1 ->
   forall inputs : list (option (bool * R)),
     Forall bounded_input inputs ->
     speed (fst (frames random inputs (s, k))) i <= Rmax (speed s i) 3.42).
Proof.
  intros Hwf Hi.
  destruct (update_spec random s k Hwf) as (_ & _ & _ & _ & _ & _ & Hmove).
  destruct (Hmove i Hi) as [Hv _].
  assert (Hdamp : forall v : Vector3,
             length3 (vscale DAMPING v) = DAMPING * length3 v /\
             length3 (vscale DAMPING v) <= length3 v).
  { intros v. rewrite length3_vscale, Rabs_right by (unfold DAMPING; lra).
    pose proof (length3_nonneg v). unfold DAMPING. split; lra. }
  split; [split; [unfold DAMPING; lra | exact Hv]|].
  split; [exact Hdamp|]. split.
  - intros Hpin Hnear. unfold speed. rewrite Hv.
    destruct (next_velocity_pinching random s (k + i * draws_per_particle s) i Hpin)
      as (_ & _ & Hn).
    rewrite Hn. unfold attraction. cbv zeta.
    destruct (Rlt_dec 0.01 (length3 (displacement s i))) as [H|_]; [lra|].
    rewrite vadd_vzero_r. apply Hdamp.
  - intros Hr Hp inputs Hall.
    apply (frames_speed_bound random i (Rmax (speed s i) 3.42) Hr Hi
             (Rmax_r _ _) inputs (s, k) Hwf Hp (Rmax_l _ _) Hall).
Qed.

Lemma velocity_damped_and_bounded_witness :
  well_formed COUNT orbit /\ (3 < COUNT)%nat /\
  (forall j : nat, 0 <= no_jitter j < 1) /\ pinchStrength orbit <= 1 /\
  Forall bounded_input [None; Some (false, 0); None; Some (true, 0.75)] /\
  speed (fst (frames no_jitter [None; Some (false, 0); None; Some (true, 0.75)]
                     (orbit, 0%nat))) 3
    <= Rmax (speed orbit 3) 3.42.
Proof.
  assert (Hwf : well_formed COUNT orbit) by apply swarm_well_formed.
  assert (Hi : (3 < COUNT)%nat) by (unfold COUNT; lia).
  assert (Hr : forall j : nat, 0 <= no_jitter j < 1)
    by (intros j; unfold no_jitter; lra).
  assert (Hp : pinchStrength orbit <= 1) by (cbn [orbit swarm pinchStrength]; lra).
  assert (Hall : Forall bounded_input
                        [None; Some (false, 0); None; Some (true, 0.75)]).
  { repeat constructor; cbn [bounded_input]; lra. }
  split; [exact Hwf|]. split; [exact Hi|]. split; [exact Hr|].
  split; [exact Hp|]. split; [exact Hall|].
  exact (proj2 (proj2 (proj2
           (velocity_damped_and_bounded no_jitter orbit 0 3 Hwf Hi)))
           Hr Hp _ Hall).
Defined.
End PhysicsClaims.

(** ** Shapes: the exploded generator in closed form *)

Module ShapesFacts.
Import PARTICLE_CONFIG Shapes.
Local Open Scope R_scope.

Lemma exploded_body_fills (i : nat) (pre rest : list R) (random : nat -> R)
    (drawn : nat) :
  length pre = (i * 3)%nat ->
  exploded_body i (pre ++ 0 :: 0 :: 0 :: rest) random drawn
    = (pre ++ exploded_point i ++ rest, drawn).
Proof.
  intros Hlen. unfold exploded_body, ret, wr, exploded_point. cbv zeta.
  f_equal.
  rewrite (insert_app_r_alt pre _ (i * 3)) by lia.
  rewrite (insert_app_r_alt pre _ (i * 3 + 1)) by lia.
  rewrite (insert_app_r_alt pre _ (i * 3 + 2)) by lia.
  rewrite Hlen.
  replace (i * 3 - i * 3)%nat with 0%nat by lia.
  replace (i * 3 + 1 - i * 3)%nat with 1%nat by lia.
  replace (i * 3 + 2 - i * 3)%nat with 2%nat by lia.
  reflexivity.
Qed.

(** The loop from index [a] on, over an array whose first [a] particles
    are written and whose remaining [n] are still zero. *)
Lemma exploded_loop (random : nat -> R) (drawn : nat) (n : nat) :
  forall (a : nat) (pre : list R),
    length pre = (a * 3)%nat ->
    for_each (seq a n) exploded_body (pre ++ repeat 0 (n * 3)) random drawn
      = (pre ++ flat_map exploded_point (seq a n), drawn).
Proof.
  induction n as [|n IH]; intros a pre Hlen.
  - cbn [seq for_each flat_map repeat Nat.mul]. reflexivity.
  - cbn [seq for_each flat_map]. unfold bind.
    replace (S n * 3)%nat with (S (S (S (n * 3)))) by lia.
    cbn [repeat]. rewrite (exploded_body_fills a pre _ random drawn Hlen).
    replace (pre ++ exploded_point a ++ repeat 0 (n * 3))
      with ((pre ++ exploded_point a) ++ repeat 0 (n * 3))
      by (rewrite <- app_assoc; reflexivity).
    rewrite IH by (rewrite length_app, Hlen; cbn [exploded_point length]; lia).
    rewrite <- app_assoc. reflexivity.
Qed.

(** The generator in closed form: no draw is made, and the array lists
    [exploded_point i] for [i] from 0 to [particleCount - 1]. *)
Lemma calculateExplodedParticlePositions_closed
    (particleCount : nat) (random : nat -> R) (drawn : nat) :
  calculateExplodedParticlePositions particleCount random drawn
    = (flat_map exploded_point (seq 0 particleCount), drawn).
Proof.
  unfold calculateExplodedParticlePositions, for_upto, Float32Array.
  exact (exploded_loop random drawn particleCount 0 [] eq_refl).
Qed.

Lemma length_flat_map_exploded (l : list nat) :
  length (flat_map exploded_point l) = (length l * 3)%nat.
Proof.
  induction l as [|i l IH]; [reflexivity|].
  cbn [flat_map]. rewrite length_app, IH. cbn [exploded_point length]. lia.
Qed.
End ShapesFacts.

(** ** Claims about the shape generators *)

Module ShapesClaims.
Import PARTICLE_CONFIG Shapes.
Local Open Scope R_scope.

(** A loop whose body makes between [lo] and [hi] draws makes between
    [lo] and [hi] draws per index. *)
Lemma for_each_draws {S : Type} (body : nat -> S -> Gen S) (lo hi : nat)
    (random : nat -> R) :
  (forall i s drawn,
      (drawn + lo <= snd (body i s random drawn) <= drawn + hi)%nat) ->
  forall (indices : list nat) (s : S) (drawn : nat),
    (drawn + length indices * lo
     <= snd (for_each indices body s random drawn)
     <= drawn + length indices * hi)%nat.
Proof.
  intros Hbody. induction indices as [|i rest IH]; intros s drawn.
  - cbn [for_each length]. unfold ret. cbn [snd]. lia.
  - cbn [for_each length]. unfold bind.
    pose proof (Hbody i s drawn) as Hi.
    destruct (body i s random drawn) as [s1 drawn1]. cbn [snd] in Hi.
    pose proof (IH s1 drawn1). lia.
Qed.

(** Unlike the exploded generator, the tree generator calls [Math.random]:
    four or five times per particle. *)
Lemma calculateTreeParticlePositions_draws
    (particleCount : nat) (random : nat -> R) (drawn : nat) :
  (drawn + particleCount * 4
   <= snd (calculateTreeParticlePositions particleCount random drawn)
   <= drawn + particleCount * 5)%nat.
Proof.
  unfold calculateTreeParticlePositions, for_upto.
  match goal with
  | |- context [for_each _ ?body ?s0] =>
      pose proof (for_each_draws body 4 5 random) as H;
      specialize (fun Hb => H Hb (seq 0 particleCount) s0 drawn)
  end.
  rewrite length_seq in H. apply H. clear H.
  intros i s d. unfold bind, Math_random, ret.
  destruct (Rlt_dec _ _); cbn [snd]; lia.
Qed.

Lemma setupParticleSystem_exploded (random : nat -> R) (drawn : nat) :
  Physics.positions (fst (setupParticleSystem random drawn))
    = flat_map exploded_point (seq 0 COUNT) /\
  Physics.targetExploded (fst (setupParticleSystem random drawn))
    = flat_map exploded_point (seq 0 COUNT).
Proof.
  unfold setupParticleSystem, bind.
  rewrite ShapesFacts.calculateExplodedParticlePositions_closed.
  destruct (calculateTreeParticlePositions COUNT random drawn) as [tree drawn1].
  rewrite ShapesFacts.calculateExplodedParticlePositions_closed.
  unfold ret. cbn [fst Physics.positions Physics.targetExploded]. tauto.
Qed.

(** Claim C9: for every particle count, two calls of
    [calculateExplodedParticlePositions] return element-wise equal arrays
    whatever the random source and however many draws were made before
    each call; the generator itself makes no draw, and its result has three
    entries per particle, [(noise3D - 0.5) * 60] at [(i,0,0)], [(0,i,0)] and
    [(0,0,i)]; in particular the arrays [positions] and [targetExploded]
    that [setupParticleSystem] computes before and after the tree generator
    has drawn random numbers are equal. *)
Theorem exploded_generator_is_deterministic (particleCount : nat) :
  (forall (random1 random2 : nat -> R) (drawn1 drawn2 : nat),
      fst (calculateExplodedParticlePositions particleCount random1 drawn1)
        = fst (calculateExplodedParticlePositions particleCount random2 drawn2)) /\
  (forall (random : nat -> R) (drawn : nat),
      snd (calculateExplodedParticlePositions particleCount random drawn) = drawn /\
      length (fst (calculateExplodedParticlePositions particleCount random drawn))
        = (particleCount * 3)%nat /\
      fst (calculateExplodedParticlePositions particleCount random drawn)
        = flat_map exploded_point (seq 0 particleCount)) /\
  (forall (random1 random2 : nat -> R) (drawn1 drawn2 : nat),
      Physics.positions (fst (setupParticleSystem random1 drawn1))
        = Physics.targetExploded (fst (setupParticleSystem random2 drawn2))).
Proof.
  split; [|split].
  - intros random1 random2 drawn1 drawn2.
    rewrite !ShapesFacts.calculateExplodedParticlePositions_closed. reflexivity.
  - intros random drawn.
    rewrite ShapesFacts.calculateExplodedParticlePositions_closed.
    cbn [fst snd]. split; [reflexivity|]. split; [|reflexivity].
    rewrite ShapesFacts.length_flat_map_exploded, length_seq. reflexivity.
  - intros random1 random2 drawn1 drawn2.
    rewrite (proj1 (setupParticleSystem_exploded random1 drawn1)).
    rewrite (proj2 (setupParticleSystem_exploded random2 drawn2)). reflexivity.
Qed.
End ShapesClaims.

(** ** The classifier: exclusive flags, the heights it reads *)

Module PoseProperties.
Import GESTURE_THRESHOLDS JsNum Gesture GestureFacts Poses.
Local Open Scope Q_scope.

(** A finger is never curled and extended at once: the curl thresholds are
    below the extension thresholds. *)
Lemma curled_not_extended (d : Q) : ltb d 0.12 && gtb d 0.15 = false.
Proof.
  destruct (ltb d 0.12) eqn:Ec; [|reflexivity]. cbn [andb].
  apply gtb_false. apply ltb_true in Ec. apply Qlt_le_weak.
  eapply Qlt_trans; [exact Ec | reflexivity].
Qed.

(** The shape of every descriptor the classifier returns: four curl flags,
    four extension flags and the thumb's curl flag, no finger having both
    of its flags. *)
Lemma descriptor_shape (landmarks : option (list Landmark)) (fs : FingerState) :
  calculateFingerStates landmarks = Some fs ->
  exists ci cm cr cp ei em er ep ct : bool,
    ci && ei = false /\ cm && em = false /\ cr && er = false /\
    cp && ep = false /\
    fingersCurled fs = count_true [ci; cm; cr; cp] /\
    fingersExtended fs = count_true [ei; em; er; ep] /\
    isFist fs = (3 <=? count_true [ci; cm; cr; cp])%nat && ct /\
    isOneFinger fs = ei && negb em && negb er && negb ep /\
    isTwoFingers fs = ei && em && negb er && negb ep /\
    isThreeFingers fs = ei && em && er && negb ep.
Proof.
  intros E. destruct landmarks as [lms|]; [|discriminate].
  destruct (Nat.lt_ge_cases (length lms) 21) as [Hlt|Hge].
  { rewrite (calculateFingerStates_short lms Hlt) in E. discriminate. }
  destruct (calculateFingerStates_long lms Hge)
    as (w & t & i & m & r & p & b & _ & _ & _ & _ & _ & _ & _ & E').
  rewrite E' in E. injection E as <-.
  exists (ltb (ydist i b) INDEX_CURLED), (ltb (ydist m b) MIDDLE_CURLED),
    (ltb (ydist r b) RING_CURLED), (ltb (ydist p b) PINKY_CURLED),
    (gtb (ydist i b) INDEX_EXTENDED), (gtb (ydist m b) MIDDLE_EXTENDED),
    (gtb (ydist r b) RING_EXTENDED), (gtb (ydist p b) PINKY_EXTENDED),
    (ltb (ydist t b) THUMB_CURLED).
  repeat (split; [apply curled_not_extended|]).
  cbn [fingersCurled fingersExtended isFist isOneFinger isTwoFingers
       isThreeFingers].
  repeat split.
Qed.

(** X1.  Whatever hand the classifier accepts, at most one of the flags
    [isOneFinger], [isTwoFingers] and [isThreeFingers] is set. *)
Theorem finger_counts_exclusive
    (landmarks : option (list Landmark)) (fs : FingerState) :
  calculateFingerStates landmarks = Some fs ->
  isOneFinger fs && isTwoFingers fs = false /\
  isOneFinger fs && isThreeFingers fs = false /\
  isTwoFingers fs && isThreeFingers fs = false.
Proof.
  intros E.
  destruct (descriptor_shape landmarks fs E)
    as (ci & cm & cr & cp & ei & em & er & ep & ct & _ & _ & _ & _ & _ & _ & _
        & -> & -> & ->).
  destruct ei, em, er, ep; repeat split; reflexivity.
Qed.

(** X2.  A fist is never reported together with two or three fingers
    (it can be with one, the index up), and no finger is counted both as
    curled and as extended: the two counts add up to at most 4. *)
Theorem fist_excludes_two_and_three
    (landmarks : option (list Landmark)) (fs : FingerState) :
  calculateFingerStates landmarks = Some fs ->
  isFist fs && isTwoFingers fs = false /\
  isFist fs && isThreeFingers fs = false /\
  (fingersCurled fs + fingersExtended fs <= 4)%nat.
Proof.
  intros E.
  destruct (descriptor_shape landmarks fs E)
    as (ci & cm & cr & cp & ei & em & er & ep & ct & Hi & Hm & Hr & Hp & ->
        & -> & -> & _ & -> & ->).
  destruct ci, cm, cr, cp, ei, em, er, ep; try discriminate;
    destruct ct; repeat split; cbn; lia.
Qed.

Lemma finger_counts_exclusive_witness :
  exists fs,
    calculateFingerStates (Some Samples.two_fingers) = Some fs /\
    isTwoFingers fs = true /\
    isOneFinger fs && isTwoFingers fs = false /\
    isOneFinger fs && isThreeFingers fs = false /\
    isTwoFingers fs && isThreeFingers fs = false.
Proof.
  eexists. split; [vm_compute; reflexivity|]. split; [reflexivity|].
  apply (finger_counts_exclusive (Some Samples.two_fingers)).
  vm_compute; reflexivity.
Defined.

Lemma fist_excludes_two_and_three_witness :
  exists fs,
    calculateFingerStates (Some Samples.fist) = Some fs /\
    isFist fs = true /\
    isFist fs && isTwoFingers fs = false /\
    isFist fs && isThreeFingers fs = false /\
    (fingersCurled fs + fingersExtended fs <= 4)%nat.
Proof.
  eexists. split; [vm_compute; reflexivity|]. split; [reflexivity|].
  apply (fist_excludes_two_and_three (Some Samples.fist)).
  vm_compute; reflexivity.
Defined.

(** The height of a landmark that both hands have at an index they agree
    on. *)
Lemma same_height_at (lms lms' : list Landmark) (j : nat) (a a' : Landmark) :
  lm_y <$> lms' !! j = lm_y <$> lms !! j ->
  lms !! j = Some a -> lms' !! j = Some a' -> lm_y a' = lm_y a.
Proof. intros E H H'. rewrite H, H' in E. injection E as E. exact E. Qed.

(** X3.  The counts and the four gesture flags are functions of six
    numbers, the heights [y] of the five finger tips (landmarks 4, 8, 12,
    16, 20) and of the palm base (landmark 9): two arrays of at least 21
    landmarks that have the same six heights are accepted with the same
    counts and flags, whatever their other coordinates, their other
    landmarks and their lengths. *)
Theorem classification_reads_six_heights (lms lms' : list Landmark) :
  (21 <= length lms)%nat -> (21 <= length lms')%nat ->
  same_heights lms lms' ->
  is_Some (calculateFingerStates (Some lms)) /\
  flags <$> calculateFingerStates (Some lms')
    = flags <$> calculateFingerStates (Some lms).
Proof.
  intros Hge Hge' Hsame.
  destruct (calculateFingerStates_long lms Hge)
    as (w & t & i & m & r & p & b & Hw & Ht & Hi & Hm & Hr & Hp & Hb & E).
  destruct (calculateFingerStates_long lms' Hge')
    as (w' & t' & i' & m' & r' & p' & b' & Hw' & Ht' & Hi' & Hm' & Hr' & Hp'
        & Hb' & E').
  unfold same_heights, read_indices in Hsame.
  inversion Hsame as [|? ? H4 Hs1]; subst.
  inversion Hs1 as [|? ? H8 Hs2]; subst.
  inversion Hs2 as [|? ? H12 Hs3]; subst.
  inversion Hs3 as [|? ? H16 Hs4]; subst.
  inversion Hs4 as [|? ? H20 Hs5]; subst.
  inversion Hs5 as [|? ? H9 _]; subst.
  pose proof (same_height_at lms lms' _ _ _ H4 Ht Ht') as Et.
  pose proof (same_height_at lms lms' _ _ _ H8 Hi Hi') as Ei.
  pose proof (same_height_at lms lms' _ _ _ H12 Hm Hm') as Em.
  pose proof (same_height_at lms lms' _ _ _ H16 Hr Hr') as Er.
  pose proof (same_height_at lms lms' _ _ _ H20 Hp Hp') as Ep.
  pose proof (same_height_at lms lms' _ _ _ H9 Hb Hb') as Eb.
  rewrite E, E'. split; [eexists; reflexivity|].
  cbn [fmap option_fmap option_map flags fingersCurled fingersExtended
       isFist isOneFinger isTwoFingers isThreeFingers].
  unfold ydist. rewrite Et, Ei, Em, Er, Ep, Eb. reflexivity.
Qed.

Lemma classification_reads_six_heights_witness :
  (21 <= length Samples.three_fingers)%nat /\
  (21 <= length (displaced Samples.three_fingers))%nat /\
  same_heights Samples.three_fingers (displaced Samples.three_fingers) /\
  displaced Samples.three_fingers !! 0%nat
    = Some {| lm_x := 0.5 + 0.25; lm_y := 1 - 0.9; lm_z := 0 - 0.5 |} /\
  flags <$> calculateFingerStates (Some (displaced Samples.three_fingers))
    = Some (1%nat, 3%nat, false, false, false, true).
Proof.
  assert (H : (21 <= length Samples.three_fingers)%nat) by (cbn; lia).
  assert (H' : (21 <= length (displaced Samples.three_fingers))%nat)
    by (cbn; lia).
  assert (Hs : same_heights Samples.three_fingers
                            (displaced Samples.three_fingers))
    by (repeat constructor).
  split; [exact H|]. split; [exact H'|]. split; [exact Hs|].
  split; [reflexivity|].
  rewrite (proj2 (classification_reads_six_heights _ _ H H' Hs)).
  vm_compute. reflexivity.
Defined.
End PoseProperties.

(** ** The dispatcher: one frame, the latches, unmounting *)

Module StreamProperties.
Import JsNum Gesture GestureFacts Dispatcher DispatcherFacts Streams
       PoseProperties Samples.
Local Open Scope Q_scope.

(** The handler's three outcomes on a frame it does not classify, and its
    outcome on one it does. *)
Lemma onResults_cases (results : Results) (r : Refs) :
  (calls_of results r = [] /\ refs_after results r = r) \/
  (calls_of results r = [onNoGesture] /\ refs_after results r = r) \/
  (exists fs, isMountedRef r = true /\ classify results = Some fs /\
              onResults results r = dispatch fs r).
Proof.
  destruct (isMountedRef r) eqn:Hm.
  - destruct (classify results) as [fs|] eqn:E.
    + right. right. exists fs. split; [reflexivity|]. split; [reflexivity|].
      apply onResults_classified; assumption.
    + pose proof (onResults_unclassified results r E) as Hr.
      apply classify_None in E. destruct E as [E|E].
      * right. left. split; [apply onResults_no_hand; assumption | exact Hr].
      * left. split; [apply onResults_malformed; assumption | exact Hr].
  - left. unfold calls_of, refs_after, onResults, bind, get.
    cbv beta iota zeta. rewrite Hm. split; reflexivity.
Qed.

Lemma classify_exclusive (results : Results) (fs : FingerState) :
  classify results = Some fs ->
  isOneFinger fs && isTwoFingers fs = false /\
  isOneFinger fs && isThreeFingers fs = false /\
  isTwoFingers fs && isThreeFingers fs = false /\
  isFist fs && isTwoFingers fs = false /\
  isFist fs && isThreeFingers fs = false.
Proof.
  unfold classify.
  destruct (multiHandLandmarks results) as [[|lms rest]|]; try discriminate.
  intros E.
  destruct (descriptor_shape _ fs E)
    as (ci & cm & cr & cp & ei & em & er & ep & ct & Hi & Hm & Hr & Hp & _
        & _ & -> & -> & -> & ->).
  destruct ci, cm, cr, cp, ei, em, er, ep; try discriminate;
    destruct ct; repeat split; reflexivity.
Qed.

(** X4.  The callbacks of one frame, whatever the frame and the refs: at
    most one of the three one-shot gesture callbacks; [onNoGesture] either
    alone or not at all; at most two callbacks in total; never [onError]
    or [onStatusChange]. *)
Theorem one_frame_callbacks (results : Results) (r : Refs) :
  (fired OneFinger (calls_of results r) + fired TwoFingers (calls_of results r)
   + fired ThreeFingers (calls_of results r) <= 1)%nat /\
  (calls_of results r = [onNoGesture] \/ ~ In onNoGesture (calls_of results r)) /\
  (length (calls_of results r) <= 2)%nat /\
  forallb is_gesture_callback (calls_of results r) = true.
Proof.
  destruct (onResults_cases results r) as [[-> _] | [[-> _] | (fs & Hm & E & Hd)]].
  - cbn. repeat split; first [lia | (right; tauto)].
  - cbn. repeat split; first [lia | (left; reflexivity)].
  - unfold calls_of. rewrite Hd.
    destruct (classify_exclusive results fs E) as (H12 & H13 & H23 & Hf2 & Hf3).
    destruct fs as [w t i m rg p b fc fe isF is1 is2 is3].
    destruct r as [mt w1 w2 w3].
    cbn [isOneFinger isTwoFingers isThreeFingers isFist] in *.
    destruct isF, is1, is2, is3; try discriminate;
      destruct w1, w2, w3; cbn; repeat split; try lia;
        try (left; reflexivity);
        try (right; intros H; repeat (destruct H as [H|H]; try discriminate H);
             exact H).
Qed.

Lemma latches_after_frame (results : Results) (r : Refs) :
  (latches_set r <= 1)%nat -> (latches_set (refs_after results r) <= 1)%nat.
Proof.
  intros Hr.
  destruct (onResults_cases results r) as [[_ ->] | [[_ ->] | (fs & Hm & E & Hd)]];
    try exact Hr.
  unfold refs_after. rewrite Hd.
  destruct (dispatch_edge OneFinger fs r) as (_ & H1 & _).
  destruct (dispatch_edge TwoFingers fs r) as (_ & H2 & _).
  destruct (dispatch_edge ThreeFingers fs r) as (_ & H3 & _).
  cbn [latch condition] in H1, H2, H3.
  unfold latches_set. rewrite H1, H2, H3.
  destruct (classify_exclusive results fs E) as (H12 & H13 & H23 & _).
  destruct (isOneFinger fs), (isTwoFingers fs), (isThreeFingers fs);
    try discriminate; cbn; lia.
Qed.

(** X5.  Of the three latches [wasOneFingerRef], [wasTwoFingersRef] and
    [wasThreeFingersRef] at most one is set at any time: if this holds of
    the refs, it holds after any stream of frames. *)
Theorem at_most_one_latch (frames : list Results) (r : Refs) :
  (latches_set r <= 1)%nat ->
  (latches_set (refs_after_stream frames r) <= 1)%nat.
Proof.
  revert r. induction frames as [|f rest IH]; intros r Hr; [exact Hr|].
  cbn [refs_after_stream]. apply IH, latches_after_frame, Hr.
Qed.

Lemma at_most_one_latch_witness :
  (latches_set initial <= 1)%nat /\
  (latches_set (refs_after_stream
                  (stream one_finger ++ [frame short_hand]
                   ++ stream three_fingers) initial) <= 1)%nat.
Proof.
  split; [cbn; lia|]. apply (at_most_one_latch _ initial). cbn; lia.
Defined.

(** X6.  Once the hook is unmounted ([isMountedRef.current] false) the
    handler is inert: whatever frames still arrive, no callback is invoked
    and no ref changes. *)
Theorem unmounted_handler_is_inert (frames : list Results) (r : Refs) :
  isMountedRef r = false ->
  run frames r = repeat [] (length frames) /\ refs_after_stream frames r = r.
Proof.
  intros Hm. induction frames as [|f rest [IH1 IH2]]; [split; reflexivity|].
  assert (Hf : calls_of f r = [] /\ refs_after f r = r).
  { unfold calls_of, refs_after, onResults, bind, get.
    cbv beta iota zeta. rewrite Hm. split; reflexivity. }
  destruct Hf as [Hc Hr]. cbn [run refs_after_stream length repeat].
  rewrite Hc, Hr, IH1, IH2. split; reflexivity.
Qed.

Lemma unmounted_handler_is_inert_witness :
  let unmounted := {| isMountedRef := false; wasOneFingerRef := true;
                      wasTwoFingersRef := false; wasThreeFingersRef := false |} in
  isMountedRef unmounted = false /\
  run (stream fist) unmounted = repeat [] 7 /\
  refs_after_stream (stream fist) unmounted = unmounted.
Proof.
  cbv zeta. split; [reflexivity|].
  apply (unmounted_handler_is_inert (stream fist)). reflexivity.
Defined.
End StreamProperties.

(** ** Fireworks: bursts and timers are counted *)

Module CountFacts.
Import FIREWORKS_CONFIG JsNum Fireworks UpdateFacts.
Local Open Scope Q_scope.

Lemma length_heap_update_firework (o : nat) (s : Scene) :
  length (heap (update_firework o s)) = length (heap s).
Proof.
  unfold update_firework.
  destruct (heap s !! o) as [fw|]; [|reflexivity].
  destruct (negb (active fw)); [reflexivity|].
  destruct (gtb (age fw + 0.016) (lifetime fw)).
  - destruct (particles fw) as [p|]; unfold scene_remove, set_heap;
      cbn [heap]; apply length_insert.
  - destruct (particles fw) as [p|].
    + destruct (integrate _ _ p _) as [p' v']. unfold set_heap. cbn [heap].
      apply length_insert.
    + unfold set_heap. cbn [heap]. apply length_insert.
Qed.

Lemma length_heap_loop (l : list nat) :
  forall s, length (heap (loop l s)) = length (heap s).
Proof.
  unfold loop. induction l as [|x l IH]; intros s; [reflexivity|].
  cbn [fold_left]. rewrite IH. apply length_heap_update_firework.
Qed.

Lemma updateFireworks_counts (s : Scene) :
  length (heap (updateFireworks s)) = length (heap s) /\
  timers (updateFireworks s) = timers s.
Proof.
  unfold updateFireworks. fold (loop (live s) s). cbn [heap timers].
  split; [apply length_heap_loop | apply loop_frame].
Qed.

Lemma fire_timer_counts (k : nat) (smp : Sample) (s : Scene) :
  length (heap (fire_timer k smp s)) = length (heap s) /\
  (length (timers (fire_timer k smp s))
   + match timers s !! k with Some _ => 1 | None => 0 end
   = length (timers s))%nat.
Proof.
  destruct (FireworksFacts.fire_timer_spec k smp s) as (-> & _ & _ & _ & ->).
  split; [reflexivity|].
  destruct (timers s !! k) as [t|] eqn:E.
  - rewrite length_delete by (eexists; exact E).
    apply lookup_lt_Some in E. lia.
  - apply lookup_ge_None in E.
    rewrite delete_take_drop, take_ge, drop_ge, app_nil_r by lia. lia.
Qed.

Lemma createFireworks_counts (x y z : Q) (s : Scene) :
  heap (createFireworks x y z s) = heap s /\
  length (timers (createFireworks x y z s)) = (length (timers s) + 3)%nat.
Proof.
  unfold createFireworks, createFireworkParticles, push. cbn [heap timers].
  split; [reflexivity|]. rewrite length_app. reflexivity.
Qed.
End CountFacts.

(** ** The component: what each callback keeps *)

Module AppFacts.
Import JsNum Gesture GestureFacts Dispatcher DispatcherFacts Streams
       StreamProperties App Samples.
Local Open Scope Q_scope.

Lemma fold_handle_inv (P : Component -> Prop) (calls : list Callback) :
  forall c,
    (forall c cb, In cb calls -> P c -> P (handle c cb)) ->
    P c -> P (fold_left handle calls c).
Proof.
  induction calls as [|cb rest IH]; intros c Hstep Hc; [exact Hc|].
  cbn [fold_left]. apply IH.
  - intros c' cb' Hin. apply Hstep. right. exact Hin.
  - apply Hstep; [left; reflexivity | exact Hc].
Qed.

Lemma exec_inv (P : System -> Prop) (events : list Event) :
  forall s,
    (forall s e, In e events -> P s -> P (step s e)) ->
    P s -> P (exec events s).
Proof.
  induction events as [|e rest IH]; intros s Hstep Hs; [exact Hs|].
  unfold exec. cbn [fold_left]. apply IH.
  - intros s' e' Hin. apply Hstep. right. exact Hin.
  - apply Hstep; [left; reflexivity | exact Hs].
Qed.

(** What a frame's fist callback carries: three or four curled fingers
    over four, and the palm base of the first hand. *)
Lemma calls_fist (results : Results) (r : Refs) (strength x y : Q) :
  In (Dispatcher.onFistGesture strength x y) (calls_of results r) ->
  (strength = of_nat 3 / 4.0 \/ strength = of_nat 4 / 4.0) /\
  exists lms rest b,
    multiHandLandmarks results = Some (lms :: rest) /\
    lms !! 9%nat = Some b /\ x = lm_x b /\ y = lm_y b.
Proof.
  destruct (onResults_cases results r) as [[-> _] | [[-> _] | (fs & Hm & E & Hd)]].
  - intros [].
  - intros [H|[]]. discriminate H.
  - unfold calls_of. rewrite Hd. intros Hin. apply dispatch_calls in Hin.
    destruct Hin as [H|[H|[H|[H|[Hf H]]]]]; try discriminate H.
    injection H as -> -> ->.
    unfold classify in E.
    destruct (multiHandLandmarks results) as [[|lms rest]|]; try discriminate.
    pose proof (isFist_fingersCurled _ _ E Hf) as H3.
    pose proof (fingersCurled_le_4 _ _ E) as H4.
    split.
    + assert (Hc : fingersCurled fs = 3%nat \/ fingersCurled fs = 4%nat) by lia.
      destruct Hc as [-> | ->]; [left | right]; reflexivity.
    + exists lms, rest.
      destruct (Nat.lt_ge_cases (length lms) 21) as [Hlt|Hge].
      { rewrite (calculateFingerStates_short lms Hlt) in E. discriminate. }
      destruct (calculateFingerStates_long lms Hge)
        as (w & t & i & m & rg & p & b & _ & _ & _ & _ & _ & _ & Hb & E').
      rewrite E' in E. injection E as <-. exists b.
      repeat split; [exact Hb].
Qed.

Lemma handle_pinch (c : Component) (cb : Callback) :
  (forall strength x y, cb = Dispatcher.onFistGesture strength x y ->
                        strength == 0.75 \/ strength == 1) ->
  pinch_consistent c -> pinch_consistent (handle c cb).
Proof.
  intros Hcb [Hi Ht]. destruct c as [cs ist em ct ip cr sn sc st].
  cbn [interactionState isPinchingRef threeSceneRef] in *.
  assert (Hkeep : forall f : ThreeScene -> ThreeScene,
             (forall t, isPinching (f t) = isPinching t /\
                        pinchStrength (f t) = pinchStrength t) ->
             forall t', f <$> sc = Some t' ->
               isPinching t' = ip /\
               ((isPinching t' = false /\ pinchStrength t' == 0) \/
                (isPinching t' = true /\
                 (pinchStrength t' == 0.75 \/ pinchStrength t' == 1)))).
  { intros f Hf t' Ht'. destruct sc as [t|]; [|discriminate].
    injection Ht' as <-. destruct (Hf t) as [-> ->]. exact (Ht t eq_refl). }
  destruct cb; cbn [handle].
  - split; [exact Hi|]. apply Hkeep. intros t; split; reflexivity.
  - unfold App.onTwoFingersGesture. cbn [isSnowingRef].
    destruct sn; cbn [negb]; [split; assumption|].
    split; [exact Hi|]. apply Hkeep. intros t; split; reflexivity.
  - split; [exact Hi|]. apply Hkeep. intros t; split; reflexivity.
  - split; [split; reflexivity|]. intros t' Ht'. cbn in Ht'.
    destruct sc as [t|]; [|discriminate]. injection Ht' as <-. cbn.
    split; [reflexivity|]. right. split; [reflexivity|].
    apply (Hcb _ _ _ eq_refl).
  - split; [split; discriminate|]. intros t' Ht'. cbn in Ht'.
    destruct sc as [t|]; [|discriminate]. injection Ht' as <-. cbn.
    split; [reflexivity|]. left. split; reflexivity.
  - split; [exact Hi|]. exact Ht.
  - split; [exact Hi|]. exact Ht.
Qed.

Lemma with_scene_pinch (f : Fireworks.Scene -> Fireworks.Scene) (c : Component) :
  pinch_consistent c -> pinch_consistent (with_scene (on_fireworks f) c).
Proof.
  intros [Hi Ht]. split; [exact Hi|]. intros t' Ht'.
  destruct c as [cs ist em ct ip cr sn [t|] st]; cbn in Ht'; [|discriminate].
  injection Ht' as <-. exact (Ht t eq_refl).
Qed.

Lemma snow_timeout_pinch (c : Component) :
  pinch_consistent c -> pinch_consistent (snow_timeout c).
Proof.
  intros [Hi Ht]. split; [exact Hi|]. intros t' Ht'.
  destruct c as [cs ist em ct ip cr sn [t|] st]; cbn in Ht'; [|discriminate].
  injection Ht' as <-. exact (Ht t eq_refl).
Qed.

Lemma step_pinch (s : System) (e : Event) :
  pinch_consistent (component s) -> pinch_consistent (component (step s e)).
Proof.
  intros H. destruct e; cbn [step component].
  - apply fold_handle_inv; [|exact H].
    intros c cb Hin. apply handle_pinch. intros strength x y ->.
    apply calls_fist in Hin. destruct Hin as [[-> | ->] _];
      [left | right]; reflexivity.
  - destruct (snowTimers (component s)); [exact H | apply snow_timeout_pinch, H].
  - apply with_scene_pinch, H.
  - apply with_scene_pinch, H.
Qed.

(** *** Theme *)

Lemma fired_cons (g : Discrete) (cb : Callback) (rest : list Callback) :
  fired g (cb :: rest)
    = ((if is_callback g cb then 1 else 0) + fired g rest)%nat.
Proof. unfold fired. cbn [List.filter]. destruct (is_callback g cb); reflexivity. Qed.

Lemma fired_app (g : Discrete) (l1 l2 : list Callback) :
  fired g (l1 ++ l2) = (fired g l1 + fired g l2)%nat.
Proof. unfold fired. rewrite List.filter_app, length_app. reflexivity. Qed.

Lemma handle_theme (c : Component) (cb : Callback) :
  theme_consistent c ->
  theme_consistent (handle c cb) /\
  colorThemeRef (handle c cb)
    = ((colorThemeRef c + (if is_callback OneFinger cb then 1 else 0)) mod 3)%nat.
Proof.
  intros (Hlt & Hname & Ht). destruct c as [cs ist em ct ip cr sn sc st].
  cbn [colorThemeRef currentTheme threeSceneRef] in *.
  assert (Hkeep : forall f : ThreeScene -> ThreeScene,
             (forall t, colorTheme (f t) = colorTheme t) ->
             forall t', f <$> sc = Some t' -> colorTheme t' = cr).
  { intros f Hf t' Ht'. destruct sc as [t|]; [|discriminate].
    injection Ht' as <-. rewrite Hf. exact (Ht t eq_refl). }
  assert (Hsame : cr = ((cr + 0) mod 3)%nat).
  { rewrite Nat.add_0_r, Nat.mod_small; [reflexivity | exact Hlt]. }
  destruct cb; cbn [handle is_callback].
  - split; [|reflexivity]. split; [apply Nat.mod_upper_bound; discriminate|].
    split; [reflexivity|]. intros t' Ht'. cbn in Ht'.
    destruct sc as [t|]; [|discriminate]. injection Ht' as <-. reflexivity.
  - unfold App.onTwoFingersGesture. cbn [isSnowingRef].
    destruct sn; cbn [negb]; (split; [|exact Hsame]);
      (split; [exact Hlt|]); (split; [exact Hname|]); [exact Ht|].
    apply Hkeep. reflexivity.
  - split; [|exact Hsame]. split; [exact Hlt|]. split; [exact Hname|].
    apply Hkeep. reflexivity.
  - split; [|exact Hsame]. split; [exact Hlt|]. split; [exact Hname|].
    apply (Hkeep (fun t => updateRotationTarget _ _ (updatePinchState true _ t))).
    reflexivity.
  - split; [|exact Hsame]. split; [exact Hlt|]. split; [exact Hname|].
    apply Hkeep. reflexivity.
  - split; [|exact Hsame]. split; [exact Hlt|]. split; [exact Hname|]. exact Ht.
  - split; [|exact Hsame]. split; [exact Hlt|]. split; [exact Hname|]. exact Ht.
Qed.

Lemma fold_handle_theme (calls : list Callback) :
  forall c,
    theme_consistent c ->
    theme_consistent (fold_left handle calls c) /\
    colorThemeRef (fold_left handle calls c)
      = ((colorThemeRef c + fired OneFinger calls) mod 3)%nat.
Proof.
  induction calls as [|cb rest IH]; intros c Hc.
  - split; [exact Hc|]. change (fired OneFinger []) with 0%nat.
    rewrite Nat.add_0_r, Nat.mod_small; [reflexivity | apply Hc].
  - cbn [fold_left]. destruct (handle_theme c cb Hc) as [Hc1 E1].
    destruct (IH _ Hc1) as [Hc2 E2]. split; [exact Hc2|].
    rewrite E2, E1, fired_cons, Nat.Div0.add_mod_idemp_l, Nat.add_assoc.
    reflexivity.
Qed.

Lemma other_events_theme (f : ThreeScene -> ThreeScene) (c : Component) :
  (forall t, colorTheme (f t) = colorTheme t) ->
  theme_consistent c ->
  theme_consistent (with_scene f c) /\
  colorThemeRef (with_scene f c) = colorThemeRef c.
Proof.
  intros Hf (Hlt & Hname & Ht). split; [|reflexivity].
  split; [exact Hlt|]. split; [exact Hname|]. intros t' Ht'.
  destruct c as [cs ist em ct ip cr sn [t|] st]; cbn in Ht'; [|discriminate].
  injection Ht' as <-. rewrite Hf. exact (Ht t eq_refl).
Qed.

Lemma snow_timeout_theme (c : Component) :
  theme_consistent c ->
  theme_consistent (snow_timeout c) /\
  colorThemeRef (snow_timeout c) = colorThemeRef c.
Proof.
  intros (Hlt & Hname & Ht). split; [|reflexivity].
  split; [exact Hlt|]. split; [exact Hname|]. intros t' Ht'.
  destruct c as [cs ist em ct ip cr sn [t|] st]; cbn in Ht'; [|discriminate].
  injection Ht' as <-. exact (Ht t eq_refl).
Qed.

Lemma exec_theme (events : list Event) :
  forall s,
    theme_consistent (component s) ->
    theme_consistent (component (exec events s)) /\
    colorThemeRef (component (exec events s))
      = ((colorThemeRef (component s)
          + fired OneFinger (callbacks events (refs s))) mod 3)%nat.
Proof.
  induction events as [|e rest IH]; intros s Hs.
  - split; [exact Hs|]. change (fired OneFinger (callbacks [] (refs s))) with 0%nat.
    change (exec [] s) with s.
    rewrite Nat.add_0_r, Nat.mod_small; [reflexivity | apply Hs].
  - unfold exec. cbn [fold_left]. fold (exec rest (step s e)).
    assert (H1 : theme_consistent (component (step s e)) /\
                 exists n,
                   colorThemeRef (component (step s e))
                     = ((colorThemeRef (component s) + n) mod 3)%nat /\
                   fired OneFinger (callbacks (e :: rest) (refs s))
                     = (n + fired OneFinger
                              (callbacks rest (refs (step s e))))%nat).
    { destruct e; cbn [step component refs callbacks].
      - destruct (fold_handle_theme (calls_of results (refs s)) _ Hs) as [H E].
        split; [exact H|]. eexists. split; [exact E|]. apply fired_app.
      - assert (Hz : colorThemeRef (component s)
                     = ((colorThemeRef (component s) + 0) mod 3)%nat).
        { rewrite Nat.add_0_r, Nat.mod_small; [reflexivity | apply Hs]. }
        destruct (snowTimers (component s)).
        + split; [exact Hs|]. exists 0%nat. split; [exact Hz | reflexivity].
        + destruct (snow_timeout_theme _ Hs) as [H E]. split; [exact H|].
          exists 0%nat. split; [rewrite E; exact Hz | reflexivity].
      - destruct (other_events_theme
                    (on_fireworks (Fireworks.fire_timer k smp)) _
                    (fun _ => eq_refl) Hs) as [H E].
        split; [exact H|]. exists 0%nat. split; [|reflexivity].
        rewrite E, Nat.add_0_r, Nat.mod_small; [reflexivity | apply Hs].
      - destruct (other_events_theme
                    (on_fireworks Fireworks.updateFireworks) _
                    (fun _ => eq_refl) Hs) as [H E].
        split; [exact H|]. exists 0%nat. split; [|reflexivity].
        rewrite E, Nat.add_0_r, Nat.mod_small; [reflexivity | apply Hs]. }
    destruct H1 as (H1 & n & E1 & E2). destruct (IH _ H1) as [H2 E3].
    split; [exact H2|].
    rewrite E3, E1, E2, Nat.Div0.add_mod_idemp_l, Nat.add_assoc. reflexivity.
Qed.

(** *** Snow *)

Lemma handle_snow (c : Component) (cb : Callback) :
  snow_consistent c -> snow_consistent (handle c cb).
Proof.
  intros [Hn Ht]. destruct c as [cs ist em ct ip cr sn sc st].
  cbn [snowTimers isSnowingRef threeSceneRef] in *.
  assert (Hkeep : forall f : ThreeScene -> ThreeScene,
             (forall t, isSnowing (f t) = isSnowing t /\
                        snowVisible (f t) = snowVisible t) ->
             forall t', f <$> sc = Some t' ->
               isSnowing t' = sn /\ snowVisible t' = sn).
  { intros f Hf t' Ht'. destruct sc as [t|]; [|discriminate].
    injection Ht' as <-. destruct (Hf t) as [-> ->]. exact (Ht t eq_refl). }
  destruct cb; cbn [handle]; try (split; [exact Hn | exact Ht]);
    try (split; [exact Hn|]; apply Hkeep; intros t; split; reflexivity).
  - unfold App.onTwoFingersGesture. cbn [isSnowingRef].
    destruct sn; cbn [negb]; [split; assumption|].
    split; [cbn; rewrite Hn; reflexivity|]. intros t' Ht'. cbn in Ht'.
    destruct sc as [t|]; [|discriminate]. injection Ht' as <-.
    split; reflexivity.
Qed.

Lemma step_snow (s : System) (e : Event) :
  snow_consistent (component s) -> snow_consistent (component (step s e)).
Proof.
  intros H. destruct e; cbn [step component].
  - apply fold_handle_inv; [|exact H]. intros c cb _. apply handle_snow.
  - destruct H as [Hn Ht].
    destruct (component s) as [cs ist em ct ip cr sn sc st].
    cbn [snowTimers isSnowingRef threeSceneRef] in *.
    destruct st as [|n]; [split; assumption|].
    split; [cbn; destruct sn; [injection Hn as ->; reflexivity | discriminate]|].
    intros t' Ht'. cbn in Ht'. destruct sc as [t|]; [|discriminate].
    injection Ht' as <-. split; reflexivity.
  - destruct H as [Hn Ht]. split; [exact Hn|]. intros t' Ht'.
    destruct (component s) as [cs ist em ct ip cr sn [t|] st]; cbn in Ht';
      [|discriminate].
    injection Ht' as <-. exact (Ht t eq_refl).
  - destruct H as [Hn Ht]. split; [exact Hn|]. intros t' Ht'.
    destruct (component s) as [cs ist em ct ip cr sn [t|] st]; cbn in Ht';
      [|discriminate].
    injection Ht' as <-. exact (Ht t eq_refl).
Qed.

(** *** Rotation target *)

Lemma handle_rotation (c : Component) (cb : Callback) :
  (forall strength x y, cb = Dispatcher.onFistGesture strength x y ->
                        0 <= x /\ x <= 1 /\ 0 <= y /\ y <= 1) ->
  rotation_in_range c -> rotation_in_range (handle c cb).
Proof.
  intros Hcb Ht. destruct c as [cs ist em ct ip cr sn sc st].
  unfold rotation_in_range in *. cbn [threeSceneRef] in *.
  assert (Hkeep : forall f : ThreeScene -> ThreeScene,
             (forall t, rotationTarget (f t) = rotationTarget t) ->
             forall t', f <$> sc = Some t' ->
               -1 <= fst (rotationTarget t') /\ fst (rotationTarget t') <= 1 /\
               -1 <= snd (rotationTarget t') /\ snd (rotationTarget t') <= 1).
  { intros f Hf t' Ht'. destruct sc as [t|]; [|discriminate].
    injection Ht' as <-. rewrite Hf. exact (Ht t eq_refl). }
  destruct cb; cbn [handle]; try exact Ht;
    try (apply Hkeep; intros t; reflexivity).
  - unfold App.onTwoFingersGesture. cbn [isSnowingRef].
    destruct sn; cbn [negb]; [exact Ht|]. apply Hkeep. reflexivity.
  - intros t' Ht'. cbn in Ht'. destruct sc as [t|]; [|discriminate].
    injection Ht' as <-. cbn [rotationTarget updateRotationTarget fst snd].
    destruct (Hcb _ _ _ eq_refl) as (Hx0 & Hx1 & Hy0 & Hy1).
    repeat split; Lqa.lra.
Qed.

Lemma step_rotation (s : System) (e : Event) :
  palm_in_view e ->
  rotation_in_range (component s) -> rotation_in_range (component (step s e)).
Proof.
  intros Hv H. destruct e; cbn [step component].
  - apply fold_handle_inv; [|exact H].
    intros c cb Hin. apply handle_rotation. intros strength x y ->.
    apply calls_fist in Hin.
    destruct Hin as (_ & lms & rest & b & E & Hb & -> & ->).
    exact (Hv lms rest b E Hb).
  - destruct (snowTimers (component s)); [exact H|]. intros t' Ht'.
    destruct (component s) as [cs ist em ct ip cr sn [t|] st]; cbn in Ht';
      [|discriminate].
    injection Ht' as <-. exact (H t eq_refl).
  - intros t' Ht'.
    destruct (component s) as [cs ist em ct ip cr sn [t|] st]; cbn in Ht';
      [|discriminate].
    injection Ht' as <-. exact (H t eq_refl).
  - intros t' Ht'.
    destruct (component s) as [cs ist em ct ip cr sn [t|] st]; cbn in Ht';
      [|discriminate].
    injection Ht' as <-. exact (H t eq_refl).
Qed.
End AppFacts.

(** ** The component: runs of the event loop *)

Module RunFacts.
Import JsNum Gesture GestureFacts Dispatcher DispatcherFacts Streams
       StreamProperties CountFacts App AppFacts Samples.
Local Open Scope Q_scope.

(** *** Fireworks *)

Lemma handle_fireworks (c : Component) (cb : Callback) :
  is_Some (threeSceneRef c) ->
  is_Some (threeSceneRef (handle c cb)) /\
  bursts_and_timers (handle c cb)
    = (bursts_and_timers c
       + 3 * (if is_callback ThreeFingers cb then 1 else 0))%nat.
Proof.
  intros [t Ht]. destruct c as [cs ist em ct ip cr sn sc st].
  cbn [threeSceneRef] in Ht. subst sc.
  destruct cb; cbn [handle is_callback];
    try (split; [eexists; reflexivity | cbn; lia]).
  - unfold App.onTwoFingersGesture. cbn [isSnowingRef].
    destruct sn; cbn [negb]; (split; [eexists; reflexivity | cbn; lia]).
  - split; [eexists; reflexivity|].
    unfold App.onThreeFingersGesture, with_scene, bursts_and_timers.
    cbn [threeSceneRef fmap option_fmap option_map createFireworks
         on_fireworks fireworks].
    destruct (createFireworks_counts 0 0 0 (fireworks t)) as [-> ->]. lia.
Qed.

Lemma fold_handle_fireworks (calls : list Callback) :
  forall c,
    is_Some (threeSceneRef c) ->
    is_Some (threeSceneRef (fold_left handle calls c)) /\
    bursts_and_timers (fold_left handle calls c)
      = (bursts_and_timers c + 3 * fired ThreeFingers calls)%nat.
Proof.
  induction calls as [|cb rest IH]; intros c Hc.
  - split; [exact Hc|]. change (fired ThreeFingers []) with 0%nat. cbn. lia.
  - cbn [fold_left]. destruct (handle_fireworks c cb Hc) as [Hc1 E1].
    destruct (IH _ Hc1) as [Hc2 E2]. split; [exact Hc2|].
    rewrite E2, E1, fired_cons. lia.
Qed.

Lemma step_fireworks (s : System) (e : Event) :
  is_Some (threeSceneRef (component s)) ->
  is_Some (threeSceneRef (component (step s e))) /\
  (bursts_and_timers (component (step s e)) + timers_fired [e] s
   = bursts_and_timers (component s)
     + 3 * fired ThreeFingers (callbacks [e] (refs s)))%nat.
Proof.
  intros Hs. destruct e; cbn [step component callbacks timers_fired].
  - rewrite app_nil_r, !Nat.add_0_r. apply fold_handle_fireworks, Hs.
  - change (fired ThreeFingers []) with 0%nat.
    destruct (component s) as [cs ist em ct ip cr sn sc st].
    destruct Hs as [t Ht]. cbn [threeSceneRef] in Ht. subst sc.
    cbn [snowTimers]. destruct st; (split; [eexists; reflexivity | cbn; lia]).
  - change (fired ThreeFingers []) with 0%nat.
    destruct (component s) as [cs ist em ct ip cr sn sc st].
    destruct Hs as [t Ht]. cbn [threeSceneRef] in Ht. subst sc.
    split; [eexists; reflexivity|].
    unfold with_scene, bursts_and_timers, timer_pending.
    cbn [threeSceneRef fmap option_fmap option_map on_fireworks fireworks].
    destruct (fire_timer_counts k smp (fireworks t)) as [-> E].
    destruct (Fireworks.timers (fireworks t) !! k); lia.
  - change (fired ThreeFingers []) with 0%nat.
    destruct (component s) as [cs ist em ct ip cr sn sc st].
    destruct Hs as [t Ht]. cbn [threeSceneRef] in Ht. subst sc.
    split; [eexists; reflexivity|].
    unfold with_scene, bursts_and_timers.
    cbn [threeSceneRef fmap option_fmap option_map on_fireworks fireworks].
    destruct (updateFireworks_counts (fireworks t)) as [-> ->]. lia.
Qed.

Lemma callbacks_cons (e : Event) (rest : list Event) (s : System) :
  callbacks (e :: rest) (refs s)
    = callbacks [e] (refs s) ++ callbacks rest (refs (step s e)).
Proof.
  destruct e; cbn [callbacks step refs]; try reflexivity.
  rewrite app_nil_r. reflexivity.
Qed.

Lemma timers_fired_cons (e : Event) (rest : list Event) (s : System) :
  timers_fired (e :: rest) s
    = (timers_fired [e] s + timers_fired rest (step s e))%nat.
Proof. cbn [timers_fired]. lia. Qed.

(** Bursts and pending timers along a run: three more per three-finger
    callback, one less per timer that fires. *)
Lemma exec_fireworks (events : list Event) :
  forall s,
    is_Some (threeSceneRef (component s)) ->
    is_Some (threeSceneRef (component (exec events s))) /\
    (bursts_and_timers (component (exec events s)) + timers_fired events s
     = bursts_and_timers (component s)
       + 3 * fired ThreeFingers (callbacks events (refs s)))%nat.
Proof.
  induction events as [|e rest IH]; intros s Hs.
  - split; [exact Hs|]. change (fired ThreeFingers (callbacks [] (refs s))) with 0%nat.
    change (exec [] s) with s. cbn [timers_fired]. lia.
  - unfold exec. cbn [fold_left]. fold (exec rest (step s e)).
    destruct (step_fireworks s e Hs) as (H1 & E1).
    destruct (IH _ H1) as [H2 E2]. split; [exact H2|].
    rewrite (callbacks_cons e rest s), fired_app, (timers_fired_cons e rest s).
    lia.
Qed.

(** Landmark frames fire no timer. *)
Lemma timers_fired_landmarks (frames : list Results) :
  forall s, timers_fired (Landmarks <$> frames) s = 0%nat.
Proof.
  induction frames as [|f rest IH]; intros s; [reflexivity|].
  cbn [fmap list_fmap timers_fired]. rewrite IH. reflexivity.
Qed.

(** *** No firework is ever shown *)

Lemma handle_dark (c : Component) (cb : Callback) :
  no_fireworks c -> no_fireworks (handle c cb).
Proof.
  intros (t & Ht & Hd). destruct c as [cs ist em ct ip cr sn sc st].
  cbn [threeSceneRef] in Ht. subst sc.
  destruct cb; cbn [handle];
    try (eexists; split; [reflexivity | exact Hd]).
  - unfold App.onTwoFingersGesture. cbn [isSnowingRef].
    destruct sn; cbn [negb]; (eexists; split; [reflexivity | exact Hd]).
  - eexists. split; [reflexivity|].
    cbn [createFireworks on_fireworks fireworks].
    apply FireworksFacts.dark_createFireworks, Hd.
Qed.

Lemma step_dark (s : System) (e : Event) :
  no_fireworks (component s) -> no_fireworks (component (step s e)).
Proof.
  intros H. destruct e; cbn [step component].
  - apply fold_handle_inv; [|exact H]. intros c cb _. apply handle_dark.
  - destruct H as (t & Ht & Hd).
    destruct (component s) as [cs ist em ct ip cr sn sc st].
    cbn [threeSceneRef] in Ht. subst sc. cbn [snowTimers].
    destruct st; (eexists; split; [reflexivity | exact Hd]).
  - destruct H as (t & Ht & Hd).
    destruct (component s) as [cs ist em ct ip cr sn sc st].
    cbn [threeSceneRef] in Ht. subst sc.
    eexists. split; [reflexivity|]. cbn [on_fireworks fireworks].
    apply FireworksFacts.dark_fire_timer, Hd.
  - destruct H as (t & Ht & Hd).
    destruct (component s) as [cs ist em ct ip cr sn sc st].
    cbn [threeSceneRef] in Ht. subst sc.
    eexists. split; [reflexivity|]. cbn [on_fireworks fireworks].
    apply FireworksFacts.dark_updateFireworks, Hd.
Qed.

(** *** A held gesture *)

Lemma held_fires_once (g : Discrete) (frames : list Results) :
  forall r,
    isMountedRef r = true ->
    Forall (fun f => exists fs, classify f = Some fs /\ condition g fs = true)
           frames ->
    fired g (callbacks (Landmarks <$> frames) r)
      = (if latch g r then 0 else Nat.min 1 (length frames))%nat.
Proof.
  induction frames as [|f rest IH]; intros r Hm Hall.
  - cbn. destruct (latch g r); reflexivity.
  - inversion Hall as [|f' rest' (fs & E & Hc) Hrest]; subst.
    cbn [fmap list_fmap callbacks]. rewrite fired_app.
    rewrite IH; [|rewrite refs_after_mounted; exact Hm | exact Hrest].
    unfold calls_of, refs_after. rewrite (onResults_classified _ _ _ Hm E).
    destruct (dispatch_edge g fs r) as (-> & -> & _). rewrite Hc.
    destruct (latch g r); cbn [andb negb length Nat.min]; lia.
Qed.
End RunFacts.

(** ** The component: properties of every run *)

Module AppProperties.
Import JsNum Gesture GestureFacts Dispatcher DispatcherFacts Streams
       CountFacts App AppFacts RunFacts Samples Scenarios.
Local Open Scope Q_scope.

(** X7.  Along any run of the event loop the pinch state of the component
    and of the scene agree, and the strength the scene holds is 0 when
    idle and 0.75 or 1 when pinching; so the strength never exceeds 1, and
    the test [pinchStrength > 0.01] of the particle loop holds exactly
    when [isPinching] does. *)
Theorem pinch_state_follows_gestures (events : list Event) (s : System) :
  pinch_consistent (component s) ->
  pinch_consistent (component (exec events s)) /\
  forall t, threeSceneRef (component (exec events s)) = Some t ->
    pinchStrength t <= 1 /\
    gtb (pinchStrength t) 0.01 = isPinching t.
Proof.
  intros Hs.
  assert (H : pinch_consistent (component (exec events s))).
  { apply (exec_inv (fun s => pinch_consistent (component s))); [|exact Hs].
    intros s' e _. apply step_pinch. }
  split; [exact H|]. intros t Ht. destruct H as [_ H].
  destruct (H t Ht) as [_ [[-> E] | [-> [E | E]]]].
  - split; [rewrite E; discriminate|]. apply gtb_false. rewrite E. discriminate.
  - split; [rewrite E; discriminate|]. apply gtb_true. rewrite E. reflexivity.
  - split; [rewrite E; discriminate|]. apply gtb_true. rewrite E. reflexivity.
Qed.

Lemma pinch_state_follows_gestures_witness :
  pinch_consistent (component mounted) /\
  pinch_consistent (component (exec session mounted)).
Proof.
  assert (H : pinch_consistent (component mounted)).
  { split; [split; discriminate|]. intros t Ht. injection Ht as <-.
    split; [reflexivity|]. left. split; reflexivity. }
  split; [exact H|]. exact (proj1 (pinch_state_follows_gestures session mounted H)).
Defined.

(** X8.  The theme index counts the one-finger callbacks modulo 3: after
    any run it is the index before plus the number of [onOneFingerGesture]
    calls of the run, modulo 3; it stays below 3, the displayed name is
    the entry of [THEME_NAMES] at that index (never [undefined]) and the
    scene's [colorTheme] is the same index. *)
Theorem theme_counts_one_finger_gestures (events : list Event) (s : System) :
  theme_consistent (component s) ->
  theme_consistent (component (exec events s)) /\
  colorThemeRef (component (exec events s))
    = ((colorThemeRef (component s)
        + fired OneFinger (callbacks events (refs s))) mod 3)%nat /\
  is_Some (currentTheme (component (exec events s))).
Proof.
  intros Hs. destruct (exec_theme events s Hs) as [H E].
  split; [exact H|]. split; [exact E|].
  destruct H as (Hlt & -> & _). apply lookup_lt_is_Some. exact Hlt.
Qed.

Lemma theme_counts_one_finger_gestures_witness :
  theme_consistent (component mounted) /\
  colorThemeRef (component (exec session mounted)) = 2%nat.
Proof.
  assert (H : theme_consistent (component mounted)).
  { split; [cbn; lia|]. split; [reflexivity|].
    intros t Ht. injection Ht as <-. reflexivity. }
  split; [exact H|].
  rewrite (proj1 (proj2 (theme_counts_one_finger_gestures session mounted H))).
  vm_compute. reflexivity.
Defined.

(** X9.  Snow falls exactly while one 10-second timer is pending: along any
    run, [isSnowingRef], the scene's [isSnowing] and the visibility of the
    snow particles are equal, and the number of pending snow timers is 1
    when they are true and 0 when they are false (a two-finger gesture made
    while it snows schedules nothing). *)
Theorem snow_has_one_timer (events : list Event) (s : System) :
  snow_consistent (component s) ->
  snow_consistent (component (exec events s)).
Proof.
  intros Hs. apply (exec_inv (fun s => snow_consistent (component s)));
    [|exact Hs].
  intros s' e _. apply step_snow.
Qed.

Lemma snow_has_one_timer_witness :
  snow_consistent (component mounted) /\
  snow_consistent (component (exec session mounted)).
Proof.
  assert (H : snow_consistent (component mounted)).
  { split; [reflexivity|]. intros t Ht. injection Ht as <-.
    split; reflexivity. }
  split; [exact H|]. exact (snow_has_one_timer session mounted H).
Defined.

(** X10.  While the palm base of the first hand stays inside the image
    (both coordinates between 0 and 1), both coordinates of the scene's
    rotation target stay between -1 and 1. *)
Theorem rotation_target_in_range (events : list Event) (s : System) :
  Forall palm_in_view events ->
  rotation_in_range (component s) ->
  rotation_in_range (component (exec events s)).
Proof.
  intros Hv Hs. apply (exec_inv (fun s => rotation_in_range (component s)));
    [|exact Hs].
  intros s' e Hin. apply step_rotation.
  rewrite Forall_forall in Hv. apply Hv, list_elem_of_In, Hin.
Qed.

Lemma rotation_target_in_range_witness :
  Forall palm_in_view fist_session /\
  rotation_in_range (component mounted) /\
  rotation_in_range (component (exec fist_session mounted)).
Proof.
  assert (Hv : Forall palm_in_view fist_session).
  { constructor; [|constructor; [exact I|constructor; [|constructor]]].
    - intros lms rest b E Hb. injection E as <- _. injection Hb as <-.
      cbn. repeat split; discriminate.
    - intros lms rest b E Hb. discriminate E. }
  assert (H : rotation_in_range (component mounted)).
  { intros t Ht. injection Ht as <-. cbn. repeat split; discriminate. }
  split; [exact Hv|]. split; [exact H|].
  exact (rotation_target_in_range fist_session mounted Hv H).
Defined.

(** X11.  No firework is ever shown.  In a scene whose store holds no
    burst (as in a new scene), after any run of landmark frames, timers and
    animation frames the store still holds no burst, no [Points] of a
    burst are in the scene graph and [this.fireworks] is empty: every
    timer callback throws before it builds anything.  Each three-finger
    callback schedules exactly three timers and each timer fires at most
    once: the timers pending at the end plus the timers that fired are the
    timers pending at the start plus three per [onThreeFingersGesture]
    call. *)
Theorem fireworks_never_appear (events : list Event) (s : System) :
  no_fireworks (component s) ->
  exists t',
    threeSceneRef (component (exec events s)) = Some t' /\
    Fireworks.heap (fireworks t') = [] /\
    Fireworks.children (fireworks t') = [] /\
    Fireworks.live (fireworks t') = [] /\
    (length (Fireworks.timers (fireworks t')) + timers_fired events s
     = bursts_and_timers (component s)
       + 3 * fired ThreeFingers (callbacks events (refs s)))%nat.
Proof.
  intros Hs.
  assert (H : no_fireworks (component (exec events s))).
  { apply (exec_inv (fun s => no_fireworks (component s))); [|exact Hs].
    intros s' e _. apply step_dark. }
  destruct H as (t' & Et' & Hd). exists t'. split; [exact Et'|].
  pose proof Hd as [_ Hlive Hheap Hchildren].
  split; [exact Hheap|]. split; [exact Hchildren|]. split; [exact Hlive|].
  assert (Hsc : is_Some (threeSceneRef (component s)))
    by (destruct Hs as (t & -> & _); eexists; reflexivity).
  destruct (exec_fireworks events s Hsc) as [_ E].
  unfold bursts_and_timers at 1 in E. rewrite Et', Hheap in E. exact E.
Qed.

Lemma fireworks_never_appear_witness :
  no_fireworks (component mounted) /\
  timers_fired session mounted = 1%nat /\
  exists t',
    threeSceneRef (component (exec session mounted)) = Some t' /\
    Fireworks.heap (fireworks t') = [] /\
    length (Fireworks.timers (fireworks t')) = 2%nat.
Proof.
  assert (H : no_fireworks (component mounted)).
  { eexists. split; [reflexivity|]. apply FireworksFacts.dark_initial. }
  split; [exact H|]. split; [vm_compute; reflexivity|].
  destruct (fireworks_never_appear session mounted H)
    as (t' & E & Hh & _ & _ & Hn).
  exists t'. split; [exact E|]. split; [exact Hh|].
  assert (Hf : timers_fired session mounted = 1%nat) by (vm_compute; reflexivity).
  assert (Hb : (bursts_and_timers (component mounted)
                + 3 * fired ThreeFingers (callbacks session (refs mounted))
                = 3)%nat) by (vm_compute; reflexivity).
  lia.
Defined.

(** X12.  A gesture held over one or more classified frames acts once: if
    the latch of the gesture is clear, the callback fires exactly once
    during the run of frames; for one finger the theme index advances by
    one (modulo 3), for three fingers exactly three firework timers or
    bursts are added. *)
Theorem held_gesture_acts_once
    (g : Discrete) (frames : list Results) (s : System) :
  isMountedRef (refs s) = true -> latch g (refs s) = false ->
  frames <> [] ->
  Forall (fun f => exists fs, classify f = Some fs /\ condition g fs = true)
         frames ->
  theme_consistent (component s) ->
  is_Some (threeSceneRef (component s)) ->
  fired g (callbacks (Landmarks <$> frames) (refs s)) = 1%nat /\
  (g = OneFinger ->
   colorThemeRef (component (exec (Landmarks <$> frames) s))
     = ((colorThemeRef (component s) + 1) mod 3)%nat) /\
  (g = ThreeFingers ->
   bursts_and_timers (component (exec (Landmarks <$> frames) s))
     = (bursts_and_timers (component s) + 3)%nat).
Proof.
  intros Hm Hl Hne Hall Ht Hsc.
  assert (H1 : fired g (callbacks (Landmarks <$> frames) (refs s)) = 1%nat).
  { rewrite (held_fires_once g frames (refs s) Hm Hall), Hl.
    destruct frames; [contradiction | reflexivity]. }
  split; [exact H1|]. split; intros ->.
  - rewrite (proj2 (exec_theme _ s Ht)), H1. reflexivity.
  - destruct (exec_fireworks (Landmarks <$> frames) s Hsc) as [_ E].
    rewrite timers_fired_landmarks, H1 in E. lia.
Qed.

Lemma held_gesture_acts_once_witness :
  fired ThreeFingers
        (callbacks (Landmarks <$> repeat (frame three_fingers) 5)
                   (refs mounted)) = 1%nat /\
  bursts_and_timers
    (component (exec (Landmarks <$> repeat (frame three_fingers) 5) mounted))
    = 3%nat.
Proof.
  destruct (held_gesture_acts_once ThreeFingers
              (repeat (frame three_fingers) 5) mounted) as (H1 & _ & H3).
  - reflexivity.
  - reflexivity.
  - discriminate.
  - repeat constructor; (eexists; split; [vm_compute; reflexivity | reflexivity]).
  - split; [cbn; lia|]. split; [reflexivity|].
    intros t Ht. injection Ht as <-. reflexivity.
  - eexists; reflexivity.
  - split; [exact H1 | exact (H3 eq_refl)].
Defined.
End AppProperties.

(** ** Fireworks: reads and writes of the buffers *)

Module BufferFacts.
Import FIREWORKS_CONFIG JsNum Fireworks UpdateFacts.
Local Open Scope Q_scope.

Lemma rdq_wr_eq (a : list Q) (i : nat) (v : Q) :
  (i < length a)%nat -> rd (wr a i v) i = v.
Proof.
  intros H. unfold rd, wr. apply list_lookup_total_insert_eq. exact H.
Qed.

Lemma rdq_wr_ne (a : list Q) (i j : nat) (v : Q) :
  i <> j -> rd (wr a i v) j = rd a j.
Proof.
  intros H. unfold rd, wr. apply list_lookup_total_insert_ne. exact H.
Qed.

Lemma length_wrq (a : list Q) (i : nat) (v : Q) : length (wr a i v) = length a.
Proof. apply length_insert. Qed.

Lemma length_add_at (a : list Q) (i : nat) (d : Q) :
  length (add_at a i d) = length a.
Proof. apply length_wrq. Qed.

Lemma length_mul_at (a : list Q) (i : nat) (k : Q) :
  length (mul_at a i k) = length a.
Proof. apply length_wrq. Qed.

(** [a[i] = v] read back at [j]. *)
Lemma rdq_wr (a : list Q) (i j : nat) (v : Q) :
  (i < length a)%nat ->
  rd (wr a i v) j = if (j =? i)%nat then v else rd a j.
Proof.
  intros H. destruct (Nat.eqb_spec j i) as [-> | Hne].
  - apply rdq_wr_eq, H.
  - apply rdq_wr_ne. congruence.
Qed.
End BufferFacts.

(** ** Fireworks: one pass of the per-particle loop *)

Module IntegrateFacts.
Import FIREWORKS_CONFIG JsNum Fireworks UpdateFacts BufferFacts Bursts.
Local Open Scope Q_scope.

Lemma integrate_unfold (age lifetime : Q) (p : Points) (vel : list Q) :
  integrate age lifetime p vel
  = let '(positions, velocities, colors) :=
      fold_left (particle_step age lifetime)
                (seq 0 (length (position p) / 3)) (position p, vel, color p) in
    ({| position := positions; color := colors; size_attr := size_attr p;
        opacity := next_opacity age lifetime;
        geometry_disposed := geometry_disposed p;
        material_disposed := material_disposed p |},
     velocities).
Proof. reflexivity. Qed.

Lemma mod3_0 (j : nat) : ((j * 3) mod 3 = 0)%nat.
Proof. apply Nat.Div0.mod_mul. Qed.
Lemma mod3_1 (j : nat) : ((j * 3 + 1) mod 3 = 1)%nat.
Proof. rewrite Nat.add_comm, Nat.Div0.mod_add. reflexivity. Qed.
Lemma mod3_2 (j : nat) : ((j * 3 + 2) mod 3 = 2)%nat.
Proof. rewrite Nat.add_comm, Nat.Div0.mod_add. reflexivity. Qed.

Ltac eqb_cases :=
  repeat match goal with
         | |- context [(?x =? ?y)%nat] =>
             destruct (Nat.eqb_spec x y); try lia
         | |- context [(?x <? ?y)%nat] =>
             destruct (Nat.ltb_spec x y); try lia
         end.

(** One pass of the loop body: the three entries of particle [j] in each
    buffer, nothing else. *)
Lemma particle_step_spec (age lifetime : Q) (P V C : list Q) (j : nat) :
  (j * 3 + 2 < length P)%nat -> (j * 3 + 2 < length V)%nat ->
  (j * 3 + 2 < length C)%nat ->
  exists P' V' C',
    particle_step age lifetime (P, V, C) j = (P', V', C') /\
    length P' = length P /\ length V' = length V /\ length C' = length C /\
    forall m,
      rd P' m = (if (j * 3 <=? m)%nat && (m <? j * 3 + 3)%nat
                 then rd P m + rd V m else rd P m) /\
      rd V' m = (if (j * 3 <=? m)%nat && (m <? j * 3 + 3)%nat
                 then next_fw_velocity m (rd V m) else rd V m) /\
      rd C' m = (if (j * 3 <=? m)%nat && (m <? j * 3 + 3)%nat
                 then next_color age lifetime (rd C m) else rd C m).
Proof.
  intros HP HV HC. eexists _, _, _. split; [reflexivity|].
  split; [unfold add_at; rewrite !length_wrq; reflexivity|].
  split; [unfold add_at, mul_at; rewrite !length_wrq; reflexivity|].
  split; [destruct (gtb (age / lifetime) 0.5); rewrite ?length_wrq; reflexivity|].
  intros m.
  assert (Hcase : (m = j * 3 \/ m = j * 3 + 1 \/ m = j * 3 + 2 \/
                   (m < j * 3 \/ j * 3 + 3 <= m))%nat) by lia.
  split; [|split].
  - unfold add_at. rewrite !rdq_wr by (rewrite ?length_wrq; lia).
    destruct Hcase as [-> | [-> | [-> | Hout]]].
    + eqb_cases. destruct (Nat.leb_spec (j * 3) (j * 3)); [reflexivity | lia].
    + eqb_cases. destruct (Nat.leb_spec (j * 3) (j * 3 + 1)); [reflexivity | lia].
    + eqb_cases. destruct (Nat.leb_spec (j * 3) (j * 3 + 2)); [reflexivity | lia].
    + eqb_cases; destruct (Nat.leb_spec (j * 3) m); try lia; reflexivity.
  - unfold add_at, mul_at, next_fw_velocity.
    rewrite !rdq_wr by (rewrite ?length_wrq; lia).
    destruct Hcase as [-> | [-> | [-> | Hout]]].
    + rewrite mod3_0. eqb_cases.
      destruct (Nat.leb_spec (j * 3) (j * 3)); [reflexivity | lia].
    + rewrite mod3_1. eqb_cases.
      destruct (Nat.leb_spec (j * 3) (j * 3 + 1)); [reflexivity | lia].
    + rewrite mod3_2. eqb_cases.
      destruct (Nat.leb_spec (j * 3) (j * 3 + 2)); [reflexivity | lia].
    + destruct (Nat.leb_spec (j * 3) m); destruct (Nat.ltb_spec m (j * 3 + 3));
        try lia; cbn [andb]; eqb_cases; reflexivity.
  - unfold next_color. destruct (gtb (age / lifetime) 0.5).
    + rewrite !rdq_wr by (rewrite ?length_wrq; lia).
      destruct Hcase as [-> | [-> | [-> | Hout]]].
      * eqb_cases. destruct (Nat.leb_spec (j * 3) (j * 3)); [reflexivity | lia].
      * eqb_cases. destruct (Nat.leb_spec (j * 3) (j * 3 + 1)); [reflexivity | lia].
      * eqb_cases. destruct (Nat.leb_spec (j * 3) (j * 3 + 2)); [reflexivity | lia].
      * eqb_cases; destruct (Nat.leb_spec (j * 3) m); try lia; reflexivity.
    + destruct ((j * 3 <=? m)%nat && (m <? j * 3 + 3)%nat); reflexivity.
Qed.
End IntegrateFacts.

(** ** Fireworks: [integrate], and the shape of the buffers *)

Module BurstFacts.
Import FIREWORKS_CONFIG JsNum Fireworks UpdateFacts BufferFacts Bursts
       IntegrateFacts.
Local Open Scope Q_scope.

(** The per-particle loop after [k] passes: the entries of the first [k]
    particles are updated, the others are as before. *)
Lemma particle_loop (age lifetime : Q) (P V C : list Q) (n k : nat) :
  length P = (n * 3)%nat -> length V = (n * 3)%nat ->
  length C = (n * 3)%nat -> (k <= n)%nat ->
  exists P' V' C',
    fold_left (particle_step age lifetime) (seq 0 k) (P, V, C) = (P', V', C') /\
    length P' = length P /\ length V' = length V /\ length C' = length C /\
    forall m,
      rd P' m = (if (m <? k * 3)%nat then rd P m + rd V m else rd P m) /\
      rd V' m = (if (m <? k * 3)%nat then next_fw_velocity m (rd V m)
                 else rd V m) /\
      rd C' m = (if (m <? k * 3)%nat then next_color age lifetime (rd C m)
                 else rd C m).
Proof.
  intros HP HV HC. induction k as [|k IH]; intros Hk.
  - exists P, V, C. split; [reflexivity|]. split; [reflexivity|].
    split; [reflexivity|]. split; [reflexivity|].
    intros m. cbn. repeat split.
  - destruct IH as (P1 & V1 & C1 & E1 & LP & LV & LC & H1); [lia|].
    rewrite seq_S, fold_left_app, E1. cbn [fold_left Nat.add].
    destruct (particle_step_spec age lifetime P1 V1 C1 k)
      as (P2 & V2 & C2 & E2 & LP2 & LV2 & LC2 & H2); try lia.
    exists P2, V2, C2. split; [exact E2|].
    split; [congruence|]. split; [congruence|]. split; [congruence|].
    intros m. destruct (H2 m) as (HP2 & HV2 & HC2).
    destruct (H1 m) as (HP1 & HV1 & HC1).
    rewrite HP2, HV2, HC2, HP1, HV1, HC1.
    destruct (Nat.leb_spec (k * 3) m), (Nat.ltb_spec m (k * 3 + 3)),
      (Nat.ltb_spec m (k * 3)), (Nat.ltb_spec m (S k * 3));
      try lia; cbn [andb]; repeat split.
Qed.

(** [integrate] on buffers of [n] particles. *)
Lemma integrate_spec (age lifetime : Q) (p : Points) (vel : list Q) (n : nat) :
  length (position p) = (n * 3)%nat -> length vel = (n * 3)%nat ->
  length (color p) = (n * 3)%nat ->
  exists p' vel',
    integrate age lifetime p vel = (p', vel') /\
    length (position p') = (n * 3)%nat /\ length vel' = (n * 3)%nat /\
    length (color p') = (n * 3)%nat /\ size_attr p' = size_attr p /\
    opacity p' = next_opacity age lifetime /\
    geometry_disposed p' = geometry_disposed p /\
    material_disposed p' = material_disposed p /\
    forall m, (m < n * 3)%nat ->
      rd (position p') m = rd (position p) m + rd vel m /\
      rd vel' m = next_fw_velocity m (rd vel m) /\
      rd (color p') m = next_color age lifetime (rd (color p) m).
Proof.
  intros HP HV HC. rewrite integrate_unfold.
  assert (Hn : (length (position p) / 3 = n)%nat)
    by (rewrite HP; apply Nat.div_mul; discriminate).
  rewrite Hn.
  destruct (particle_loop age lifetime (position p) vel (color p) n n HP HV HC
              (Nat.le_refl n))
    as (P' & V' & C' & E & LP & LV & LC & H).
  rewrite E. eexists _, _. split; [reflexivity|]. cbn [position color size_attr
    opacity geometry_disposed material_disposed].
  split; [congruence|]. split; [congruence|]. split; [congruence|].
  repeat (split; [reflexivity|]).
  intros m Hm. destruct (H m) as (H1 & H2 & H3).
  destruct (Nat.ltb_spec m (n * 3)); [|lia]. repeat split; assumption.
Qed.

(** The opacity schedule stays between 0 and 1 up to the lifetime. *)
Lemma next_opacity_range (age lifetime : Q) :
  0 <= age -> age <= lifetime -> 0 < lifetime ->
  0 <= next_opacity age lifetime /\ next_opacity age lifetime <= 1.
Proof.
  intros H0 H1 Hl. unfold next_opacity.
  assert (Hf0 : 0 <= age / lifetime).
  { apply Qle_shift_div_l; [exact Hl|]. Lqa.lra. }
  assert (Hf1 : age / lifetime <= 1).
  { apply Qle_shift_div_r; [exact Hl|]. Lqa.lra. }
  destruct (ltb (age / lifetime) 0.7) eqn:E.
  - split; discriminate.
  - apply GestureFacts.ltb_false in E.
    assert (Hd : (age / lifetime - 0.7) / 0.3
                 == (age / lifetime - 0.7) * (10 # 3)) by apply Qeq_refl.
    rewrite Hd. split; Lqa.lra.
Qed.

(** What [aged] does to a burst that holds [n] particles. *)
Lemma aged_holds (n : nat) (fw : Firework) :
  holds n fw -> holds n (aged fw).
Proof.
  intros (p & Ep & HP & HV & HC & HS). unfold aged.
  destruct (negb (active fw)); [exists p; tauto|].
  destruct (gtb (age fw + 0.016) (lifetime fw)).
  - exists (dispose p). cbn [particles velocities]. rewrite Ep.
    split; [reflexivity|]. cbn. tauto.
  - rewrite Ep.
    destruct (integrate_spec (age fw + 0.016) (lifetime fw) p (velocities fw)
                n HP HV HC)
      as (p' & vel' & E & LP & LV & LC & ES & _).
    rewrite E. cbn [fst snd]. exists p'. cbn [particles velocities].
    split; [reflexivity|]. rewrite ES. tauto.
Qed.

Lemma heap_update_firework (o o' : nat) (s : Scene) (fw' : Firework) :
  heap (update_firework o s) !! o' = Some fw' ->
  heap s !! o' = Some fw' \/
  exists fw, heap s !! o' = Some fw /\ fw' = aged fw.
Proof.
  intros H. destruct (decide (o' = o)) as [-> | Hne].
  - destruct (heap s !! o) as [fw|] eqn:E.
    + right. exists fw. split; [reflexivity|].
      destruct (update_firework_at o s fw E) as [E' _]. congruence.
    + left. unfold update_firework in H. rewrite E in H. rewrite E in H.
      discriminate H.
  - left. destruct (update_firework_frame o s) as (_ & _ & _ & Hh & _).
    rewrite <- (Hh o' Hne). exact H.
Qed.

Lemma well_shaped_update_firework (o : nat) (s : Scene) :
  well_shaped s -> well_shaped (update_firework o s).
Proof.
  intros Hs o' fw' H. apply heap_update_firework in H.
  destruct H as [H | (fw & H & ->)].
  - exact (Hs o' fw' H).
  - destruct (Hs o' fw H) as [n Hn]. exists n. apply aged_holds, Hn.
Qed.

Lemma well_shaped_loop (l : list nat) :
  forall s, well_shaped s -> well_shaped (loop l s).
Proof.
  unfold loop. induction l as [|x l IH]; intros s Hs; [exact Hs|].
  cbn [fold_left]. apply IH, well_shaped_update_firework, Hs.
Qed.

Lemma well_shaped_updateFireworks (s : Scene) :
  well_shaped s -> well_shaped (updateFireworks s).
Proof.
  intros Hs. pose proof (well_shaped_loop (live s) s Hs) as H.
  intros o fw E. exact (H o fw E).
Qed.

Lemma well_shaped_fire_timer (k : nat) (smp : Sample) (s : Scene) :
  well_shaped s -> well_shaped (fire_timer k smp s).
Proof.
  intros Hs o fw E.
  rewrite (proj1 (FireworksFacts.fire_timer_spec k smp s)) in E.
  exact (Hs o fw E).
Qed.

Lemma well_shaped_step (s : Scene) (t : Task) :
  well_shaped s -> well_shaped (step s t).
Proof.
  destruct t; cbn [step].
  - intros Hs o fw E. exact (Hs o fw E).
  - apply well_shaped_fire_timer.
  - apply well_shaped_updateFireworks.
Qed.
End BurstFacts.

(** ** Fireworks: bursts the loop leaves alone *)

Module LiveFacts.
Import FIREWORKS_CONFIG JsNum Fireworks UpdateFacts BufferFacts Bursts
       IntegrateFacts BurstFacts.
Local Open Scope Q_scope.

Lemma loop_unlisted (l : list nat) (o : nat) :
  forall s, o ∉ l -> heap (loop l s) !! o = heap s !! o.
Proof.
  unfold loop. induction l as [|x l IH]; intros s Ho; [reflexivity|].
  apply not_elem_of_cons in Ho. destruct Ho as [Hne Ho].
  cbn [fold_left]. rewrite (IH _ Ho).
  destruct (update_firework_frame x s) as (_ & _ & _ & Hh & _).
  apply Hh, Hne.
Qed.

Lemma update_firework_inactive (x o : nat) (s : Scene) (fw : Firework) :
  heap s !! o = Some fw -> active fw = false ->
  heap (update_firework x s) !! o = Some fw.
Proof.
  intros E Ha. destruct (decide (o = x)) as [-> | Hne].
  - unfold update_firework. rewrite E, Ha. exact E.
  - destruct (update_firework_frame x s) as (_ & _ & _ & Hh & _).
    rewrite (Hh o Hne). exact E.
Qed.

Lemma loop_inactive (l : list nat) (o : nat) (fw : Firework) :
  forall s, heap s !! o = Some fw -> active fw = false ->
            heap (loop l s) !! o = Some fw.
Proof.
  unfold loop. induction l as [|x l IH]; intros s E Ha; [exact E|].
  cbn [fold_left]. apply IH; [|exact Ha].
  apply update_firework_inactive; assumption.
Qed.
End LiveFacts.

(** ** Fireworks: the buffers, a timer firing, one frame, the live set *)

Module FireworksProperties.
Import FIREWORKS_CONFIG JsNum Fireworks UpdateFacts BufferFacts Bursts
       IntegrateFacts BurstFacts LiveFacts Samples Scenes.
Local Open Scope Q_scope.

(** X13.  [updateFireworks] keeps the shape of the buffers.  Take any
    scene in which each burst of the store has three position, velocity
    and colour entries and one size entry per particle (the program as
    shipped builds no burst; the premise speaks of any store).  Then this
    still holds after any sequence of three-finger gestures, timers
    firing and animation frames: ageing, retiring and disposing a burst
    never changes the length of a buffer. *)
Theorem buffers_stay_well_shaped (tasks : list Task) (s : Scene) :
  well_shaped s -> well_shaped (exec tasks s).
Proof.
  revert s. unfold exec.
  induction tasks as [|t rest IH]; intros s Hs; [exact Hs|].
  cbn [fold_left]. apply IH, well_shaped_step, Hs.
Qed.

Lemma buffers_stay_well_shaped_witness :
  well_shaped registered_scene /\
  well_shaped (exec mixed_tasks registered_scene).
Proof.
  assert (H : well_shaped registered_scene).
  { intros o fw E. destruct o as [|o]; [|destruct o; discriminate E].
    injection E as <-. exists 1%nat. eexists. split; [reflexivity|].
    repeat split. }
  split; [exact H|]. exact (buffers_stay_well_shaped mixed_tasks _ H).
Defined.



(** X15.  What a firework timer leaves behind when it fires: nothing.  In
    any scene, whatever the timer index and the draws, the callback throws
    at [new THREE.Float32Array] before it fills, adds or pushes anything:
    the store, the scene graph, every array (the one the timer captured and
    [this.fireworks] among them) and the live set are as before, and the
    pending timers are the same but for the one that fired (none is lost
    when the index names no pending timer). *)
Theorem firing_timer_builds_nothing (k : nat) (smp : Sample) (s : Scene) :
  heap (fire_timer k smp s) = heap s /\
  children (fire_timer k smp s) = children s /\
  arrays (fire_timer k smp s) = arrays s /\
  live (fire_timer k smp s) = live s /\
  timers (fire_timer k smp s) = delete k (timers s) /\
  (length (timers (fire_timer k smp s))
   = length (timers s) - (if decide (k < length (timers s))%nat then 1 else 0))%nat.
Proof.
  destruct (FireworksFacts.fire_timer_spec k smp s) as (Eh & Ea & Et & Ec & Etm).
  split; [exact Eh|]. split; [exact Ec|]. split; [exact Ea|].
  split; [unfold live, array_of; rewrite Et, Ea; reflexivity|].
  split; [exact Etm|]. rewrite Etm.
  destruct (decide (k < length (timers s))%nat) as [Hlt|Hge].
  - apply length_delete, lookup_lt_is_Some, Hlt.
  - rewrite delete_take_drop, take_ge, drop_ge, app_nil_r by lia. lia.
Qed.

(** X16.  An animation frame only shrinks the live set: every burst that
    is live afterwards was live before and is active, the live set is no
    longer than before, and a burst that was not live, or was already
    inactive, is left exactly as it was. *)
Theorem live_set_after_frame (s : Scene) :
  (forall o, o ∈ live (updateFireworks s) ->
             o ∈ live s /\ is_active (updateFireworks s) o = true) /\
  (length (live (updateFireworks s)) <= length (live s))%nat /\
  (forall o, o ∉ live s -> heap (updateFireworks s) !! o = heap s !! o) /\
  (forall o fw, heap s !! o = Some fw -> active fw = false ->
                heap (updateFireworks s) !! o = Some fw).
Proof.
  rewrite live_updateFireworks.
  change (heap (updateFireworks s)) with (heap (loop (live s) s)).
  assert (Hact : forall o, is_active (updateFireworks s) o
                           = is_active (loop (live s) s) o) by reflexivity.
  split; [|split; [|split]].
  - intros o Ho. rewrite Hact.
    apply list_elem_of_In, filter_In in Ho. destruct Ho as [Ho Ha].
    split; [apply list_elem_of_In, Ho | exact Ha].
  - apply List.filter_length_le.
  - intros o Ho. apply loop_unlisted, Ho.
  - intros o fw E Ha. apply loop_inactive; assumption.
Qed.

(** X17.  The life of a burst that is in the live set, from age 0 with
    lifetime 3.0: it stays active, live and in the scene graph for 187
    frames, its age growing by 0.016 a frame; the 188th frame, the first
    at which the age exceeds 3.0, makes it inactive, disposes geometry and
    material, removes its [Points] from the scene graph and drops it from
    the live set. *)
Theorem live_burst_expires (s : Scene) (o : nat) (fw : Firework) :
  NoDup (live s) -> o ∈ live s -> heap s !! o = Some fw ->
  active fw = true -> age fw == 0 -> lifetime fw = 3.0 ->
  is_Some (particles fw) -> o ∈ children s ->
  (forall n, (n <= 187)%nat ->
     exists fw', heap (frames n s) !! o = Some fw' /\ active fw' = true /\
                 age fw' == 0.016 * of_nat n /\
                 o ∈ live (frames n s) /\ o ∈ children (frames n s)) /\
  (exists fw', heap (frames 188 s) !! o = Some fw' /\ active fw' = false /\
               age fw' == 3.008 /\
               (o ∉ live (frames 188 s)) /\
               resources_released (frames 188 s) o).
Proof. apply registered_burst_lifecycle. Qed.

Lemma live_burst_expires_witness :
  exists fw',
    heap (frames 187 registered_scene) !! 0%nat = Some fw' /\
    active fw' = true /\ age fw' == 2.992 /\
    0%nat ∈ live (frames 187 registered_scene).
Proof.
  destruct (live_burst_expires registered_scene 0 _
              ltac:(repeat constructor; intros H; inversion H)
              ltac:(left) eq_refl eq_refl ltac:(reflexivity) eq_refl
              ltac:(eexists; reflexivity) ltac:(left))
    as [Hlive _].
  destruct (Hlive 187%nat (Nat.le_refl _)) as (fw' & H1 & H2 & H3 & H4 & _).
  exists fw'. split; [exact H1|]. split; [exact H2|].
  split; [rewrite H3; reflexivity | exact H4].
Defined.
End FireworksProperties.

(** ** Physics: a frame under a pinch *)

Module FrameFacts.
Import ANIMATION_CONFIG PARTICLE_CONFIG Physics VectorFacts PhysicsFacts
       TickFacts Swarms SwarmFacts.
Local Open Scope R_scope.

Lemma step_particle_pinched (r1 r2 : nat -> R) (s : State) (k1 k2 i : nat) :
  0.01 < pinchStrength s ->
  step_particle r1 (s, k1) i = (fst (step_particle r2 (s, k2) i), k1) /\
  pinchStrength (fst (step_particle r2 (s, k2) i)) = pinchStrength s.
Proof.
  intros Hp. rewrite !step_particle_arrays. cbv zeta. cbn [fst].
  unfold brownian, draws_per_particle.
  destruct (Rlt_dec 0.01 (pinchStrength s)) as [_|Hn]; [|contradiction].
  rewrite Nat.add_0_r. split; reflexivity.
Qed.

Lemma update_upto_pinched (r1 r2 : nat -> R) (s : State) (k1 k2 : nat) (n : nat) :
  0.01 < pinchStrength s ->
  fst (update_upto r1 n (s, k1)) = fst (update_upto r2 n (s, k2)) /\
  snd (update_upto r1 n (s, k1)) = k1 /\
  pinchStrength (fst (update_upto r2 n (s, k2))) = pinchStrength s.
Proof.
  intros Hp. induction n as [|n (IH1 & IH2 & IH3)].
  - unfold update_upto. cbn [seq fold_left fst snd]. repeat split.
  - rewrite !update_upto_S.
    destruct (update_upto r1 n (s, k1)) as [s1 k1'] eqn:E1.
    destruct (update_upto r2 n (s, k2)) as [s2 k2'] eqn:E2.
    cbn [fst snd] in *. subst s1 k1'.
    destruct (step_particle_pinched r1 r2 s2 k1 k2' n) as [H1 H2];
      [rewrite IH3; exact Hp|].
    rewrite H1, H2. cbn [fst snd]. repeat split. exact IH3.
Qed.
End FrameFacts.

(** ** Physics: one frame, particle by particle *)

Module FrameProperties.
Import ANIMATION_CONFIG PARTICLE_CONFIG Physics VectorFacts PhysicsFacts
       TickFacts Swarms SwarmFacts FrameFacts.
Local Open Scope R_scope.

(** X18.  One animation frame on well-formed arrays treats the particles
    one by one: the new velocity of particle [i] is the damping times the
    sum of its old velocity, the attraction towards its target and the
    Brownian increment drawn for it; its new position is the old one plus
    the new velocity; the targets and the pinch state are not written and
    the arrays keep their lengths.  The frame makes no random draw when
    the pinch strength exceeds 0.01 and three per particle otherwise,
    particle [i] using the draws from number [3 i] of the frame on. *)
Theorem frame_moves_each_particle (random : nat -> R) (s : State) (k : nat) :
  well_formed COUNT s ->
  let s' := fst (update random (s, k)) in
  well_formed COUNT s' /\
  snd (update random (s, k))
    = (k + COUNT * (if Rlt_dec 0.01 (pinchStrength s) then 0 else 3))%nat /\
  targetTree s' = targetTree s /\ targetExploded s' = targetExploded s /\
  pinchStrength s' = pinchStrength s /\ isPinching s' = isPinching s /\
  forall i, (i < COUNT)%nat ->
    velocity_of s' i
      = vscale DAMPING
          (vadd (vadd (velocity_of s i) (attraction s i))
                (brownian random s
                   (k + i * (if Rlt_dec 0.01 (pinchStrength s) then 0 else 3)))) /\
    position_of s' i = vadd (position_of s i) (velocity_of s' i).
Proof.
  intros Hwf. destruct (update_spec random s k Hwf)
    as (H1 & H2 & H3 & H4 & H5 & H6 & H7).
  cbv zeta in *. split; [exact H1|]. split; [exact H2|].
  split; [exact H3|]. split; [exact H4|]. split; [exact H5|].
  split; [exact H6|]. intros i Hi. destruct (H7 i Hi) as [Hv Hp].
  rewrite Hp, Hv. split; reflexivity.
Qed.

Lemma frame_moves_each_particle_witness :
  well_formed COUNT orbit /\
  snd (update no_jitter (orbit, 7%nat)) = (7 + COUNT * 0)%nat.
Proof.
  assert (Hwf : well_formed COUNT orbit) by apply swarm_well_formed.
  split; [exact Hwf|].
  rewrite (proj1 (proj2 (frame_moves_each_particle no_jitter orbit 7 Hwf))).
  change (pinchStrength orbit) with 1.
  destruct (Rlt_dec 0.01 1) as [_|Hn]; [reflexivity | exfalso; apply Hn; lra].
Defined.

(** X19.  While the pinch strength exceeds 0.01 an animation frame does
    not consult [Math.random]: the state after the frame is the same for
    any two random sources and any two draw counts, and the draw count is
    left as it was. *)
Theorem pinched_frame_ignores_random
    (random1 random2 : nat -> R) (s : State) (k1 k2 : nat) :
  0.01 < pinchStrength s ->
  fst (update random1 (s, k1)) = fst (update random2 (s, k2)) /\
  snd (update random1 (s, k1)) = k1.
Proof.
  intros Hp. unfold update.
  destruct (update_upto_pinched random1 random2 s k1 k2 COUNT Hp)
    as (H1 & H2 & _).
  split; [exact H1 | exact H2].
Qed.

Lemma pinched_frame_ignores_random_witness :
  0.01 < pinchStrength orbit /\
  fst (update no_jitter (orbit, 0%nat)) = fst (update (fun _ => 0) (orbit, 9%nat)).
Proof.
  assert (Hp : 0.01 < pinchStrength orbit)
    by (cbn [orbit swarm pinchStrength]; lra).
  split; [exact Hp|].
  exact (proj1 (pinched_frame_ignores_random no_jitter (fun _ => 0) orbit 0 9 Hp)).
Defined.
End FrameProperties.

(** ** Shapes: ranges of the generators *)

Module GeneratorFacts.
Import PARTICLE_CONFIG Physics Shapes ShapesFacts Boxes.
Local Open Scope R_scope.

Lemma noise3D_unit (x y z : R) : 0 <= noise3D x y z <= 1.
Proof.
  unfold noise3D, Math_floor. cbv zeta.
  pose proof (Zfloor_bound (sin (x * 12.9898 + y * 78.233 + z * 37.719)
                            * 43758.5453)). lra.
Qed.

Lemma exploded_point_in (i : nat) : entries_in (-30) 30 (exploded_point i).
Proof.
  unfold entries_in, exploded_point.
  pose proof (noise3D_unit (INR i) 0 0).
  pose proof (noise3D_unit 0 (INR i) 0).
  pose proof (noise3D_unit 0 0 (INR i)).
  constructor; [lra|]. constructor; [lra|]. constructor; [lra|]. constructor.
Qed.

Lemma flat_map_exploded_in (l : list nat) :
  entries_in (-30) 30 (flat_map exploded_point l).
Proof.
  induction l as [|i l IH]; [constructor|].
  cbn [flat_map]. apply Forall_app. split; [apply exploded_point_in | exact IH].
Qed.

(** A loop keeps what each pass of its body keeps. *)
Lemma for_each_inv {S : Type} (P : S -> Prop) (body : nat -> S -> Gen S)
    (random : nat -> R) (indices : list nat) :
  (forall i s drawn, In i indices -> P s -> P (fst (body i s random drawn))) ->
  forall s drawn, P s -> P (fst (for_each indices body s random drawn)).
Proof.
  induction indices as [|i rest IH]; intros Hbody s drawn Hs.
  - exact Hs.
  - cbn [for_each]. unfold bind.
    pose proof (Hbody i s drawn (or_introl eq_refl) Hs) as H1.
    destruct (body i s random drawn) as [s1 drawn1]. cbn [fst] in H1.
    apply IH; [|exact H1].
    intros j s' d Hj. apply Hbody. right. exact Hj.
Qed.

Lemma length_wr_shape (a : list R) (i : nat) (v : R) :
  length (Shapes.wr a i v) = length a.
Proof. apply length_insert. Qed.

Lemma rd_wr_shape (a : list R) (i j : nat) (v : R) :
  (i < length a)%nat ->
  rd (Shapes.wr a i v) j = if (j =? i)%nat then v else rd a j.
Proof.
  intros H. unfold rd, Shapes.wr. destruct (Nat.eqb_spec j i) as [-> | Hne].
  - apply list_lookup_total_insert_eq. exact H.
  - apply list_lookup_total_insert_ne. congruence.
Qed.

Lemma rd_repeat_0 (n j : nat) : rd (repeat 0 n) j = 0.
Proof.
  unfold rd. revert j. induction n as [|n IH]; intros j; [reflexivity|].
  destruct j as [|j]; [reflexivity|]. cbn [repeat]. apply IH.
Qed.

(** Writing particle [i] inside the box keeps every particle inside. *)
Lemma in_tree_box_wr (a : list R) (n i : nat) (x y z : R) :
  length a = (n * 3)%nat -> (i < n)%nat ->
  -10.3 <= x <= 10.3 -> -16.8 <= y <= 12.8 -> -10.3 <= z <= 10.3 ->
  (forall j, in_tree_box a j) ->
  forall j, in_tree_box
              (Shapes.wr (Shapes.wr (Shapes.wr a (i * 3) x) (i * 3 + 1) y)
                         (i * 3 + 2) z) j.
Proof.
  intros Hlen Hi Hx Hy Hz Ha j. unfold in_tree_box.
  rewrite !rd_wr_shape by (rewrite ?length_wr_shape; lia).
  destruct (Ha j) as (H1 & H2 & H3).
  repeat match goal with
         | |- context [(?u =? ?v)%nat] => destruct (Nat.eqb_spec u v); try lia
         end; repeat split; lra.
Qed.

(** The radius of a layer, its height and the jitter, for a layer
    fraction between 0 and 1. *)
Lemma layer_bounds (pct : R) :
  0 <= pct < 1 ->
  let normalizedY := Math_floor (pct * 12) / 12 in
  0 <= normalizedY <= 1 /\
  0 <= RADIUS * ((1 - normalizedY) * 0.8 + Math_pow (1 - normalizedY) 1.3 * 0.2)
    <= 10.
Proof.
  intros Hp. cbv zeta. unfold Math_floor, RADIUS.
  pose proof (Zfloor_bound (pct * 12)) as Hb.
  assert (H0 : 0 <= IZR (Zfloor (pct * 12))).
  { apply IZR_le. apply (Zfloor_lub 0). lra. }
  set (f := IZR (Zfloor (pct * 12))) in *.
  assert (Hn : 0 <= f / 12 <= 1) by (split; lra).
  split; [exact Hn|].
  assert (Hpow : 0 <= Math_pow (1 - f / 12) 1.3 <= 1).
  { unfold Math_pow. destruct (Rle_dec (1 - f / 12) 0) as [_|Hpos]; [lra|].
    split; [left; apply exp_pos|].
    replace 1 with (Rpower 1 1.3) at 2
      by (unfold Rpower; rewrite ln_1, Rmult_0_r; apply exp_0).
    apply Rle_Rpower_l; lra. }
  lra.
Qed.

(** A point of the tree: radius at most 10, layer fraction in [[0, 1)],
    three draws in [[0, 1)]. *)
Lemma tree_point_in_box (pct r3 r4 r5 radius angle : R) :
  0 <= pct < 1 -> 0 <= r3 < 1 -> 0 <= r4 < 1 -> 0 <= r5 < 1 ->
  0 <= radius <= 10 ->
  let normalizedY := Math_floor (pct * 12) / 12 in
  let r := radius * sqrt r3 in
  let y := - HEIGHT / 2 + normalizedY * HEIGHT - r * 0.4 in
  let depthJitter := (r5 - 0.5) * (0.8 + normalizedY * 1.2) in
  -10.3 <= cos angle * r + depthJitter * 0.3 <= 10.3 /\
  -16.8 <= y + (r4 - 0.5) * 0.6 <= 12.8 /\
  -10.3 <= sin angle * r + depthJitter * 0.3 <= 10.3.
Proof.
  intros Hp H3 H4 H5 Hrad.
  cbv zeta. destruct (layer_bounds pct Hp) as [Hn _]. cbv zeta in Hn.
  set (nY := Math_floor (pct * 12) / 12) in *.
  assert (Hs : 0 <= sqrt r3 <= 1).
  { split; [apply sqrt_pos|]. rewrite <- sqrt_1. apply sqrt_le_1; lra. }
  assert (Hrr : 0 <= radius * sqrt r3 <= 10) by nra.
  set (r := radius * sqrt r3) in *.
  pose proof (COS_bound angle) as Hc. pose proof (SIN_bound angle) as Hsn.
  assert (Hcr : -10 <= cos angle * r <= 10) by nra.
  assert (Hsr : -10 <= sin angle * r <= 10) by nra.
  assert (Hd : -1 <= (r5 - 0.5) * (0.8 + nY * 1.2) <= 1) by nra.
  unfold HEIGHT. repeat split; nra.
Qed.

Lemma layerPct_unit (i n : nat) : (i < n)%nat -> 0 <= INR i / INR n < 1.
Proof.
  intros Hi. assert (Hn : 0 < INR n) by (apply lt_0_INR; lia).
  assert (H0 : 0 <= INR i) by apply pos_INR.
  assert (H1 : INR i < INR n) by (apply lt_INR; exact Hi).
  split.
  - apply Rmult_le_pos; [exact H0 | left; apply Rinv_0_lt_compat, Hn].
  - apply (Rmult_lt_reg_r (INR n)); [exact Hn|].
    unfold Rdiv. rewrite Rmult_assoc, Rinv_l by lra. lra.
Qed.

(** The tree generator: the array keeps its length and every particle
    written lies in the box. *)
Lemma tree_generator_in_box (particleCount : nat) (random : nat -> R)
    (drawn : nat) :
  unit_draws random ->
  length (fst (calculateTreeParticlePositions particleCount random drawn))
    = (particleCount * 3)%nat /\
  forall j, in_tree_box
              (fst (calculateTreeParticlePositions particleCount random drawn)) j.
Proof.
  intros Hr. unfold calculateTreeParticlePositions, for_upto. cbv zeta.
  match goal with
  | |- context [for_each _ ?body ?s0] =>
      apply (for_each_inv
               (fun a => length a = (particleCount * 3)%nat /\
                         forall j, in_tree_box a j)
               body random (seq 0 particleCount))
  end.
  - intros i a d Hin [Hlen Hbox]. apply in_seq in Hin.
    assert (Hi : (i < particleCount)%nat) by lia.
    unfold bind, Math_random, ret.
    destruct (Rlt_dec _ _) as [Hre | Hkeep]; cbn [fst].
    + split; [rewrite !length_wr_shape; exact Hlen|].
      assert (Hp : 0 <= random (S d) * 0.5 < 1)
        by (pose proof (Hr (S d)); lra).
      destruct (layer_bounds _ Hp) as [_ Hrad]. cbv zeta in Hrad.
      destruct (tree_point_in_box (random (S d) * 0.5) (random (S (S d)))
                  (random (S (S (S d)))) (random (S (S (S (S d)))))
                  _ (INR i * 2.399963229728653) Hp (Hr _) (Hr _) (Hr _) Hrad)
        as (Hx & Hy & Hz).
      apply (in_tree_box_wr a particleCount i _ _ _ Hlen Hi Hx Hy Hz Hbox).
    + split; [rewrite !length_wr_shape; exact Hlen|].
      pose proof (layerPct_unit i particleCount Hi) as Hp.
      destruct (layer_bounds _ Hp) as [_ Hrad]. cbv zeta in Hrad.
      assert (Hmax : 0 <= Rmax 0.2
                            (RADIUS * ((1 - Math_floor (INR i / INR particleCount * 12) / 12) * 0.8
                             + Math_pow (1 - Math_floor (INR i / INR particleCount * 12) / 12) 1.3 * 0.2))
                     <= 10).
      { split.
        - eapply Rle_trans; [|apply Rmax_l]. lra.
        - apply Rmax_lub; lra. }
      destruct (tree_point_in_box (INR i / INR particleCount) (random (S d))
                  (random (S (S d))) (random (S (S (S d))))
                  _ (INR i * 2.399963229728653) Hp (Hr _) (Hr _) (Hr _) Hmax)
        as (Hx & Hy & Hz).
      apply (in_tree_box_wr a particleCount i _ _ _ Hlen Hi Hx Hy Hz Hbox).
  - split; [apply repeat_length|]. intros j. unfold in_tree_box, Float32Array.
    rewrite !rd_repeat_0. repeat split; lra.
Qed.
End GeneratorFacts.

(** ** Shapes: the state [setupParticleSystem] builds *)

Module SetupFacts.
Import PARTICLE_CONFIG Physics Shapes ShapesFacts Boxes GeneratorFacts.
Local Open Scope R_scope.

Lemma length_tree_generator (particleCount : nat) (random : nat -> R)
    (drawn : nat) :
  length (fst (calculateTreeParticlePositions particleCount random drawn))
    = (particleCount * 3)%nat.
Proof.
  unfold calculateTreeParticlePositions, for_upto. cbv zeta.
  match goal with
  | |- context [for_each _ ?body ?s0] =>
      apply (for_each_inv
               (fun a => length a = (particleCount * 3)%nat)
               body random (seq 0 particleCount))
  end.
  - intros i a d _ Hlen. unfold bind, Math_random, ret.
    destruct (Rlt_dec _ _); cbn [fst]; rewrite !length_wr_shape;
      exact Hlen.
  - apply repeat_length.
Qed.

Lemma vec_at_repeat_0 (n i : nat) : vec_at (repeat 0 n) i = vzero.
Proof. unfold vec_at. rewrite !rd_repeat_0. reflexivity. Qed.

Lemma length3_vsub_self (a : Vector3) : length3 (vsub a a) = 0.
Proof.
  unfold length3, vsub, set. cbn [v_x v_y v_z].
  replace ((v_x a - v_x a) * (v_x a - v_x a) + (v_y a - v_y a) * (v_y a - v_y a)
           + (v_z a - v_z a) * (v_z a - v_z a)) with 0 by ring.
  apply sqrt_0.
Qed.

(** The state [setupParticleSystem] builds, field by field. *)
Lemma setupParticleSystem_fields (random : nat -> R) (drawn : nat) :
  exists tree : list R,
    tree = fst (calculateTreeParticlePositions COUNT random drawn) /\
    fst (setupParticleSystem random drawn)
      = {| positions := flat_map exploded_point (seq 0 COUNT);
           velocities := repeat 0 (COUNT * 3);
           targetTree := tree;
           targetExploded := flat_map exploded_point (seq 0 COUNT);
           isPinching := false;
           pinchStrength := 0 |} /\
    snd (setupParticleSystem random drawn)
      = snd (calculateTreeParticlePositions COUNT random drawn).
Proof.
  unfold setupParticleSystem, bind.
  rewrite calculateExplodedParticlePositions_closed.
  destruct (calculateTreeParticlePositions COUNT random drawn)
    as [tree drawn1].
  rewrite calculateExplodedParticlePositions_closed.
  exists tree. unfold ret, Float32Array. cbn [fst snd].
  split; [reflexivity|]. split; reflexivity.
Qed.

(** A state whose particles are at rest at their exploded targets, with
    pinch strength 0. *)
Lemma rest_at_exploded (e t : list R) (n : nat) (b : bool) :
  let s := {| positions := e; velocities := repeat 0 n; targetTree := t;
              targetExploded := e; isPinching := b; pinchStrength := 0 |} in
  forall i, velocity_of s i = vzero /\
            position_of s i = vec_at (targetExploded s) i /\
            attraction s i = vzero.
Proof.
  cbv zeta. intros i.
  unfold velocity_of, position_of, attraction, displacement, target_of.
  cbn [positions velocities targetTree targetExploded pinchStrength].
  split; [apply vec_at_repeat_0|]. split; [reflexivity|].
  destruct (Rlt_dec 0.01 0) as [H|_]; [lra|].
  unfold position_of. cbn [positions]. generalize (vec_at e i). intros a. rewrite length3_vsub_self.
  destruct (Rlt_dec 0.01 0) as [H|_]; [lra | reflexivity].
Qed.

Lemma well_formed_fields (p v t e : list R) (n : nat) (b : bool) (k : R) :
  length p = (n * 3)%nat -> length v = (n * 3)%nat ->
  length t = (n * 3)%nat -> length e = (n * 3)%nat ->
  well_formed n {| positions := p; velocities := v; targetTree := t;
                   targetExploded := e; isPinching := b; pinchStrength := k |}.
Proof. intros Hp Hv Ht He. repeat split; assumption. Qed.
End SetupFacts.

(** ** Shapes: the cube, the tree's box, the initial state *)

Module ShapeProperties.
Import PARTICLE_CONFIG Physics Shapes ShapesFacts Boxes GeneratorFacts
       SetupFacts Swarms.
Local Open Scope R_scope.

(** X20.  The exploded generator returns three entries per particle, and
    every coordinate it writes lies in [[-30, 30]]: the noise, [n] minus
    its floor, is between 0 and 1, then shifted by a half and scaled by
    the spread 60. *)
Theorem exploded_points_in_cube
    (particleCount : nat) (random : nat -> R) (drawn : nat) :
  length (fst (calculateExplodedParticlePositions particleCount random drawn))
    = (particleCount * 3)%nat /\
  entries_in (-30) 30
    (fst (calculateExplodedParticlePositions particleCount random drawn)).
Proof.
  rewrite calculateExplodedParticlePositions_closed. cbn [fst].
  split; [|apply flat_map_exploded_in].
  rewrite length_flat_map_exploded, length_seq. reflexivity.
Qed.

(** X21.  With draws in [[0, 1)] the tree generator returns three entries
    per particle, every particle within 10.3 of the axis in [x] and [z]
    and at a height between -16.8 and 12.8, and it makes between four and
    five draws per particle. *)
Theorem tree_fits_its_box
    (particleCount : nat) (random : nat -> R) (drawn : nat) :
  unit_draws random ->
  length (fst (calculateTreeParticlePositions particleCount random drawn))
    = (particleCount * 3)%nat /\
  (forall i, in_tree_box
               (fst (calculateTreeParticlePositions particleCount random drawn))
               i) /\
  (drawn + particleCount * 4
   <= snd (calculateTreeParticlePositions particleCount random drawn)
   <= drawn + particleCount * 5)%nat.
Proof.
  intros Hr.
  destruct (tree_generator_in_box particleCount random drawn Hr) as [H1 H2].
  split; [exact H1|]. split; [exact H2|].
  apply ShapesClaims.calculateTreeParticlePositions_draws.
Qed.

Lemma tree_fits_its_box_witness :
  unit_draws no_jitter /\
  in_tree_box (fst (calculateTreeParticlePositions 40 no_jitter 0%nat)) 7.
Proof.
  assert (Hr : unit_draws no_jitter) by (intros j; unfold no_jitter; lra).
  split; [exact Hr|].
  exact (proj1 (proj2 (tree_fits_its_box 40 no_jitter 0%nat Hr)) 7%nat).
Defined.

(** X22.  The state [setupParticleSystem] leaves: four arrays of three
    entries per particle, not pinching, pinch strength 0, every particle
    at rest exactly at its exploded target, so that no attraction acts on
    it in the first frame; the only draws made are the four to five per
    particle of the tree generator. *)
Theorem particles_start_at_exploded_targets (random : nat -> R) (drawn : nat) :
  let s0 := fst (setupParticleSystem random drawn) in
  well_formed COUNT s0 /\
  isPinching s0 = false /\ pinchStrength s0 = 0 /\
  (forall i, velocity_of s0 i = vzero /\
             position_of s0 i = vec_at (targetExploded s0) i /\
             attraction s0 i = vzero) /\
  (drawn + COUNT * 4 <= snd (setupParticleSystem random drawn)
   <= drawn + COUNT * 5)%nat.
Proof.
  cbv zeta.
  destruct (setupParticleSystem_fields random drawn) as (tree & Et & E1 & E2).
  rewrite E1, E2.
  split; [|split; [reflexivity|split; [reflexivity|split]]].
  - apply well_formed_fields.
    + rewrite length_flat_map_exploded, length_seq. reflexivity.
    + apply repeat_length.
    + rewrite Et. apply length_tree_generator.
    + rewrite length_flat_map_exploded, length_seq. reflexivity.
  - apply (rest_at_exploded (flat_map exploded_point (seq 0 COUNT)) tree
             (COUNT * 3) false).
  - apply ShapesClaims.calculateTreeParticlePositions_draws.
Qed.
End ShapeProperties.

(** ** Snow: setting up and falling *)

Module SnowFacts.
Import Physics Shapes Boxes GeneratorFacts Snow.
Local Open Scope R_scope.

Ltac eqb_cases :=
  repeat match goal with
         | |- context [(?u =? ?v)%nat] => destruct (Nat.eqb_spec u v); try lia
         end.

Lemma setup_body_in_range (a : list R) (n i : nat) (x y z : R) :
  length a = (n * 3)%nat -> (i < n)%nat ->
  -15 <= y <= 50 -> -30 <= z <= 30 ->
  (forall j, flake_in_range a j) ->
  forall j, flake_in_range
              (Shapes.wr (Shapes.wr (Shapes.wr a (i * 3) x) (i * 3 + 1) y)
                         (i * 3 + 2) z) j.
Proof.
  intros Hlen Hi Hy Hz Ha j. unfold flake_in_range.
  rewrite !rd_wr_shape by (rewrite ?length_wr_shape; lia).
  destruct (Ha j) as (H1 & H2). eqb_cases; repeat split; lra.
Qed.

Lemma setupSnow_in_range (random : nat -> R) (drawn : nat) :
  unit_draws random -> snow_in_range (fst (setupSnow random drawn)).
Proof.
  intros Hr. unfold setupSnow, for_upto, snow_in_range. cbv zeta.
  match goal with
  | |- context [for_each _ ?body ?s0] =>
      apply (for_each_inv
               (fun a => length a = (SNOW_CONFIG.COUNT * 3)%nat /\
                         forall j, flake_in_range a j)
               body random (seq 0 SNOW_CONFIG.COUNT))
  end.
  - intros i a d Hin [Hlen Hbox]. apply in_seq in Hin.
    unfold bind, Math_random, ret. cbn [fst].
    split; [rewrite !length_wr_shape; exact Hlen|].
    pose proof (Hr (S d)). pose proof (Hr (S (S d))).
    apply (setup_body_in_range a SNOW_CONFIG.COUNT i); try assumption;
      try lia; lra.
  - split; [apply repeat_length|]. intros j. unfold flake_in_range, Float32Array.
    rewrite !rd_repeat_0. repeat split; lra.
Qed.

(** One flake falls: the others are not touched, the flake stays in
    range. *)
Lemma fall_in_range (random : nat -> R) (time : R) (a : list R)
    (i drawn : nat) :
  unit_draws random -> (i < SNOW_CONFIG.COUNT)%nat ->
  length a = (SNOW_CONFIG.COUNT * 3)%nat -> (forall j, flake_in_range a j) ->
  length (fst (fall time i a random drawn)) = (SNOW_CONFIG.COUNT * 3)%nat /\
  forall j, flake_in_range (fst (fall time i a random drawn)) j.
Proof.
  intros Hr Hi Hlen Ha. unfold fall. cbv zeta.
  pose proof (SIN_bound (time + INR i)) as Hs.
  destruct (Ha i) as [Hy Hz].
  match goal with
  | |- context [Rlt_dec ?u ?v] => destruct (Rlt_dec u v) as [Hlow | Hok]
  end.
  - unfold bind, Math_random, ret. cbn [fst].
    split; [rewrite !length_wr_shape; exact Hlen|].
    intros j. unfold flake_in_range.
    rewrite !rd_wr_shape by (rewrite ?length_wr_shape; lia).
    destruct (Ha j) as (H1 & H2). pose proof (Hr (S drawn)).
    eqb_cases; repeat split; lra.
  - unfold ret. cbn [fst].
    split; [rewrite !length_wr_shape; exact Hlen|].
    rewrite !rd_wr_shape in Hok by (rewrite ?length_wr_shape; lia).
    revert Hok. eqb_cases. intros Hok.
    intros j. unfold flake_in_range.
    rewrite !rd_wr_shape by (rewrite ?length_wr_shape; lia).
    destruct (Ha j) as (H1 & H2).
    eqb_cases; subst; repeat split; lra.
Qed.

Lemma update_snow_in_range (random : nat -> R) (visible : bool) (time : R)
    (a : list R) (drawn : nat) :
  unit_draws random -> snow_in_range a ->
  snow_in_range (fst (update_snow visible time a random drawn)).
Proof.
  intros Hr Ha. unfold update_snow. destruct visible; [|exact Ha].
  unfold for_upto.
  apply (for_each_inv snow_in_range (fall time) random
           (seq 0 SNOW_CONFIG.COUNT)); [|exact Ha].
  intros i s d Hin [Hlen Hs]. apply in_seq in Hin.
  apply fall_in_range; try assumption. lia.
Qed.

Lemma snowfall_in_range (random : nat -> R) (visible : bool) (n : nat) :
  unit_draws random ->
  forall (time : R) (a : list R) (drawn : nat),
    snow_in_range a ->
    snow_in_range (fst (snowfall visible time n a random drawn)).
Proof.
  intros Hr. induction n as [|n IH]; intros time a drawn Ha; [exact Ha|].
  cbn [snowfall]. unfold bind.
  pose proof (update_snow_in_range random visible (time + 0.016) a drawn Hr Ha)
    as H1.
  destruct (update_snow visible (time + 0.016) a random drawn) as [a1 d1].
  apply IH, H1.
Qed.
End SnowFacts.

(** ** Snow: the field stays in range *)

Module SnowProperties.
Import Physics Shapes Boxes GeneratorFacts Snow SnowFacts Swarms.
Local Open Scope R_scope.

(** X23.  With draws in [[0, 1)], the snow field [setupSnow] builds has
    three entries per flake, every flake at a height in [[-15, 50]] and a
    depth in [[-30, 30]], and any number of animation frames keeps it so,
    at whatever time they start: a flake that falls below -15 is put back
    at height 40. *)
Theorem snow_stays_in_range
    (random : nat -> R) (visible : bool) (time : R) (n drawn drawn' : nat) :
  unit_draws random ->
  snow_in_range (fst (setupSnow random drawn)) /\
  snow_in_range
    (fst (snowfall visible time n (fst (setupSnow random drawn)) random drawn')).
Proof.
  intros Hr. pose proof (setupSnow_in_range random drawn Hr) as H.
  split; [exact H|]. apply snowfall_in_range; assumption.
Qed.

Lemma snow_stays_in_range_witness :
  unit_draws no_jitter /\
  flake_in_range
    (fst (snowfall true 0 500 (fst (setupSnow no_jitter 0%nat)) no_jitter
                   3000%nat))
    7.
Proof.
  assert (Hr : unit_draws no_jitter) by (intros j; unfold no_jitter; lra).
  split; [exact Hr|].
  exact (proj2 (proj2 (snow_stays_in_range no_jitter true 0 500 0 3000 Hr))
               7%nat).
Defined.
End SnowProperties.

(** ** Start-up: the polling loop *)

Module CameraFacts.
Import Dispatcher Camera App.

Lemma poll_spec (env : Env) (fuel : nat) :
  forall attempts,
    (attempts <= poll env fuel attempts <= attempts + fuel)%nat /\
    (forall j, (attempts <= j < poll env fuel attempts)%nat ->
               loaded env j = false) /\
    ((poll env fuel attempts < attempts + fuel)%nat ->
     loaded env (poll env fuel attempts) = true).
Proof.
  induction fuel as [|fuel IH]; intros attempts; cbn [poll].
  - split; [lia|]. split; intros; lia.
  - destruct (loaded env attempts) eqn:E; cbn [negb].
    + split; [lia|]. split; [intros; lia | intros _; exact E].
    + destruct (IH (S attempts)) as (H1 & H2 & H3).
      split; [lia|]. split.
      * intros j Hj. destruct (decide (j = attempts)) as [-> | Hne];
          [exact E | apply H2; lia].
      * intros Hlt. apply H3. lia.
Qed.
End CameraFacts.

(** ** Start-up: what [initCamera] reports *)

Module CameraProperties.
Import Dispatcher Camera CameraFacts.

(** X24.  [initCamera] polls for the MediaPipe scripts at most 100 times:
    it waits exactly until the first check at which they are present, or
    100 times if they are absent at each of the first 100 checks. *)
Theorem camera_polling_is_bounded (env : Env) :
  let waits := fst (initCamera env) in
  (waits <= 100)%nat /\
  (forall j, (j < waits)%nat -> loaded env j = false) /\
  ((waits < 100)%nat -> loaded env waits = true).
Proof.
  cbv zeta.
  assert (E : fst (initCamera env) = poll env 100 0).
  { unfold initCamera. cbv zeta.
    destruct (mounted_after_wait env), (loaded env (poll env 100 0)),
      (video env), (started env); reflexivity. }
  rewrite E. destruct (poll_spec env 100 0) as (H1 & H2 & H3).
  split; [lia|]. split; [intros j Hj; apply H2; lia | intros H; apply H3; lia].
Qed.

(** X25.  What [initCamera] reports: [ACTIVE] exactly when the component
    stayed mounted, the scripts were present at the last check, the video
    element exists and the camera started; an error status exactly when an
    error message is reported, and never together with [ACTIVE]; nothing
    at all once the component was unmounted during the polling; at most
    two callbacks in any case, none of them a gesture callback. *)
Theorem camera_outcome (env : Env) :
  let waits := fst (initCamera env) in
  let calls := snd (initCamera env) in
  (In (onStatusChange ACTIVE) calls <->
   mounted_after_wait env = true /\ loaded env waits = true /\
   video env = true /\ started env = true /\
   mounted_after_start env = true) /\
  (In (onStatusChange ERROR) calls <-> exists m, In (onError m) calls) /\
  ~ (In (onStatusChange ACTIVE) calls /\ In (onStatusChange ERROR) calls) /\
  (mounted_after_wait env = false -> calls = []) /\
  (length calls <= 2)%nat /\
  forallb (fun c => match c with
                    | onError _ | onStatusChange _ => true
                    | _ => false
                    end) calls = true.
Proof.
  cbv zeta. unfold initCamera. cbv zeta.
  destruct (mounted_after_wait env), (loaded env (poll env 100 0)) eqn:El,
    (video env), (started env), (mounted_after_start env);
    cbn [negb fst snd In length forallb andb]; rewrite ?El;
    (split; [split; [intros H; repeat (destruct H as [H|H]; try discriminate H);
                     try contradiction; repeat split; reflexivity
                    | intros (H1 & H2 & H3 & H4 & H5);
                      try discriminate; auto]|]);
    (split; [split; [intros H; repeat (destruct H as [H|H]; try discriminate H);
                     try contradiction; eexists; eauto
                    | intros [m H];
                      repeat (destruct H as [H|H]; try discriminate H);
                      try contradiction; auto]|]);
    (split; [intros [H1 H2];
             repeat (destruct H1 as [H1|H1]; try discriminate H1);
             repeat (destruct H2 as [H2|H2]; try discriminate H2);
             try contradiction|]);
    (split; [intros H; try discriminate H; reflexivity|]);
    (split; [lia | reflexivity]).
Qed.

(** X26.  What the component shows after [initCamera]: the status is
    [ERROR] exactly when an error message is set, [ACTIVE] exactly when
    the camera started with the component mounted throughout, and
    [LOADING] otherwise; the interaction state, the theme, the snow and
    the scene are not touched. *)
Theorem camera_status_shown (env : Env) (scene : option App.ThreeScene) :
  let c := fold_left App.handle (snd (initCamera env))
                     (App.new_component scene) in
  (App.cameraStatus c = ERROR <-> is_Some (App.errorMessage c)) /\
  (App.cameraStatus c = ACTIVE <->
   mounted_after_wait env = true /\ loaded env (fst (initCamera env)) = true /\
   video env = true /\ started env = true /\
   mounted_after_start env = true) /\
  App.interactionState c = App.IDLE /\ App.colorThemeRef c = 0%nat /\
  App.isSnowingRef c = false /\ App.threeSceneRef c = scene.
Proof.
  cbv zeta. unfold initCamera. cbv zeta.
  destruct (mounted_after_wait env), (loaded env (poll env 100 0)) eqn:El,
    (video env), (started env), (mounted_after_start env);
    cbn [negb fst snd fold_left App.handle App.onError App.onStatusChange
         App.new_component App.cameraStatus App.errorMessage
         App.interactionState App.colorThemeRef App.isSnowingRef
         App.threeSceneRef];
    rewrite ?El;
    (split; [split; [intros H; try discriminate H; eexists; reflexivity
                    | intros [m H]; try discriminate H; reflexivity]|]);
    (split; [split; [intros H; try discriminate H; repeat split; reflexivity
                    | intros (H1 & H2 & H3 & H4 & H5);
                      try discriminate; reflexivity]|]);
    repeat split.
Qed.
End CameraProperties.
